(** * Load-aware batcher: a shallow embedding of [batcher.go]

    The Go package keeps one [Batcher] record behind a mutex.  Every method
    body is a short critical section, possibly followed by a handler call that
    runs outside the lock.  The embedding follows that shape:

    - Go [float64] is Rocq's primitive binary64 [float]; every operation is
      rounded on its own (no fused multiply-add), [math.Min]/[math.Max] follow
      the Go library's special cases, and the conversions [float64(int)] and
      [int(float64)] are written out.
    - Go [int] is a [Z] with the 64-bit wrap-around written out ([wrap64]).
    - Each critical section is a pure function on the [Batcher] record; the
      whole methods are their sequential compositions, and an interleaving of
      goroutines is a list of critical sections ([Event]s).
    - The callers of the package are embedded next to it: the backend
      simulator, whose random draws and clock readings are inputs of the
      model, and the handlers and helpers of the demos. *)

From Stdlib Require Import ZArith Bool List Lia Floats Uint63.
From Stdlib Require String.
Import ListNotations.

Set Implicit Arguments.

Local Open Scope Z_scope.

(** ** Go numeric types *)

Module GoNum.

(** *** [int]: 64 bits, two's complement *)

Definition min_int64 : Z := - 2 ^ 63.
Definition max_int64 : Z := 2 ^ 63 - 1.

Definition in_int64 (z : Z) : bool := (min_int64 <=? z) && (z <=? max_int64).

Definition wrap64 (z : Z) : Z := (z + 2 ^ 63) mod 2 ^ 64 - 2 ^ 63.

(** What [int(x)] gives when [x] is NaN, infinite or out of range is left to
    the implementation by the Go specification (amd64 yields [-2^63], arm64
    saturates).  The platform is a parameter of the model. *)
Class Platform := { conv_unrepresentable : float -> Z }.

(** The amd64 behaviour: CVTTSD2SQ's "integer indefinite". *)
Definition amd64 : Platform := {| conv_unrepresentable := fun _ => min_int64 |}.

(** *** [float64] constants of the source, as exact binary64 literals *)

Definition f0_6  : float := 0x1.3333333333333p-1%float.  (* 0.6  *)
Definition f0_15 : float := 0x1.3333333333333p-3%float.  (* 0.15 *)
Definition f0_1  : float := 0x1.999999999999ap-4%float.  (* 0.1  *)
Definition f0_2  : float := 0x1.999999999999ap-3%float.  (* 0.2  *)
Definition f0_25 : float := 0x1p-2%float.                (* 0.25 *)
Definition f0_55 : float := 0x1.199999999999ap-1%float.  (* 0.55 *)
Definition f0_9  : float := 0x1.ccccccccccccdp-1%float.  (* 0.9  *)
Definition f0_5  : float := 0x1p-1%float.                (* 0.5  *)
Definition f0_05 : float := 0x1.999999999999ap-5%float.  (* 0.05 *)
Definition f0_3  : float := 0x1.3333333333333p-2%float.  (* 0.3  *)
Definition f0_7  : float := 0x1.6666666666666p-1%float.  (* 0.7  *)
Definition f100  : float := 100%float.
Definition f50   : float := 50%float.

(** The number 1 as a sign, a mantissa and an exponent. *)
Definition SFone : spec_float := S754_finite false 4503599627370496 (-52).

(** *** [math.Min] and [math.Max]

    Go: [Min(x, -Inf) = -Inf], [Min(x, NaN) = NaN], [Min(-0, ±0) = -0],
    otherwise the smaller argument; [Max] is the mirror image. *)

Definition math_Min (x y : float) : float :=
  match Prim2SF x, Prim2SF y with
  | S754_infinity true, _ | _, S754_infinity true => neg_infinity
  | S754_nan, _ | _, S754_nan => nan
  | S754_zero sx, S754_zero _ => if sx then x else y
  | _, _ => if (x <? y)%float then x else y
  end.

Definition math_Max (x y : float) : float :=
  match Prim2SF x, Prim2SF y with
  | S754_infinity false, _ | _, S754_infinity false => infinity
  | S754_nan, _ | _, S754_nan => nan
  | S754_zero sx, S754_zero _ => if sx then y else x
  | _, _ => if (y <? x)%float then x else y
  end.

(** *** [float64(n)] for an [int] n: round to nearest, ties to even *)

Definition float64_of_int (n : Z) : float :=
  if n <? 0 then
    if n =? min_int64 then (- 0x1p63)%float
    else (- of_uint63 (Uint63.of_Z (- n)))%float
  else of_uint63 (Uint63.of_Z n).

(** *** [int(x)] for a [float64] x: truncation toward zero *)

(** The integer part of a finite binary64 number, [None] for NaN and the
    infinities. *)
Definition SFtrunc (x : spec_float) : option Z :=
  match x with
  | S754_zero _ => Some 0
  | S754_finite s m e => Some (cond_Zopp s (Z.shiftl (Zpos m) e))
  | S754_infinity _ | S754_nan => None
  end.

(** The floor of a finite binary64 number. *)
Definition SFfloor (x : spec_float) : option Z :=
  match x with
  | S754_zero _ => Some 0
  | S754_finite false m e => Some (Z.shiftl (Zpos m) e)
  | S754_finite true m e => Some (Z.shiftl (Zneg m) e)
  | S754_infinity _ | S754_nan => None
  end.

Definition float_trunc (x : float) : option Z := SFtrunc (Prim2SF x).
Definition float_floor (x : float) : option Z := SFfloor (Prim2SF x).

Definition int_of_float64 `{Platform} (x : float) : Z :=
  match float_trunc x with
  | Some z => if in_int64 z then z else wrap64 (conv_unrepresentable x)
  | None => wrap64 (conv_unrepresentable x)
  end.

(** *** Signs

    [SFpos] holds of +0, of the positive finite numbers and of +Inf;
    [SFnonneg] also of -0. *)

Definition SFpos (x : spec_float) : Prop :=
  match x with
  | S754_zero s | S754_infinity s | S754_finite s _ _ => s = false
  | S754_nan => False
  end.

Definition SFnonneg (x : spec_float) : Prop := SFpos x \/ x = S754_zero true.

Definition fpos (x : float) : Prop := SFpos (Prim2SF x).
Definition fnonneg (x : float) : Prop := SFnonneg (Prim2SF x).

(** Equality of binary64 numbers up to the sign of zero. *)
Definition fzero (x : float) : Prop := exists s, Prim2SF x = S754_zero s.
Definition same_number (x y : float) : Prop := x = y \/ (fzero x /\ fzero y).

Definition between (lo hi x : float) : bool := (lo <=? x)%float && (x <=? hi)%float.

(** *** Right shifts of a mantissa

    A shift record keeps the shifted mantissa and two bits for what was
    shifted out; it is exact when both are clear.  [shifted M k] describes the
    record after [k] one-bit shifts of [M]. *)

Definition shr_exact (mrs : shr_record) : Prop :=
  shr_r mrs = false /\ shr_s mrs = false.

Definition shifted (M k : Z) (mrs : shr_record) : Prop :=
  shr_m mrs = M / 2 ^ k /\ (M mod 2 ^ k = 0 -> shr_exact mrs).

End GoNum.

Import GoNum.

(** ** The data model *)

(** [LoadFeedback]: the load metrics returned by the handler.  The [Custom]
    map is informational and never read by the batcher; it is kept as an
    association list from names to values. *)
Record LoadFeedback := {
  CPULoad : float;
  QueueDepth : Z;
  ProcessingTime : Z;
  ErrorRate : float;
  DBLocks : Z;
  Custom : list (String.string * Z)
}.

(** The two sentinel errors of the package, and whatever the handler returns.
    Calling a nil [HandlerFunc] panics in Go; the model reports it as
    [NilHandlerPanic] (no batcher built by [New] has a nil handler). *)
Inductive error :=
| ErrClosed
| ErrInvalidConfig
| HandlerError (tag : Z)
| NilHandlerPanic.

Inductive result (A : Type) :=
| Ok (a : A)
| Err (e : error).
Arguments Ok {A} a.
Arguments Err {A} e.

(** [LoadScore] (batcher.go, lines 33-54): the weighted combination,
    statement by statement. *)
Definition LoadScore (lf : LoadFeedback) : float :=
  let score := 0%float in
  let score := (score + CPULoad lf * f0_6)%float in
  let queueScore := math_Min (float64_of_int (QueueDepth lf) / f100)%float 1%float in
  let score := (score + queueScore * f0_15)%float in
  let score := (score + ErrorRate lf * f0_15)%float in
  let lockScore := math_Min (float64_of_int (DBLocks lf) / f50)%float 1%float in
  let score := (score + lockScore * f0_1)%float in
  math_Min score 1%float.

(** The formula of the specification, written as it is stated there. *)
Definition LoadScore_spec (lf : LoadFeedback) : float :=
  math_Min 1%float
    (f0_6 * CPULoad lf
     + f0_15 * math_Min (float64_of_int (QueueDepth lf) / f100) 1
     + f0_15 * ErrorRate lf
     + f0_1 * math_Min (float64_of_int (DBLocks lf) / f50) 1)%float.

(** The feedback records of the package's score test. *)
Definition lowLoad : LoadFeedback :=
  {| CPULoad := f0_1; QueueDepth := 5; ProcessingTime := 0; ErrorRate := 0;
     DBLocks := 2; Custom := [] |}.
Definition mediumLoad : LoadFeedback :=
  {| CPULoad := f0_5; QueueDepth := 50; ProcessingTime := 0; ErrorRate := f0_05;
     DBLocks := 20; Custom := [] |}.
Definition highLoad : LoadFeedback :=
  {| CPULoad := f0_9; QueueDepth := 150; ProcessingTime := 0; ErrorRate := f0_2;
     DBLocks := 60; Custom := [] |}.

(** A feedback record with only the CPU load set. *)
Definition cpuOnly (x : float) : LoadFeedback :=
  {| CPULoad := x; QueueDepth := 0; ProcessingTime := 0; ErrorRate := 0;
     DBLocks := 0; Custom := [] |}.

Definition hot : LoadFeedback := cpuOnly f0_9.
Definition idle : LoadFeedback := cpuOnly 0.

(** The feedback of the package's adaptive-sizing test. *)
Definition busy : LoadFeedback :=
  {| CPULoad := f0_9; QueueDepth := 100; ProcessingTime := 0; ErrorRate := f0_5;
     DBLocks := 0; Custom := [] |}.

(** The two-sided clamp at the end of [adjustBatchSize] and in [New]. *)
Definition clamp (lo hi x : Z) : Z :=
  let x := if x <? lo then lo else x in
  if x >? hi then hi else x.

(** The controller's step is computed without overflow: the float product
    converts to an [int] and adding it to the size stays within [int]. *)
Definition step_fits (size : Z) (factor : float) : bool :=
  match float_trunc (math_Max (float64_of_int size * factor)%float 1%float) with
  | Some z => size + z <=? max_int64
  | None => false
  end.

Section Batcher.

Variable Item : Type.
Context {platform : Platform}.

(** [HandlerFunc]: the context argument is only forwarded and is left out.
    The handler of a method call is a function of the batch; in an
    interleaving the feedback it comes back with is arbitrary ([EvRecord]). *)
Definition Handler := list Item -> option LoadFeedback * option error.

Record Config := {
  InitialBatchSize : Z;
  MinBatchSize : Z;
  MaxBatchSize : Z;
  Timeout : Z;                       (* time.Duration, nanoseconds *)
  HandlerFunc : option Handler;      (* [None] is the nil func *)
  AdjustmentFactor : float;
  LoadCheckInterval : Z              (* time.Duration, nanoseconds *)
}.

Definition second : Z := 1000000000.

(** The fields guarded by [mu].  [timer] is [Some d] while a timer armed
    with duration [d] is stored, [adjusting] is true until [stopAdjust] is
    closed. *)
Record Batcher := {
  batch : list Item;
  cfg : Config;
  timer : option Z;
  closed : bool;
  currentBatchSize : Z;
  recentFeedback : list LoadFeedback;
  maxFeedbackLen : Z;
  adjusting : bool
}.

Definition len {A} (l : list A) : Z := Z.of_nat (length l).

Definition set_batch (b : Batcher) (x : list Item) : Batcher :=
  {| batch := x; cfg := cfg b; timer := timer b; closed := closed b;
     currentBatchSize := currentBatchSize b;
     recentFeedback := recentFeedback b; maxFeedbackLen := maxFeedbackLen b;
     adjusting := adjusting b |}.

Definition set_timer (b : Batcher) (t : option Z) : Batcher :=
  {| batch := batch b; cfg := cfg b; timer := t; closed := closed b;
     currentBatchSize := currentBatchSize b;
     recentFeedback := recentFeedback b; maxFeedbackLen := maxFeedbackLen b;
     adjusting := adjusting b |}.

Definition set_closed (b : Batcher) : Batcher :=
  {| batch := batch b; cfg := cfg b; timer := timer b; closed := true;
     currentBatchSize := currentBatchSize b;
     recentFeedback := recentFeedback b; maxFeedbackLen := maxFeedbackLen b;
     adjusting := adjusting b |}.

Definition set_currentBatchSize (b : Batcher) (n : Z) : Batcher :=
  {| batch := batch b; cfg := cfg b; timer := timer b; closed := closed b;
     currentBatchSize := n;
     recentFeedback := recentFeedback b; maxFeedbackLen := maxFeedbackLen b;
     adjusting := adjusting b |}.

Definition set_recentFeedback (b : Batcher) (r : list LoadFeedback) : Batcher :=
  {| batch := batch b; cfg := cfg b; timer := timer b; closed := closed b;
     currentBatchSize := currentBatchSize b;
     recentFeedback := r; maxFeedbackLen := maxFeedbackLen b;
     adjusting := adjusting b |}.

Definition stop_adjusting (b : Batcher) : Batcher :=
  {| batch := batch b; cfg := cfg b; timer := timer b; closed := closed b;
     currentBatchSize := currentBatchSize b;
     recentFeedback := recentFeedback b; maxFeedbackLen := maxFeedbackLen b;
     adjusting := false |}.

(** ** [New] (lines 115-160) *)

Definition New (c : Config) : result Batcher :=
  if InitialBatchSize c <=? 0 then Err ErrInvalidConfig else
  let minSize := if MinBatchSize c <=? 0 then 1 else MinBatchSize c in
  let maxSize := if MaxBatchSize c <=? 0 then 1000 else MaxBatchSize c in
  if minSize >? maxSize then Err ErrInvalidConfig else
  let initial := if InitialBatchSize c <? minSize then minSize else InitialBatchSize c in
  let initial := if initial >? maxSize then maxSize else initial in
  match HandlerFunc c with
  | None => Err ErrInvalidConfig
  | Some h =>
    let factor := if (AdjustmentFactor c <=? 0)%float then f0_2 else AdjustmentFactor c in
    let interval := if LoadCheckInterval c <=? 0 then 5 * second else LoadCheckInterval c in
    let c' := {| InitialBatchSize := initial; MinBatchSize := minSize;
                 MaxBatchSize := maxSize; Timeout := Timeout c;
                 HandlerFunc := Some h; AdjustmentFactor := factor;
                 LoadCheckInterval := interval |} in
    Ok {| batch := []; cfg := c'; timer := None; closed := false;
          currentBatchSize := initial; recentFeedback := [];
          maxFeedbackLen := 10; adjusting := true |}
  end.

(** ** Internal methods (lines 276-360; all run with [mu] held) *)

Definition detachBatchLocked (b : Batcher) : list Item * Batcher :=
  if len (batch b) =? 0 then ([], b)
  else (batch b, set_batch b []).

Definition stopTimerLocked (b : Batcher) : Batcher :=
  match timer b with
  | Some _ => set_timer b None
  | None => b
  end.

Definition startTimerLocked (b : Batcher) : Batcher :=
  set_timer b (Some (Timeout (cfg b))).

Definition recordFeedback (b : Batcher) (feedback : LoadFeedback) : Batcher :=
  let r := recentFeedback b ++ [feedback] in
  if len r >? maxFeedbackLen b then set_recentFeedback b (tl r)
  else set_recentFeedback b r.

(** The average of the load scores over the ring, summed left to right. *)
Definition averageLoad (r : list LoadFeedback) : float :=
  (fold_left (fun acc f => (acc + LoadScore f)%float) r 0%float
   / float64_of_int (len r))%float.

(** [int(math.Max(float64(size) * factor, 1))]. *)
Definition adjustStep (size : Z) (factor : float) : Z :=
  int_of_float64 (math_Max (float64_of_int size * factor)%float 1%float).

(** One tick of the controller (lines 296-337). *)
Definition adjustBatchSize (b : Batcher) : Batcher :=
  if len (recentFeedback b) =? 0 then b else
  let avgLoad := averageLoad (recentFeedback b) in
  let newSize := currentBatchSize b in
  let newSize :=
    if (avgLoad <? f0_25)%float then
      wrap64 (currentBatchSize b
              + adjustStep (currentBatchSize b) (AdjustmentFactor (cfg b)))
    else if (f0_55 <? avgLoad)%float then
      wrap64 (currentBatchSize b
              - adjustStep (currentBatchSize b) (AdjustmentFactor (cfg b)))
    else newSize in
  let newSize := if newSize <? MinBatchSize (cfg b) then MinBatchSize (cfg b) else newSize in
  let newSize := if newSize >? MaxBatchSize (cfg b) then MaxBatchSize (cfg b) else newSize in
  set_currentBatchSize b newSize.

(** ** Public methods

    Each method is its critical section followed, when a batch was
    detached, by [processBatch], which calls the handler without the lock
    and then records the feedback under the lock. *)

(** [processBatch] (lines 263-274). *)
Definition processBatch (b : Batcher) (bt : list Item) : Batcher * option error :=
  match HandlerFunc (cfg b) with
  | None => (b, Some NilHandlerPanic)
  | Some h =>
    let (feedback, err) := h bt in
    (match feedback with
     | Some f => recordFeedback b f
     | None => b
     end, err)
  end.

(** What a method call leaves behind: the new state, the batches handed to
    the handler during the call, and the returned error ([None] is nil). *)
Record Outcome := {
  state : Batcher;
  handled : list (list Item);
  returned : option error
}.

Inductive AddLocked :=
| AddRejected
| AddDetached (bt : list Item) (b' : Batcher)
| AddKept (b' : Batcher).

(** The critical section of [Add] (lines 163-190). *)
Definition Add_locked (b : Batcher) (item : Item) : AddLocked :=
  if closed b then AddRejected else
  let wasEmpty := len (batch b) =? 0 in
  let b := set_batch b (batch b ++ [item]) in
  if len (batch b) >=? currentBatchSize b then
    let (bt, b) := detachBatchLocked b in
    AddDetached bt (stopTimerLocked b)
  else if wasEmpty && (Timeout (cfg b) >? 0)
          && match timer b with None => true | Some _ => false end
  then AddKept (startTimerLocked b)
  else AddKept b.

Definition Add (b : Batcher) (item : Item) : Outcome :=
  match Add_locked b item with
  | AddRejected => {| state := b; handled := []; returned := Some ErrClosed |}
  | AddDetached bt b' =>
    let (b'', e) := processBatch b' bt in
    {| state := b''; handled := [bt]; returned := e |}
  | AddKept b' => {| state := b'; handled := []; returned := None |}
  end.

(** The critical section of [Flush] (lines 193-205). *)
Definition Flush_locked (b : Batcher) : option (list Item * Batcher) :=
  if len (batch b) =? 0 then None
  else let (bt, b) := detachBatchLocked b in Some (bt, stopTimerLocked b).

Definition Flush (b : Batcher) : Outcome :=
  match Flush_locked b with
  | None => {| state := b; handled := []; returned := None |}
  | Some (bt, b') =>
    let (b'', e) := processBatch b' bt in
    {| state := b''; handled := [bt]; returned := e |}
  end.

(** [Close] (lines 208-223): mark closed, stop the controller and wait for
    it, then flush.  This is the call with no critical section of another
    goroutine between its own; [CloseWith] below has them. *)
Definition Close (b : Batcher) : Outcome :=
  if closed b then {| state := b; handled := []; returned := None |}
  else Flush (stop_adjusting (set_closed b)).

(** The observers (lines 225-259). *)
Definition GetCurrentBatchSize (b : Batcher) : Z := currentBatchSize b.

Record Stats := {
  CurrentBatchSize : Z;
  PendingItems : Z;
  AverageLoadScore : float;
  RecentFeedbackSize : Z
}.

Definition GetStats (b : Batcher) : Stats :=
  {| CurrentBatchSize := currentBatchSize b;
     PendingItems := len (batch b);
     AverageLoadScore :=
       if len (recentFeedback b) >? 0 then averageLoad (recentFeedback b)
       else 0%float;
     RecentFeedbackSize := len (recentFeedback b) |}.

(** ** Interleavings

    Goroutines meet only inside critical sections, so a concurrent execution
    is a sequence of them.  [EvRecord fb] is the second half of
    [processBatch], for whatever feedback the handler came back with;
    [EvFlush] also stands for the timer callback and for the flush at the end
    of [Close]; [EvStop] is the controller leaving its loop after
    [stopAdjust] was closed; [EvAdjust] is one tick of the controller. *)

Inductive Event :=
| EvAdd (item : Item)
| EvFlush
| EvClose
| EvStop
| EvRecord (fb : LoadFeedback)
| EvAdjust.

(** One critical section: the next state and the batch detached for the
    handler, if any. *)
Definition step (b : Batcher) (e : Event) : Batcher * option (list Item) :=
  match e with
  | EvAdd item =>
    match Add_locked b item with
    | AddRejected => (b, None)
    | AddDetached bt b' => (b', Some bt)
    | AddKept b' => (b', None)
    end
  | EvFlush =>
    match Flush_locked b with
    | None => (b, None)
    | Some (bt, b') => (b', Some bt)
    end
  | EvClose => (if closed b then b else set_closed b, None)
  | EvStop => (if closed b then stop_adjusting b else b, None)
  | EvRecord fb => (recordFeedback b fb, None)
  | EvAdjust => (if adjusting b then adjustBatchSize b else b, None)
  end.

Fixpoint run (b : Batcher) (evs : list Event) : Batcher :=
  match evs with
  | [] => b
  | e :: evs' => run (fst (step b e)) evs'
  end.

(** The states a batcher built by [New] can be in. *)
Inductive reachable : Batcher -> Prop :=
| reach_New : forall c b, New c = Ok b -> reachable b
| reach_step : forall b e, reachable b -> reachable (fst (step b e)).

(** *** The configuration after the defaults of [New] *)

Definition minOrDefault (c : Config) : Z :=
  if MinBatchSize c <=? 0 then 1 else MinBatchSize c.
Definition maxOrDefault (c : Config) : Z :=
  if MaxBatchSize c <=? 0 then 1000 else MaxBatchSize c.
Definition factorOrDefault (c : Config) : float :=
  if (AdjustmentFactor c <=? 0)%float then f0_2 else AdjustmentFactor c.
Definition intervalOrDefault (c : Config) : Z :=
  if LoadCheckInterval c <=? 0 then 5 * second else LoadCheckInterval c.

(** *** State predicates *)

(** What holds of every reachable state. *)
Record Inv (b : Batcher) : Prop := {
  inv_min : 1 <= MinBatchSize (cfg b);
  inv_lo : MinBatchSize (cfg b) <= currentBatchSize b;
  inv_hi : currentBatchSize b <= MaxBatchSize (cfg b);
  inv_pending : len (batch b) < MaxBatchSize (cfg b);
  inv_window : maxFeedbackLen b = 10;
  inv_ring : len (recentFeedback b) <= maxFeedbackLen b;
  inv_handler : HandlerFunc (cfg b) <> None
}.

(** A batcher that is closed and whose pending buffer has been flushed. *)
Definition drained (b : Batcher) : Prop := closed b = true /\ batch b = [].

(** A run of the controller against a handler that keeps returning [fb]:
    ticks of the controller and recordings of [fb], in any order. *)
Definition controller_trace (fb : LoadFeedback) (evs : list Event) : Prop :=
  Forall (fun e => e = EvAdjust \/ e = EvRecord fb) evs.

(** The number of controller ticks in a list of critical sections. *)
Fixpoint ticks (evs : list Event) : Z :=
  match evs with
  | [] => 0
  | EvAdjust :: evs' => 1 + ticks evs'
  | _ :: evs' => ticks evs'
  end.

(** The states in which the controller runs and sees only [idle] records. *)
Record IdleState (b : Batcher) : Prop := {
  idle_inv : Inv b;
  idle_adjusting : adjusting b = true;
  idle_nonempty : recentFeedback b <> [];
  idle_ring : Forall (eq idle) (recentFeedback b);
  idle_fits : forall s, MinBatchSize (cfg b) <= s <= MaxBatchSize (cfg b) ->
                        step_fits s (AdjustmentFactor (cfg b)) = true
}.

(** Successive [Add] calls, keeping the state. *)
Definition addAll (b : Batcher) (xs : list Item) : Batcher :=
  fold_left (fun b x => state (Add b x)) xs b.

End Batcher.

Arguments reachable {Item platform} b.
Arguments EvFlush {Item}.
Arguments EvClose {Item}.
Arguments EvStop {Item}.
Arguments EvRecord {Item} fb.
Arguments EvAdjust {Item}.
Arguments AddRejected {Item}.
Arguments clamp lo hi x : simpl never.

(** ** Scenarios

    The configuration of the package's adaptive-sizing test (initial size 20,
    sizes from 5 to 50, factor 0.5, a tick every 100 ms), with a handler that
    returns the same feedback for every batch. *)

Definition constantHandler (fb : LoadFeedback) : Handler Z :=
  fun _ => (Some fb, None).

Definition testConfig (fb : LoadFeedback) : Config Z :=
  {| InitialBatchSize := 20; MinBatchSize := 5; MaxBatchSize := 50;
     Timeout := 0; HandlerFunc := Some (constantHandler fb);
     AdjustmentFactor := f0_5; LoadCheckInterval := 100000000 |}.

(** The items [from], [from + 1], ..., [count] of them. *)
Definition items (from count : nat) : list Z := map Z.of_nat (seq from count).

(** ** Observers of an interleaving

    What a sequence of critical sections did, read off the run: the batches
    it detached, the items it let in, the feedback it recorded. *)

Section Traces.

Variable Item : Type.
Context {platform : Platform}.

(** The batches detached for the handler, in the order of their critical
    sections. *)
Fixpoint detached (b : Batcher Item) (evs : list (Event Item)) : list (list Item) :=
  match evs with
  | [] => []
  | e :: evs' =>
    match snd (step b e) with
    | Some bt => bt :: detached (fst (step b e)) evs'
    | None => detached (fst (step b e)) evs'
    end
  end.

(** The items let in by [Add]: those offered while the batcher was open. *)
Fixpoint admitted (b : Batcher Item) (evs : list (Event Item)) : list Item :=
  match evs with
  | [] => []
  | e :: evs' =>
    match e with
    | EvAdd item => if closed b then [] else [item]
    | _ => []
    end ++ admitted (fst (step b e)) evs'
  end.

(** The feedback records stored by the [processBatch] calls of a run. *)
Fixpoint recorded (evs : list (Event Item)) : list LoadFeedback :=
  match evs with
  | [] => []
  | EvRecord fb :: evs' => fb :: recorded evs'
  | _ :: evs' => recorded evs'
  end.

Definition is_record (e : Event Item) : bool :=
  match e with
  | EvRecord _ => true
  | _ => false
  end.

Definition is_adjust (e : Event Item) : bool :=
  match e with
  | EvAdjust => true
  | _ => false
  end.

(** [Close] (lines 208-223) among other goroutines.  [Close] gives up the
    lock once [closed] is set (line 215) and only then closes [stopAdjust]
    and waits for the controller; it takes the lock again in the final
    [Flush] (line 222).  [inside] are the critical sections that other
    goroutines run in between, controller ticks among them; the controller
    has left its loop by the time the flush starts, at an [EvStop] of
    [inside] or right before the flush.  [Close] is the case of an empty
    [inside]. *)
Definition CloseWith (inside : list (Event Item)) (b : Batcher Item) : Outcome Item :=
  if closed b then {| state := b; handled := []; returned := None |}
  else Flush (stop_adjusting (run (set_closed b) inside)).

(** The last [n] elements of a list (the whole list when it is shorter). *)
Definition lastn {A} (n : nat) (l : list A) : list A := skipn (length l - n) l.

(** The batches handed to the handler by successive [Add] calls. *)
Fixpoint handledAll (b : Batcher Item) (xs : list Item) : list (list Item) :=
  match xs with
  | [] => []
  | x :: xs' => handled (Add b x) ++ handledAll (state (Add b x)) xs'
  end.

(** The timer field as a function of the buffer: armed with the configured
    timeout while items are pending and the timeout is positive. *)
Definition timer_of_buffer (b : Batcher Item) : option Z :=
  if (Timeout (cfg b) >? 0) && negb (len (batch b) =? 0)
  then Some (Timeout (cfg b)) else None.

(** Every metric of a feedback record is non-negative. *)
Definition nonneg_metrics (lf : LoadFeedback) : Prop :=
  (0 <=? CPULoad lf)%float = true /\ (0 <=? ErrorRate lf)%float = true /\
  0 <= QueueDepth lf /\ 0 <= DBLocks lf.

End Traces.

(** ** The backend simulator (simulator/backend.go)

    The simulator draws from the global random source and reads the clock.
    Both are inputs of the model: [Rand] is an infinite tape of draws with a
    cursor, the clock readings are arguments.  Floating-point operations are
    rounded one by one. *)

Module Simulator.

Import String.

Definition f0_01  : float := 0x1.47ae147ae147bp-7%float.   (* 0.01  *)
Definition f0_4   : float := 0x1.999999999999ap-2%float.   (* 0.4   *)
Definition f0_8   : float := 0x1.999999999999ap-1%float.   (* 0.8   *)
Definition f0_001 : float := 0x1.0624dd2f1a9fcp-10%float.  (* 0.001 *)
Definition f0_95  : float := 0x1.e666666666666p-1%float.   (* 0.95  *)
Definition f1_5   : float := 0x1.8p+0%float.               (* 1.5   *)
Definition f2     : float := 2%float.
Definition f10    : float := 10%float.
Definition f3_14159 : float := 0x1.921f9f01b866ep+1%float. (* 3.14159 *)
Definition f6_28318 : float := 0x1.921f9f01b866ep+2%float. (* 2*3.14159 *)

(** [time.Millisecond], in nanoseconds. *)
Definition Millisecond : Z := 1000000.

(** *** The random source *)

Record Rand := {
  float_at : nat -> float;
  int_at : nat -> Z -> Z;
  cursor : nat
}.

Definition advance (r : Rand) : Rand :=
  {| float_at := float_at r; int_at := int_at r; cursor := S (cursor r) |}.

(** [rand.Float64()] and [rand.Intn(n)]. *)
Definition Float64 (r : Rand) : float * Rand := (float_at r (cursor r), advance r).
Definition Intn (n : Z) (r : Rand) : Z * Rand := (int_at r (cursor r) n, advance r).

(** What the library promises of the draws: [Float64] is in [[0, 1)] and
    [Intn n] in [[0, n)]. *)
Definition fair (r : Rand) : Prop :=
  (forall i, (0 <=? float_at r i)%float = true /\ (float_at r i <? 1)%float = true) /\
  (forall i n, 0 < n -> 0 <= int_at r i n < n).

(** *** [LoadPattern] (lines 33-64) *)

Definition LoadPattern := Z.
Definition PatternConstant : LoadPattern := 0.
Definition PatternSineWave : LoadPattern := 1.
Definition PatternSpikes : LoadPattern := 2.
Definition PatternGradual : LoadPattern := 3.

Definition String (lp : LoadPattern) : string :=
  if lp =? PatternConstant then "constant"%string
  else if lp =? PatternSineWave then "sinewave"%string
  else if lp =? PatternSpikes then "spikes"%string
  else if lp =? PatternGradual then "gradual"%string
  else "unknown"%string.

(** *** [Backend] (lines 13-31, 66-76) *)

Record Backend := {
  cpuLoad : float;
  queueDepth : Z;
  dbLocks : Z;
  errorRate : float;
  maxQueueDepth : Z;
  loadPattern : LoadPattern;
  totalProcessed : Z;
  totalBatches : Z;
  totalErrors : Z
}.

Definition NewBackend (pattern : LoadPattern) : Backend :=
  {| cpuLoad := f0_3; queueDepth := 0; dbLocks := 0; errorRate := f0_01;
     maxQueueDepth := 200; loadPattern := pattern;
     totalProcessed := 0; totalBatches := 0; totalErrors := 0 |}.

Definition set_load (b : Backend) (cpu err : float) : Backend :=
  {| cpuLoad := cpu; queueDepth := queueDepth b; dbLocks := dbLocks b;
     errorRate := err; maxQueueDepth := maxQueueDepth b;
     loadPattern := loadPattern b; totalProcessed := totalProcessed b;
     totalBatches := totalBatches b; totalErrors := totalErrors b |}.

Definition set_dbLocks (b : Backend) (n : Z) : Backend :=
  {| cpuLoad := cpuLoad b; queueDepth := queueDepth b; dbLocks := n;
     errorRate := errorRate b; maxQueueDepth := maxQueueDepth b;
     loadPattern := loadPattern b; totalProcessed := totalProcessed b;
     totalBatches := totalBatches b; totalErrors := totalErrors b |}.

Definition set_queueDepth (b : Backend) (n : Z) : Backend :=
  {| cpuLoad := cpuLoad b; queueDepth := n; dbLocks := dbLocks b;
     errorRate := errorRate b; maxQueueDepth := maxQueueDepth b;
     loadPattern := loadPattern b; totalProcessed := totalProcessed b;
     totalBatches := totalBatches b; totalErrors := totalErrors b |}.

Definition set_totals (b : Backend) (processed batches errors : Z) : Backend :=
  {| cpuLoad := cpuLoad b; queueDepth := queueDepth b; dbLocks := dbLocks b;
     errorRate := errorRate b; maxQueueDepth := maxQueueDepth b;
     loadPattern := loadPattern b; totalProcessed := processed;
     totalBatches := batches; totalErrors := errors |}.

(** The part of a backend that [updateLoad] only reads. *)
Definition same_queue (b b' : Backend) : Prop :=
  queueDepth b' = queueDepth b /\ loadPattern b' = loadPattern b /\
  maxQueueDepth b' = maxQueueDepth b /\
  totalProcessed b' = totalProcessed b /\ totalBatches b' = totalBatches b /\
  totalErrors b' = totalErrors b.

(** [BackendStats] and [GetStats] (lines 212-237). *)
Record BackendStats := {
  CPULoad : float;
  QueueDepth : Z;
  DBLocks : Z;
  ErrorRate : float;
  TotalProcessed : Z;
  TotalBatches : Z;
  TotalErrors : Z
}.

Definition GetStats (b : Backend) : BackendStats :=
  {| CPULoad := cpuLoad b; QueueDepth := queueDepth b; DBLocks := dbLocks b;
     ErrorRate := errorRate b; TotalProcessed := totalProcessed b;
     TotalBatches := totalBatches b; TotalErrors := totalErrors b |}.

(** *** The [Math] helpers (lines 253-276) *)

Module Math.

Section Sin.

Context {platform : Platform}.

(** The ten-term Taylor series, after reducing the argument by whole
    periods.  The loop runs [i] from 1 to 9. *)
Definition Sin (x : float) : float :=
  let x := (x - float64_of_int (int_of_float64 (x / f6_28318)) * f2 * f3_14159)%float in
  let step (tr : float * float) (i : Z) : float * float :=
    let term := (fst tr * (- x * x / float64_of_int ((2 * i) * (2 * i + 1))))%float in
    (term, (snd tr + term)%float) in
  snd (fold_left step [1; 2; 3; 4; 5; 6; 7; 8; 9] (x, x)).

End Sin.

Definition Min (a b : float) : float :=
  if (a <? b)%float then a else b.

End Math.

Section Methods.

Variable Item : Type.
Context {platform : Platform}.

(** *** [updateLoad] (lines 142-184); [now] is [time.Now().Unix()] *)

Definition updateLoad (now : Z) (b : Backend) (r : Rand) : Backend * Rand :=
  let (b, r) :=
    if loadPattern b =? PatternConstant then
      (set_load b f0_5 f0_01, r)
    else if loadPattern b =? PatternSineWave then
      let t := float64_of_int now in
      let cpu := (f0_5 + f0_4 * Math.Sin (t / f10))%float in
      let err := (f0_01 + f0_05 * Math.Sin (t / f10))%float in
      (set_load b cpu (if (err <? 0)%float then 0%float else err), r)
    else if loadPattern b =? PatternSpikes then
      let (u, r) := Float64 r in
      if (u <? f0_1)%float then
        let (v, r) := Float64 r in
        let (k, r) := Intn 40 r in
        (set_dbLocks (set_load b (f0_9 + v * f0_1)%float f0_1) (wrap64 (30 + k)), r)
      else
        let (v, r) := Float64 r in
        let (k, r) := Intn 10 r in
        (set_dbLocks (set_load b (f0_2 + v * f0_3)%float f0_01) k, r)
    else if loadPattern b =? PatternGradual then
      let increase := (float64_of_int (totalBatches b) * f0_001)%float in
      (set_load b (Math.Min (f0_2 + increase)%float f0_95)
                  (Math.Min (f0_01 + increase * f0_05)%float f0_2), r)
    else (b, r) in
  if queueDepth b >? 100 then
    let (k, r) := Intn 30 r in (set_dbLocks b (wrap64 (20 + k)), r)
  else
    let (k, r) := Intn 10 r in (set_dbLocks b k, r).

(** *** [calculateProcessingTime] (lines 186-210) *)

Definition calculateProcessingTime (batchSize : Z) (b : Backend) (r : Rand) : Z * Rand :=
  let baseTime := 1 * Millisecond in
  let loadMultiplier := (1 + cpuLoad b * f2)%float in
  let queueMultiplier := 1%float in
  let queueMultiplier := if queueDepth b >? 50 then f1_5 else queueMultiplier in
  let queueMultiplier := if queueDepth b >? 100 then f2 else queueMultiplier in
  let totalTime :=
    (float64_of_int baseTime * float64_of_int batchSize * loadMultiplier
     * queueMultiplier)%float in
  let (u, r) := Float64 r in
  let jitter := (f0_8 + u * f0_4)%float in
  let totalTime := (totalTime * jitter)%float in
  (int_of_float64 totalTime, r).

(** *** [ProcessBatch] (lines 78-140)

    The method is two critical sections with a sleep in between; other calls
    may run between the two.  [elapsed] is [time.Since(startTime)]. *)

(** Before the sleep: the queue grows, the load is updated, the sleep time
    is computed. *)
Definition ProcessBatch_enter (now : Z) (batch : list Item) (b : Backend) (r : Rand)
  : Z * Backend * Rand :=
  let batchSize := len batch in
  let b := set_queueDepth b (wrap64 (queueDepth b + batchSize)) in
  let (b, r) := updateLoad now b r in
  let (processingTime, r) := calculateProcessingTime batchSize b r in
  (processingTime, b, r).

(** The loop over the items of the batch: one draw each. *)
Fixpoint countErrors (n : nat) (errors : Z) (b : Backend) (r : Rand) : Z * Backend * Rand :=
  match n with
  | O => (errors, b, r)
  | S n' =>
    let (u, r) := Float64 r in
    if (u <? errorRate b)%float then
      countErrors n' (wrap64 (errors + 1))
        (set_totals b (totalProcessed b) (totalBatches b) (wrap64 (totalErrors b + 1))) r
    else
      countErrors n' errors
        (set_totals b (wrap64 (totalProcessed b + 1)) (totalBatches b) (totalErrors b)) r
  end.

(** After the sleep: the queue shrinks, the counters and the feedback. *)
Definition ProcessBatch_leave (elapsed : Z) (batch : list Item) (b : Backend) (r : Rand)
  : (option LoadFeedback * option error) * Backend * Rand :=
  let batchSize := len batch in
  let q := wrap64 (queueDepth b - batchSize) in
  let b := set_queueDepth b (if q <? 0 then 0 else q) in
  let b := set_totals b (totalProcessed b) (wrap64 (totalBatches b + 1)) (totalErrors b) in
  let '(errors, b, r) := countErrors (List.length batch) 0 b r in
  let currentErrorRate :=
    if batchSize >? 0 then (float64_of_int errors / float64_of_int batchSize)%float
    else 0%float in
  let feedback :=
    Build_LoadFeedback (cpuLoad b) (queueDepth b) elapsed currentErrorRate (dbLocks b)
                       [("batch_size"%string, batchSize)] in
  ((Some feedback, None), b, r).

(** A call that no other call interleaves with. *)
Definition ProcessBatch (now elapsed : Z) (batch : list Item) (b : Backend) (r : Rand)
  : (option LoadFeedback * option error) * Backend * Rand :=
  let '(_, b, r) := ProcessBatch_enter now batch b r in
  ProcessBatch_leave elapsed batch b r.

End Methods.

End Simulator.

(** ** The command-line demo (cmd/demo/main.go) *)

Module Demo.

Import String.

(** [parseLoadPattern] (lines 179-192). *)
Definition parseLoadPattern (pattern : string) : Simulator.LoadPattern :=
  if (pattern =? "constant")%string then Simulator.PatternConstant
  else if (pattern =? "sinewave")%string then Simulator.PatternSineWave
  else if (pattern =? "spikes")%string then Simulator.PatternSpikes
  else if (pattern =? "gradual")%string then Simulator.PatternGradual
  else Simulator.PatternSpikes.

(** [repeat] (lines 217-223): the loop appends [s] while [i < n]. *)
Definition repeat (s : string) (n : Z) : string :=
  Nat.iter (Z.to_nat n) (fun result => (result ++ s)%string) ""%string.

End Demo.

(** ** The web demos (SimpleDemo and EnhancedDemo)

    Both demos set the load and answer a batch in the same way; the model
    keeps the fields the two methods touch. *)

Module WebDemo.

Definition f3  : float := 3%float.
Definition f30 : float := 30%float.

Record SimpleDemo := {
  currentLoad : float;
  batchSize : Z;
  itemsProcessed : Z;
  running : bool
}.

Definition NewSimpleDemo : SimpleDemo :=
  {| currentLoad := f0_3; batchSize := 0; itemsProcessed := 0; running := false |}.

(** [SetLoad]: the two comparisons, in order. *)
Definition SetLoad (sd : SimpleDemo) (load : float) : SimpleDemo :=
  let load := if (load <? 0)%float then 0%float else load in
  let load := if (1 <? load)%float then 1%float else load in
  {| currentLoad := load; batchSize := batchSize sd;
     itemsProcessed := itemsProcessed sd; running := running sd |}.

Section Handler.

Variable Item : Type.
Context {platform : Platform}.

(** [handleBatch]: the load is read once; the sleep is left out. *)
Definition handleBatch (sd : SimpleDemo) (batch : list Item)
  : SimpleDemo * (option LoadFeedback * option error) :=
  let load := currentLoad sd in
  let processingTime :=
    int_of_float64 (float64_of_int (len batch) * (1 + load * f3)
                    * float64_of_int Simulator.Millisecond)%float in
  let sd := {| currentLoad := currentLoad sd; batchSize := batchSize sd;
               itemsProcessed := wrap64 (itemsProcessed sd + len batch);
               running := running sd |} in
  let errorRate := (load * f0_2)%float in
  let queueDepth := int_of_float64 (load * f50)%float in
  let dbLocks := int_of_float64 (load * f30)%float in
  (sd, (Some {| CPULoad := load; QueueDepth := queueDepth;
                ProcessingTime := processingTime; ErrorRate := errorRate;
                DBLocks := dbLocks; Custom := [] |}, None)).

End Handler.

End WebDemo.

(** ** Further scenarios *)

(** The configuration of the package's timeout test: size 100, a timeout of
    50 ms, everything else left to the defaults. *)
Definition timeoutConfig : Config Z :=
  {| InitialBatchSize := 100; MinBatchSize := 0; MaxBatchSize := 0;
     Timeout := 50000000; HandlerFunc := Some (constantHandler (cpuOnly f0_3));
     AdjustmentFactor := 0; LoadCheckInterval := 0 |}.

(** A handler that reports an error together with its feedback. *)
Definition failingHandler : Handler Z :=
  fun _ => (Some busy, Some (HandlerError 7)).

Definition failingConfig : Config Z :=
  {| InitialBatchSize := 20; MinBatchSize := 5; MaxBatchSize := 50;
     Timeout := 0; HandlerFunc := Some failingHandler;
     AdjustmentFactor := f0_5; LoadCheckInterval := 100000000 |}.

(** A random source that always draws 0.5 and the largest number allowed. *)
Definition steadyRand : Simulator.Rand :=
  {| Simulator.float_at := fun _ => f0_5;
     Simulator.int_at := fun _ n => n - 1;
     Simulator.cursor := 0 |}.

(** ** Proof automation *)

Ltac split_ifs :=
  repeat match goal with
         | |- context [if ?c then _ else _] => destruct c eqn:?
         | |- context [match ?o with Some _ => _ | None => _ end] => destruct o eqn:?
         end.

Ltac bools :=
  repeat match goal with
         | H : (_ >=? _) = _ |- _ => rewrite Z.geb_leb in H
         | H : (_ >? _) = _ |- _ => rewrite Z.gtb_ltb in H
         | H : (_ <=? _) = true |- _ => apply Z.leb_le in H
         | H : (_ <=? _) = false |- _ => apply Z.leb_gt in H
         | H : (_ <? _) = true |- _ => apply Z.ltb_lt in H
         | H : (_ <? _) = false |- _ => apply Z.ltb_ge in H
         | H : (_ =? _) = true |- _ => apply Z.eqb_eq in H
         | H : (_ =? _) = false |- _ => apply Z.eqb_neq in H
         end.

(** ** Facts about binary64 arithmetic

    Derived from the specification of the primitive operations
    ([FloatAxioms]): the shape of valid numbers, comparisons with 1, signs of
    rounded results. *)

Unset Implicit Arguments.

(** *** Valid numbers and the number 1 *)

Lemma digits2_pos_bounds : forall m : positive,
  2 ^ (Zpos (digits2_pos m) - 1) <= Zpos m < 2 ^ Zpos (digits2_pos m).
Proof.
  induction m as [m IH | m IH |]; cbn [digits2_pos].
  - rewrite Pos2Z.inj_succ, Z.pow_succ_r by lia.
    replace (Z.succ (Zpos (digits2_pos m)) - 1) with (Z.succ (Zpos (digits2_pos m) - 1)) by lia.
    rewrite Z.pow_succ_r by lia. lia.
  - rewrite Pos2Z.inj_succ, Z.pow_succ_r by lia.
    replace (Z.succ (Zpos (digits2_pos m)) - 1) with (Z.succ (Zpos (digits2_pos m) - 1)) by lia.
    rewrite Z.pow_succ_r by lia. lia.
  - cbn. lia.
Qed.

Lemma bounded_inv : forall m e,
  bounded prec emax m e = true ->
  Zpos m < 2 ^ 53 /\ -1074 <= e <= 971 /\ (-1074 < e -> 2 ^ 52 <= Zpos m).
Proof.
  intros m e H; unfold bounded, canonical_mantissa, fexp, SpecFloat.emin, prec, emax in H.
  apply andb_true_iff in H as [H1 H2].
  apply Z.eqb_eq in H1. apply Z.leb_le in H2.
  pose proof (digits2_pos_bounds m) as [Hlo Hhi].
  assert (Hd : Zpos (digits2_pos m) <= 53) by lia.
  split; [|split; [lia|]].
  - eapply Z.lt_le_trans; [exact Hhi|]. apply Z.pow_le_mono_r; lia.
  - intro He. assert (Zpos (digits2_pos m) = 53) as Hd53 by lia.
    rewrite Hd53 in Hlo. exact Hlo.
Qed.

Lemma Prim2SF_one : Prim2SF 1 = SFone.
Proof. reflexivity. Qed.

Lemma shiftl_pos_ge_1 : forall m e, 2 ^ 52 <= Zpos m -> -52 <= e -> 1 <= Z.shiftl (Zpos m) e.
Proof.
  intros m e Hm He.
  destruct (Z.le_gt_cases 0 e) as [H0 | H0].
  - rewrite Z.shiftl_mul_pow2 by lia.
    assert (0 < 2 ^ e) by (apply Z.pow_pos_nonneg; lia). nia.
  - rewrite Z.shiftl_div_pow2 by lia.
    apply Z.div_le_lower_bound; [apply Z.pow_pos_nonneg; lia|].
    rewrite Z.mul_1_r. eapply Z.le_trans; [|exact Hm].
    apply Z.pow_le_mono_r; lia.
Qed.

Lemma shiftl_pos_le_1 : forall m e, Zpos m <= 2 ^ 52 -> e <= -52 -> Z.shiftl (Zpos m) e <= 1.
Proof.
  intros m e Hm He.
  rewrite Z.shiftl_div_pow2 by lia.
  assert (H52 : 2 ^ 52 <= 2 ^ (- e)) by (apply Z.pow_le_mono_r; lia).
  assert (Hp : 0 < 2 ^ (- e)) by lia.
  apply Z.lt_succ_r. apply Z.div_lt_upper_bound; lia.
Qed.

Lemma shiftl_neg_nonpos : forall m e, Z.shiftl (Zneg m) e <= 0.
Proof.
  intros m e.
  destruct (Z.le_gt_cases 0 e) as [H0 | H0].
  - rewrite Z.shiftl_mul_pow2 by lia.
    assert (0 < 2 ^ e) by (apply Z.pow_pos_nonneg; lia). nia.
  - rewrite Z.shiftl_div_pow2 by lia.
    assert (Hp : 0 < 2 ^ (- e)) by (apply Z.pow_pos_nonneg; lia).
    assert (Zneg m / 2 ^ (- e) < 0); [|lia].
    apply Z.div_lt_upper_bound; lia.
Qed.

Lemma compare_cont_spec : forall p q,
  CompareSpec (p = q) (Zpos p < Zpos q) (Zpos q < Zpos p) (Pos.compare_cont Eq p q).
Proof.
  intros p q; change (Pos.compare_cont Eq p q) with (p ?= q)%positive.
  destruct (Pos.compare_spec p q); constructor; lia.
Qed.

Lemma shiftl_pos_small : forall m e, Zpos m < 2 ^ 53 -> e <= -53 -> Z.shiftl (Zpos m) e = 0.
Proof.
  intros m e Hm He.
  rewrite Z.shiftl_div_pow2 by lia.
  apply Z.div_small; split; [lia|].
  eapply Z.lt_le_trans; [exact Hm|]. apply Z.pow_le_mono_r; lia.
Qed.

(** A finite number above 1 has an integer part of at least 1. *)
Lemma SFltb_one_finite : forall s m e,
  bounded prec emax m e = true ->
  SFltb SFone (S754_finite s m e) = true ->
  s = false /\ 1 <= Z.shiftl (Zpos m) e.
Proof.
  intros s m e Hb H.
  apply bounded_inv in Hb as (Hlt & He & Hnorm).
  unfold SFltb, SFone, SFcompare in H.
  destruct s; [discriminate|]; split; [reflexivity|].
  destruct (Z.compare_spec (-52) e) as [Heq | Hlt' | Hgt]; try discriminate.
  - subst e. apply shiftl_pos_ge_1; [apply Hnorm|]; lia.
  - apply shiftl_pos_ge_1; [apply Hnorm|]; lia.
Qed.

(** A finite number that is not above 1 has a floor of at most 1. *)
Lemma SFltb_one_finite_not : forall s m e,
  bounded prec emax m e = true ->
  SFltb SFone (S754_finite s m e) = false ->
  forall n, SFfloor (S754_finite s m e) = Some n -> n <= 1.
Proof.
  intros s m e Hb H n Hn.
  apply bounded_inv in Hb as (Hlt & He & Hnorm).
  unfold SFltb, SFone, SFcompare in H.
  destruct s; cbn in Hn; injection Hn as <-.
  - pose proof (shiftl_neg_nonpos m e); lia.
  - destruct (Z.compare_spec (-52) e) as [Heq | Hlt' | Hgt]; try discriminate.
    + subst e. apply shiftl_pos_le_1; [|lia].
      change (2 ^ 52) with 4503599627370496.
      destruct (compare_cont_spec 4503599627370496 m) as [Ec | Ec | Ec];
        try discriminate; lia.
    + rewrite shiftl_pos_small by lia. lia.
Qed.

Lemma math_Max_one : forall x,
  match Prim2SF x with
  | S754_infinity false => math_Max x 1 = infinity
  | S754_nan => math_Max x 1 = nan
  | _ => math_Max x 1 = if (1 <? x)%float then x else 1%float
  end.
Proof.
  intro x; unfold math_Max; rewrite Prim2SF_one; unfold SFone.
  destruct (Prim2SF x) as [[]|[]| |[] m e]; reflexivity.
Qed.

Lemma in_int64_iff : forall z, in_int64 z = true <-> min_int64 <= z <= max_int64.
Proof.
  intro z; unfold in_int64; rewrite andb_true_iff, !Z.leb_le; tauto.
Qed.

Lemma wrap64_id : forall z, min_int64 <= z <= max_int64 -> wrap64 z = z.
Proof.
  intros z H; unfold wrap64, min_int64, max_int64 in *.
  rewrite Z.mod_small; lia.
Qed.

Section Step.
Context {platform : Platform}.

(** [int(math.Max(x, 1))] is [max(1, floor x)] for every finite [x] whose
    floor fits an [int]. *)
Lemma int_of_Max_one : forall x n,
  float_floor x = Some n -> n <= max_int64 ->
  int_of_float64 (math_Max x 1) = Z.max 1 n.
Proof.
  intros x n Hfl Hn.
  unfold float_floor in Hfl.
  pose proof (math_Max_one x) as HM.
  pose proof (Prim2SF_valid x) as Hv.
  pose proof (FloatAxioms.ltb_spec 1 x) as Hlt; rewrite Prim2SF_one in Hlt.
  unfold int_of_float64, float_trunc.
  destruct (Prim2SF x) as [s0| |  |s m e] eqn:Ex; try discriminate.
  - (* zero *)
    cbn in Hfl; injection Hfl as <-.
    cbn in Hlt; rewrite Hlt in HM; rewrite HM, Prim2SF_one; reflexivity.
  - destruct (1 <? x)%float eqn:E1; rewrite HM.
    + rewrite Ex. symmetry in Hlt.
      apply SFltb_one_finite in Hlt as [-> Hge]; [|exact Hv].
      cbn in Hfl |- *; injection Hfl as <-.
      replace (in_int64 (Z.shiftl (Z.pos m) e)) with true; [lia|].
      symmetry; apply in_int64_iff; unfold min_int64; lia.
    + rewrite Prim2SF_one. symmetry in Hlt.
      assert (n <= 1) by (eapply SFltb_one_finite_not; [exact Hv | exact Hlt | exact Hfl]). cbn. lia.
Qed.

End Step.

(** *** Signs of rounded results *)

Lemma iter_pos_invariant : forall (A : Type) (P : A -> Prop) (f : A -> A),
  (forall a, P a -> P (f a)) -> forall n a, P a -> P (iter_pos f n a).
Proof.
  intros A P f Hf; induction n as [n IH | n IH |]; intros a Ha; cbn; auto.
Qed.

Lemma shr_1_nonneg : forall mrs, 0 <= shr_m mrs -> 0 <= shr_m (shr_1 mrs).
Proof.
  intros [m r s] H; cbn in *.
  destruct m as [|[p|p|]|p]; cbn; lia.
Qed.

Lemma shr_fexp_nonneg : forall m e l,
  0 <= m -> 0 <= shr_m (fst (shr_fexp prec emax m e l)).
Proof.
  intros m e l Hm; unfold shr_fexp, shr.
  assert (H0 : 0 <= shr_m (shr_record_of_loc m l))
    by (destruct l as [|[]]; exact Hm).
  destruct (fexp prec emax (Zdigits2 m + e) - e); cbn [fst]; try exact H0.
  apply iter_pos_invariant with (P := fun mrs => 0 <= shr_m mrs);
    [apply shr_1_nonneg | exact H0].
Qed.

Lemma round_nearest_even_nonneg : forall m l, 0 <= m -> 0 <= round_nearest_even m l.
Proof.
  intros m l Hm; unfold round_nearest_even.
  destruct l as [|[]]; try destruct (Z.even m); lia.
Qed.

(** Rounding keeps the sign it is given and yields no NaN from a
    non-negative mantissa. *)
Lemma binary_round_aux_pos : forall m e l,
  0 <= m -> SFpos (binary_round_aux prec emax false m e l).
Proof.
  intros m e l Hm; unfold binary_round_aux.
  pose proof (shr_fexp_nonneg m e l Hm) as H1.
  destruct (shr_fexp prec emax m e l) as [mrs' e'] eqn:E1; cbn [fst] in H1.
  pose proof (shr_fexp_nonneg (round_nearest_even (shr_m mrs') (loc_of_shr_record mrs'))
                e' loc_Exact (round_nearest_even_nonneg _ _ H1)) as H2.
  destruct (shr_fexp prec emax (round_nearest_even _ _) e' loc_Exact) as [mrs'' e''];
    cbn [fst] in H2.
  destruct (shr_m mrs'') as [|p|p]; [reflexivity | | lia].
  destruct (e'' <=? emax - prec); reflexivity.
Qed.

Lemma binary_round_pos : forall m e, SFpos (binary_round prec emax false m e).
Proof.
  intros m e; unfold binary_round.
  destruct (shl_align _ _ _) as [mz ez]; apply binary_round_aux_pos; lia.
Qed.

Lemma binary_normalize_pos : forall z e,
  0 <= z -> SFpos (binary_normalize prec emax z e false).
Proof.
  intros [|p|p] e Hz; cbn; [reflexivity | apply binary_round_pos | lia].
Qed.

Lemma SFmul_pos_const : forall x m e,
  SFnonneg x -> SFnonneg (SF64mul x (S754_finite false m e)).
Proof.
  intros x m e [Hx | ->]; [|right; reflexivity]; left.
  destruct x as [s|s| |s mx ex]; cbn in Hx |- *; try subst s; try reflexivity;
    try contradiction.
  apply binary_round_aux_pos; lia.
Qed.

Lemma SFmul_pos_const_pos : forall x m e,
  SFpos x -> SFpos (SF64mul x (S754_finite false m e)).
Proof.
  intros x m e Hx.
  destruct x as [s|s| |s mx ex]; cbn in Hx |- *; try subst s; try reflexivity;
    try contradiction.
  apply binary_round_aux_pos; lia.
Qed.

Lemma SFdiv_core_nonneg : forall m1 e1 m2 e2,
  0 <= fst (fst (SFdiv_core_binary prec emax (Zpos m1) e1 (Zpos m2) e2)).
Proof.
  intros m1 e1 m2 e2; unfold SFdiv_core_binary.
  set (s := e1 - e2 - _).
  set (m' := match s with Z.pos _ => Z.shiftl (Z.pos m1) s | 0 => Z.pos m1 | Z.neg _ => 0 end).
  assert (Hm' : 0 <= m').
  { subst m'; destruct s; try lia. apply Z.shiftl_nonneg; lia. }
  pose proof (Z_div_mod m' (Zpos m2) ltac:(lia)) as Hdm.
  destruct (Z.div_eucl m' (Zpos m2)) as [q r]; cbn [fst].
  destruct Hdm as [Heq Hr]. nia.
Qed.

Lemma SFdiv_pos_const : forall x m e,
  SFpos x -> SFpos (SF64div x (S754_finite false m e)).
Proof.
  intros x m e Hx.
  destruct x as [s|s| |s mx ex]; cbn in Hx |- *; try subst s; try reflexivity;
    try contradiction.
  pose proof (SFdiv_core_nonneg mx ex m e) as Hq.
  destruct (SFdiv_core_binary prec emax (Z.pos mx) ex (Z.pos m) e) as [[q e'] l].
  apply binary_round_aux_pos; exact Hq.
Qed.

Lemma SFadd_pos : forall x y, SFpos x -> SFnonneg y -> SFpos (SF64add x y).
Proof.
  intros x y Hx [Hy | ->].
  - destruct x as [sx|sx| |sx mx ex], y as [sy|sy| |sy my ey]; cbn in Hx, Hy |- *;
      try subst sx; try subst sy; try reflexivity; try contradiction.
    match goal with |- SFpos (binary_normalize _ _ ?z _ _) =>
      apply binary_normalize_pos end.
    cbn. lia.
  - destruct x as [sx|sx| |sx mx ex]; cbn in Hx |- *; try subst sx;
      try reflexivity; try contradiction.
Qed.

(** *** Signs of the primitive operations *)

Lemma leb_zero_nonneg : forall x, (0 <=? x)%float = true -> fnonneg x.
Proof.
  intros x H; rewrite FloatAxioms.leb_spec in H; unfold fnonneg.
  change (Prim2SF 0) with (S754_zero false) in H.
  destruct (Prim2SF x) as [[]|[]| |[] m e]; try discriminate H;
    try (left; reflexivity); right; reflexivity.
Qed.

Lemma fpos_leb_zero : forall x, fpos x -> (0 <=? x)%float = true.
Proof.
  intros x H; rewrite FloatAxioms.leb_spec; unfold fpos in H.
  change (Prim2SF 0) with (S754_zero false).
  destruct (Prim2SF x) as [s|s| |s m e]; cbn in H; try subst s; try contradiction;
    reflexivity.
Qed.

Lemma float64_of_int_pos : forall n, 0 <= n -> fpos (float64_of_int n).
Proof.
  intros n Hn; unfold fpos, float64_of_int.
  destruct (n <? 0) eqn:E; [apply Z.ltb_lt in E; lia|].
  rewrite FloatAxioms.of_uint63_spec. apply binary_normalize_pos.
  pose proof (Uint63.to_Z_bounded (Uint63.of_Z n)); lia.
Qed.

Lemma fmul_const_nonneg : forall x c m e,
  Prim2SF c = S754_finite false m e -> fnonneg x -> fnonneg (x * c).
Proof.
  intros x c m e Hc Hx; unfold fnonneg; rewrite FloatAxioms.mul_spec, Hc.
  apply SFmul_pos_const, Hx.
Qed.

Lemma fmul_const_pos : forall x c m e,
  Prim2SF c = S754_finite false m e -> fpos x -> fpos (x * c).
Proof.
  intros x c m e Hc Hx; unfold fpos; rewrite FloatAxioms.mul_spec, Hc.
  apply SFmul_pos_const_pos, Hx.
Qed.

Lemma fdiv_const_pos : forall x c m e,
  Prim2SF c = S754_finite false m e -> fpos x -> fpos (x / c).
Proof.
  intros x c m e Hc Hx; unfold fpos; rewrite FloatAxioms.div_spec, Hc.
  apply SFdiv_pos_const, Hx.
Qed.

Lemma fadd_pos : forall x y, fpos x -> fnonneg y -> fpos (x + y).
Proof.
  intros x y Hx Hy; unfold fpos; rewrite FloatAxioms.add_spec; apply SFadd_pos; assumption.
Qed.

Lemma math_Min_one : forall x,
  match Prim2SF x with
  | S754_infinity true => math_Min x 1 = neg_infinity
  | S754_nan => math_Min x 1 = nan
  | _ => math_Min x 1 = if (x <? 1)%float then x else 1%float
  end.
Proof.
  intro x; unfold math_Min; rewrite Prim2SF_one; unfold SFone.
  destruct (Prim2SF x) as [[]|[]| |[] m e]; reflexivity.
Qed.

Lemma math_Min_one_pos : forall x, fpos x -> fpos (math_Min x 1).
Proof.
  intros x Hx; pose proof (math_Min_one x) as H; unfold fpos in *.
  destruct (Prim2SF x) as [s|s| |s m e] eqn:E; cbn in Hx; try subst s;
    try contradiction; rewrite H; destruct (x <? 1)%float;
    rewrite ?E, ?Prim2SF_one; reflexivity.
Qed.

Lemma SFltb_leb : forall x y, SFltb x y = true -> SFleb x y = true.
Proof.
  intros x y; unfold SFltb, SFleb.
  destruct (SFcompare x y) as [[]|]; intro; try discriminate; reflexivity.
Qed.

(** [math.Min(x, 1)] is at most 1 unless it is NaN. *)
Lemma math_Min_one_le : forall x,
  Prim2SF (math_Min x 1) = S754_nan \/ (math_Min x 1 <=? 1)%float = true.
Proof.
  intro x; pose proof (math_Min_one x) as H.
  destruct (Prim2SF x) as [s|[]| |s m e] eqn:E; rewrite H;
    try (left; reflexivity); try (right; reflexivity);
    right; destruct (x <? 1)%float eqn:El; try reflexivity;
    rewrite FloatAxioms.leb_spec; rewrite FloatAxioms.ltb_spec in El;
    apply SFltb_leb, El.
Qed.

(** *** Bounds of the load score *)

Lemma LoadScore_sum_pos : forall lf,
  fnonneg (CPULoad lf) -> fnonneg (ErrorRate lf) ->
  0 <= QueueDepth lf -> 0 <= DBLocks lf ->
  fpos (LoadScore lf).
Proof.
  intros lf Hc He Hq Hl; unfold LoadScore.
  apply math_Min_one_pos.
  repeat apply fadd_pos.
  - reflexivity.
  - eapply fmul_const_nonneg; [reflexivity | exact Hc].
  - left; eapply fmul_const_pos; [reflexivity|].
    apply math_Min_one_pos. eapply fdiv_const_pos; [reflexivity|].
    apply float64_of_int_pos, Hq.
  - eapply fmul_const_nonneg; [reflexivity | exact He].
  - left; eapply fmul_const_pos; [reflexivity|].
    apply math_Min_one_pos. eapply fdiv_const_pos; [reflexivity|].
    apply float64_of_int_pos, Hl.
Qed.

(** C5, as the code has it.  The score never exceeds 1 (it is NaN only when
    an input makes it so), and it is at least 0 when the CPU load, the error
    rate, the queue depth and the lock count are all non-negative.  Negative
    inputs are not clamped. *)
Theorem LoadScore_bounds : forall lf,
  (Prim2SF (LoadScore lf) = S754_nan \/ (LoadScore lf <=? 1)%float = true) /\
  ((0 <=? CPULoad lf)%float = true -> (0 <=? ErrorRate lf)%float = true ->
   0 <= QueueDepth lf -> 0 <= DBLocks lf ->
   (0 <=? LoadScore lf)%float = true /\ (LoadScore lf <=? 1)%float = true).
Proof.
  intro lf; split; [apply math_Min_one_le|].
  intros Hc He Hq Hl.
  assert (Hpos : fpos (LoadScore lf))
    by (apply LoadScore_sum_pos; auto using leb_zero_nonneg).
  split; [apply fpos_leb_zero, Hpos|].
  destruct (math_Min_one_le
              (0 + CPULoad lf * f0_6
               + math_Min (float64_of_int (QueueDepth lf) / f100) 1 * f0_15
               + ErrorRate lf * f0_15
               + math_Min (float64_of_int (DBLocks lf) / f50) 1 * f0_1)%float)
    as [Hnan | Hle]; [|exact Hle].
  unfold fpos in Hpos; unfold LoadScore in Hpos; rewrite Hnan in Hpos; contradiction.
Qed.

(** *** Comparisons and commutativity *)

Lemma SFcompare_swap : forall x y,
  SFcompare y x = match SFcompare x y with
                  | Some c => Some (CompOpp c)
                  | None => None
                  end.
Proof.
  intros [sx|sx| |sx mx ex] [sy|sy| |sy my ey]; cbn;
    try destruct sx; try destruct sy; try reflexivity;
    rewrite (Z.compare_antisym ex ey);
    destruct (ex ?= ey); cbn; try reflexivity;
    rewrite (ZC4 mx my); destruct (Pos.compare_cont Eq my mx); reflexivity.
Qed.

Lemma SFcompare_Eq_finite : forall x s m e,
  SFcompare x (S754_finite s m e) = Some Eq -> x = S754_finite s m e.
Proof.
  intros [sx|sx| |sx mx ex] s m e; cbn; try destruct sx; try destruct s;
    try discriminate;
    destruct (Z.compare_spec ex e); try discriminate; subst;
    destruct (compare_cont_spec mx m); try discriminate; subst; reflexivity.
Qed.

(** [x <= y] excludes [y < x]. *)
Lemma leb_not_ltb : forall x y, (x <=? y)%float = true -> (y <? x)%float = false.
Proof.
  intros x y; rewrite FloatAxioms.leb_spec, FloatAxioms.ltb_spec.
  unfold SFleb, SFltb; rewrite (SFcompare_swap (Prim2SF x) (Prim2SF y)).
  destruct (SFcompare (Prim2SF x) (Prim2SF y)) as [[]|]; cbn; congruence.
Qed.

Lemma fmul_comm : forall x y, (x * y)%float = (y * x)%float.
Proof.
  intros x y; apply Prim2SF_inj; rewrite !FloatAxioms.mul_spec.
  destruct (Prim2SF x) as [sx|sx| |sx mx ex], (Prim2SF y) as [sy|sy| |sy my ey];
    cbn; rewrite ?(xorb_comm sx sy); try reflexivity.
  rewrite Pos.mul_comm, Z.add_comm; reflexivity.
Qed.

Lemma math_Min_one_comm : forall x, math_Min 1 x = math_Min x 1.
Proof.
  intro x.
  pose proof (FloatAxioms.ltb_spec x 1) as H1.
  pose proof (FloatAxioms.ltb_spec 1 x) as H2.
  unfold math_Min; rewrite Prim2SF_one in *; unfold SFltb in *.
  rewrite (SFcompare_swap (Prim2SF x) SFone) in H2.
  pose proof (SFcompare_Eq_finite (Prim2SF x) false 4503599627370496 (-52)) as HEq.
  fold SFone in HEq.
  destruct (SFcompare (Prim2SF x) SFone) as [[]|] eqn:Ec; cbn in H2;
    rewrite H1, H2; unfold SFone;
    destruct (Prim2SF x) as [[]|[]| |[] m e] eqn:Ex; try reflexivity;
    try discriminate Ec;
    try (specialize (HEq eq_refl); try discriminate HEq;
         apply Prim2SF_inj; rewrite Ex, Prim2SF_one; exact HEq).
Qed.

(** *** Equality up to the sign of zero *)

Lemma same_number_refl : forall x, same_number x x.
Proof. left; reflexivity. Qed.

Lemma fadd_zero_l : forall a, same_number (0 + a) a.
Proof.
  intro a; unfold same_number, fzero.
  pose proof (FloatAxioms.add_spec 0 a) as H.
  change (Prim2SF 0) with (S754_zero false) in H.
  destruct (Prim2SF a) as [[]|sa| |sa m e] eqn:Ea; cbn in H;
    try (left; apply Prim2SF_inj; congruence).
  right; split; eexists; [exact H | reflexivity].
Qed.

Lemma fadd_same_l : forall x y c, same_number x y -> same_number (x + c) (y + c).
Proof.
  intros x y c [-> | [[sx Hx] [sy Hy]]]; [left; reflexivity|].
  pose proof (FloatAxioms.add_spec x c) as H1.
  pose proof (FloatAxioms.add_spec y c) as H2.
  rewrite Hx in H1; rewrite Hy in H2.
  unfold same_number, fzero.
  destruct (Prim2SF c) as [sc|sc| |sc m e] eqn:Ec; cbn in H1, H2;
    try (left; apply Prim2SF_inj; congruence).
  destruct sx, sy, sc; right; split; eexists; eassumption.
Qed.

Lemma math_Min_one_zero : forall x, fzero x -> math_Min x 1 = x.
Proof.
  intros x [s Hx]; pose proof (math_Min_one x) as H; rewrite Hx in H; rewrite H.
  rewrite FloatAxioms.ltb_spec, Hx, Prim2SF_one; reflexivity.
Qed.

Lemma math_Min_one_same : forall x y,
  same_number x y -> same_number (math_Min x 1) (math_Min y 1).
Proof.
  intros x y [-> | [Hx Hy]]; [left; reflexivity|].
  rewrite (math_Min_one_zero x Hx), (math_Min_one_zero y Hy); right; split; assumption.
Qed.

(** Adding to [0 + a] or to [a] gives the same bits unless the summand is -0. *)
Lemma fadd_zero_l_exact : forall a b,
  Prim2SF b <> S754_zero true -> (0 + a + b)%float = (a + b)%float.
Proof.
  intros a b Hb.
  destruct (fadd_zero_l a) as [-> | [[s0 H0] [sa Ha]]]; [reflexivity|].
  apply Prim2SF_inj; rewrite !FloatAxioms.add_spec.
  rewrite <- FloatAxioms.add_spec, H0, Ha.
  pose proof (FloatAxioms.add_spec 0 a) as H; rewrite H0, Ha in H.
  change (Prim2SF 0) with (S754_zero false) in H.
  destruct sa; cbn in H; injection H as ->;
    destruct (Prim2SF b) as [[]|sb| |sb m e]; try reflexivity; congruence.
Qed.

Lemma fpos_not_neg_zero : forall x, fpos x -> Prim2SF x <> S754_zero true.
Proof. intros x H E; unfold fpos in H; rewrite E in H; discriminate H. Qed.

(** *** The load score and its formula *)

Lemma LoadScore_spec_unfold : forall lf,
  LoadScore_spec lf =
  math_Min (CPULoad lf * f0_6
            + math_Min (float64_of_int (QueueDepth lf) / f100) 1 * f0_15
            + ErrorRate lf * f0_15
            + math_Min (float64_of_int (DBLocks lf) / f50) 1 * f0_1)%float 1.
Proof.
  intro lf; unfold LoadScore_spec.
  rewrite math_Min_one_comm.
  rewrite (fmul_comm f0_6), !(fmul_comm f0_15), (fmul_comm f0_1); reflexivity.
Qed.

(** C6.  [LoadScore] is the formula of the specification: the two agree as
    numbers for every record, bit for bit when the queue depth is not
    negative, and the three records of the score test fall in their ranges. *)
Theorem LoadScore_formula : forall lf,
  same_number (LoadScore lf) (LoadScore_spec lf) /\
  (0 <= QueueDepth lf -> LoadScore lf = LoadScore_spec lf) /\
  between 0 f0_3 (LoadScore lowLoad) = true /\
  between f0_3 f0_7 (LoadScore mediumLoad) = true /\
  between f0_7 1 (LoadScore highLoad) = true.
Proof.
  intro lf; rewrite LoadScore_spec_unfold; unfold LoadScore.
  split; [|split].
  - apply math_Min_one_same; repeat apply fadd_same_l; apply fadd_zero_l.
  - intro Hq. rewrite fadd_zero_l_exact; [reflexivity|].
    apply fpos_not_neg_zero.
    eapply fmul_const_pos; [reflexivity|].
    apply math_Min_one_pos. eapply fdiv_const_pos; [reflexivity|].
    apply float64_of_int_pos, Hq.
  - repeat split; vm_compute; reflexivity.
Qed.

(** *** Rounding: what the shifts leave of a mantissa *)

Lemma iter_pos_indexed : forall (A : Type) (P : Z -> A -> Prop) (f : A -> A),
  (forall k a, 0 <= k -> P k a -> P (k + 1) (f a)) ->
  forall n k a, 0 <= k -> P k a -> P (k + Zpos n) (iter_pos f n a).
Proof.
  intros A P f Hf; induction n as [n IH | n IH |]; intros k a Hk Ha; cbn [iter_pos].
  - replace (k + Zpos n~1) with (k + 1 + Zpos n + Zpos n) by lia.
    apply IH; [lia|]; apply IH; [lia|]; apply Hf; assumption.
  - replace (k + Zpos n~0) with (k + Zpos n + Zpos n) by lia.
    apply IH; [lia|]; apply IH; assumption.
  - apply Hf; assumption.
Qed.

Lemma shr_1_fields : forall m r s, 0 <= m ->
  shr_1 (Build_shr_record m r s) = Build_shr_record (Z.div2 m) (Z.odd m) (r || s).
Proof. intros [|[p|p|]|p] r s H; try reflexivity; lia. Qed.

Lemma shifted_step : forall M k mrs,
  0 <= M -> 0 <= k -> shifted M k mrs -> shifted M (k + 1) (shr_1 mrs).
Proof.
  intros M k [m r s] HM Hk [Hm Hex]; cbn [shr_m] in Hm.
  assert (Hpk : 0 < 2 ^ k) by (apply Z.pow_pos_nonneg; lia).
  assert (Hm0 : 0 <= m) by (subst m; apply Z.div_pos; lia).
  rewrite shr_1_fields by exact Hm0.
  assert (Hpow : 2 ^ (k + 1) = 2 ^ k * 2) by (rewrite Z.pow_add_r by lia; reflexivity).
  split; cbn [shr_m shr_r shr_s].
  - rewrite Z.div2_div, Hm, Hpow, Z.div_div by lia. reflexivity.
  - intro H0; rewrite Hpow in H0.
    apply Z.mod_divide in H0; [|lia]. destruct H0 as [q Hq].
    assert (Hk0 : M mod 2 ^ k = 0).
    { apply Z.mod_divide; [lia|]. exists (q * 2); lia. }
    destruct (Hex Hk0) as [Hr Hs]; cbn [shr_r shr_s] in Hr, Hs.
    split; [|subst r s; reflexivity].
    assert (Hmq : m = q * 2).
    { subst m. replace M with (q * 2 * 2 ^ k) by lia. apply Z.div_mul; lia. }
    rewrite Hmq, Z.mul_comm, Z.odd_mul; reflexivity.
Qed.

Lemma shr_exact_spec : forall M E n, 0 <= M ->
  let res := shr (Build_shr_record M false false) E n in
  snd res = E + Z.max 0 n /\ shifted M (Z.max 0 n) (fst res).
Proof.
  intros M E n HM; unfold shr.
  assert (H0 : shifted M 0 (Build_shr_record M false false)).
  { split; cbn; [rewrite Z.div_1_r; reflexivity | intros _; split; reflexivity]. }
  destruct n as [|p|p]; cbn [fst snd].
  - rewrite Z.max_l by lia; split; [lia | exact H0].
  - rewrite Z.max_r by lia; split; [reflexivity|].
    apply (iter_pos_indexed _ (shifted M) shr_1
             (fun k a Hk => shifted_step M k a HM Hk) p 0 _ (Z.le_refl 0) H0).
  - rewrite Z.max_l by lia; split; [lia | exact H0].
Qed.

Lemma round_nearest_even_spec : forall mrs,
  0 <= shr_m mrs ->
  let m := round_nearest_even (shr_m mrs) (loc_of_shr_record mrs) in
  shr_m mrs <= m <= shr_m mrs + 1 /\ (shr_exact mrs -> m = shr_m mrs).
Proof.
  intros [m r s] Hm; cbn [shr_m] in *; unfold shr_exact; cbn [shr_r shr_s].
  destruct r, s; cbn; try destruct (Z.even m); split; try lia;
    intros [? ?]; congruence.
Qed.

(** Rounding an exact mantissa [M] at exponent [E]: a first shift by [n1]
    bits, a rounding to [mr], a second shift by [n2] bits. *)
Lemma binary_round_aux_exact_spec : forall sx M E, 0 <= M ->
  exists n1 mr n2,
    n1 = Z.max 0 (fexp prec emax (Zdigits2 M + E) - E) /\
    M / 2 ^ n1 <= mr <= M / 2 ^ n1 + 1 /\
    (M mod 2 ^ n1 = 0 -> mr = M / 2 ^ n1) /\
    n2 = Z.max 0 (fexp prec emax (Zdigits2 mr + (E + n1)) - (E + n1)) /\
    binary_round_aux prec emax sx M E loc_Exact =
      match mr / 2 ^ n2 with
      | Z0 => S754_zero sx
      | Zpos p => if E + n1 + n2 <=? emax - prec
                  then S754_finite sx p (E + n1 + n2) else S754_infinity sx
      | Zneg _ => S754_nan
      end.
Proof.
  intros sx M E HM; unfold binary_round_aux, shr_fexp.
  cbn [shr_record_of_loc].
  destruct (shr_exact_spec M E (fexp prec emax (Zdigits2 M + E) - E) HM) as [He1 [Hm1 Hx1]].
  destruct (shr _ E _) as [mrs' e'] eqn:E1; cbn [fst snd] in He1, Hm1, Hx1.
  set (n1 := Z.max 0 (fexp prec emax (Zdigits2 M + E) - E)) in *.
  assert (Hpn1 : 0 < 2 ^ n1) by (apply Z.pow_pos_nonneg; lia).
  assert (Hm1' : 0 <= shr_m mrs') by (rewrite Hm1; apply Z.div_pos; lia).
  destruct (round_nearest_even_spec mrs' Hm1') as [Hr Hrx].
  set (mr := round_nearest_even (shr_m mrs') (loc_of_shr_record mrs')) in *.
  assert (Hmr : 0 <= mr) by lia.
  destruct (shr_exact_spec mr e' (fexp prec emax (Zdigits2 mr + e') - e') Hmr)
    as [He2 [Hm2 _]].
  destruct (shr _ e' _) as [mrs'' e''] eqn:E2; cbn [fst snd] in He2, Hm2.
  exists n1, mr, (Z.max 0 (fexp prec emax (Zdigits2 mr + (E + n1)) - (E + n1))).
  subst e'. rewrite Hm1 in Hr.
  split; [reflexivity|]; split; [exact Hr|]; split.
  - intro H0; rewrite Hrx, Hm1; auto.
  - split; [reflexivity|]. rewrite Hm2, He2. reflexivity.
Qed.

Lemma Zdigits2_le : forall M k, 0 <= M -> 0 <= k -> M < 2 ^ k -> Zdigits2 M <= k.
Proof.
  intros [|p|p] k HM Hk Hlt; cbn; try lia.
  pose proof (digits2_pos_bounds p) as [Hlo _].
  destruct (Z.le_gt_cases (Zpos (digits2_pos p)) k) as [H | H]; [exact H|].
  assert (2 ^ k <= 2 ^ (Zpos (digits2_pos p) - 1)) by (apply Z.pow_le_mono_r; lia).
  lia.
Qed.

(** The product of an integer below [2^53] with a factor of at most 1,
    rounded: finite, with an integer part that does not exceed the
    integer. *)
Lemma SFmul_unit_factor : forall s mz ez mf ef,
  0 <= s < 2 ^ 53 -> ez <= 0 -> Zpos mz = s * 2 ^ (- ez) ->
  Zpos mf <= 2 ^ (- ef) ->
  exists t, SFfloor (SF64mul (S754_finite false mz ez) (S754_finite false mf ef)) = Some t
            /\ SFtrunc (SF64mul (S754_finite false mz ez) (S754_finite false mf ef)) = Some t
            /\ 0 <= t <= s.
Proof.
  intros s mz ez mf ef Hs Hez Hmz Hmf.
  assert (Hef : ef <= 0).
  { destruct (Z.le_gt_cases ef 0) as [H | H]; [exact H|].
    rewrite Z.pow_neg_r in Hmf by lia; lia. }
  unfold SF64mul, SFmul; cbn [xorb].
  set (M := Zpos (mz * mf)); set (E := ez + ef).
  assert (HM : 0 < M) by (subst M; lia).
  destruct (binary_round_aux_exact_spec false M E (Z.lt_le_incl _ _ HM))
    as (n1 & mr & n2 & Hn1 & Hmr & Hexact & Hn2 & ->).
  assert (Hpe : 0 < 2 ^ (- ez)) by (apply Z.pow_pos_nonneg; lia).
  assert (Hpf : 0 < 2 ^ (- ef)) by (apply Z.pow_pos_nonneg; lia).
  (* the product is below 2^53 * 2^(-E) *)
  assert (HME : M <= s * 2 ^ (- E)).
  { subst M E. rewrite Pos2Z.inj_mul, Hmz.
    replace (- (ez + ef)) with (- ez + - ef) by lia.
    rewrite Z.pow_add_r by lia. nia. }
  assert (HpE : 0 < 2 ^ (- E)) by (apply Z.pow_pos_nonneg; lia).
  assert (Hdig : Zdigits2 M + E <= 53).
  { assert (Zdigits2 M <= 53 - E); [|lia].
    apply Zdigits2_le; [lia | lia |].
    replace (53 - E) with (53 + - E) by lia. rewrite Z.pow_add_r by lia. nia. }
  assert (Hn1b : 0 <= n1 <= - E).
  { subst n1; unfold fexp, SpecFloat.emin, prec, emax in *. lia. }
  set (e1 := E + n1) in *.
  assert (He1 : e1 <= 0) by (subst e1; lia).
  assert (Hpn1 : 0 < 2 ^ n1) by (apply Z.pow_pos_nonneg; lia).
  assert (Hpe1 : 0 < 2 ^ (- e1)) by (apply Z.pow_pos_nonneg; lia).
  assert (Hsplit : 2 ^ (- E) = 2 ^ (- e1) * 2 ^ n1).
  { rewrite <- Z.pow_add_r by lia. f_equal; subst e1; lia. }
  (* the rounded mantissa stays on the grid below [s] *)
  assert (Hmr_le : 0 <= mr <= s * 2 ^ (- e1)).
  { assert (Hdiv : M / 2 ^ n1 <= s * 2 ^ (- e1)).
    { apply Z.div_le_upper_bound; [lia|]. rewrite Hsplit in HME. lia. }
    assert (H0 : 0 <= M / 2 ^ n1) by (apply Z.div_pos; lia).
    split; [lia|].
    destruct (Z.eq_dec (M mod 2 ^ n1) 0) as [Hz | Hnz].
    - rewrite (Hexact Hz); exact Hdiv.
    - assert (M / 2 ^ n1 < s * 2 ^ (- e1)); [|lia].
      apply Z.div_lt_upper_bound; [lia|].
      rewrite Hsplit in HME.
      destruct (Z.eq_dec M (2 ^ n1 * (s * 2 ^ (- e1)))) as [Heq | Hne]; [|lia].
      exfalso; apply Hnz. rewrite Heq, Z.mul_comm. apply Z.mod_mul; lia. }
  assert (Hdig2 : Zdigits2 mr + e1 <= 53).
  { assert (Zdigits2 mr <= 53 - e1); [|lia].
    apply Zdigits2_le; [lia | lia |].
    replace (53 - e1) with (53 + - e1) by lia. rewrite Z.pow_add_r by lia. nia. }
  assert (Hn2b : 0 <= n2 <= - e1).
  { subst n2; fold e1; unfold fexp, SpecFloat.emin, prec, emax in *. lia. }
  set (e2 := e1 + n2) in *.
  assert (Hpn2 : 0 < 2 ^ n2) by (apply Z.pow_pos_nonneg; lia).
  assert (Hm2 : 0 <= mr / 2 ^ n2) by (apply Z.div_pos; lia).
  destruct (mr / 2 ^ n2) as [|p|p] eqn:Ep; [exists 0; cbn; repeat split; lia | | lia].
  replace (e2 <=? emax - prec) with true
    by (symmetry; apply Z.leb_le; unfold emax, prec; lia).
  cbn [SFfloor SFtrunc cond_Zopp]. eexists; split; [reflexivity|]; split; [reflexivity|].
  assert (He2 : e2 <= 0) by (subst e2; lia).
  destruct (Z.eq_dec e2 0) as [H0 | Hneg].
  - rewrite H0, Z.shiftl_0_r.
    assert (Hn2e : n2 = - e1) by (subst e2; lia).
    rewrite Hn2e in Ep. split; [lia|]. rewrite <- Ep.
    apply Z.div_le_upper_bound; lia.
  - rewrite Z.shiftl_div_pow2 by lia.
    assert (Hpe2 : 0 < 2 ^ (- e2)) by (apply Z.pow_pos_nonneg; lia).
    split; [apply Z.div_pos; lia|].
    apply Z.div_le_upper_bound; [lia|].
    assert (Hsplit2 : 2 ^ (- e1) = 2 ^ n2 * 2 ^ (- e2)).
    { rewrite <- Z.pow_add_r by lia. f_equal; subst e2; lia. }
    assert (Hp_le : Zpos p * 2 ^ n2 <= mr).
    { rewrite <- Ep. rewrite Z.mul_comm. apply Z.mul_div_le; lia. }
    rewrite Hsplit2 in Hmr_le. nia.
Qed.

(** *** Sizes times factors of at most 1 *)

Lemma iter_xO_pow : forall p d, Zpos (Pos.iter xO p d) = Zpos p * 2 ^ Zpos d.
Proof.
  intros p d; induction d as [|d IH] using Pos.peano_ind.
  - cbn; lia.
  - rewrite Pos.iter_succ, Pos2Z.inj_xO, IH, Pos2Z.inj_succ, Z.pow_succ_r by lia. lia.
Qed.

(** An integer below [2^53] converts exactly. *)
Lemma binary_normalize_exact : forall s,
  1 <= s < 2 ^ 53 ->
  exists mz ez, binary_normalize prec emax s 0 false = S754_finite false mz ez
                /\ ez <= 0 /\ Zpos mz = s * 2 ^ (- ez).
Proof.
  intros s Hs; destruct s as [|p|p]; try lia.
  cbn [binary_normalize]; unfold binary_round.
  assert (Halign : exists mz0 ez0,
            shl_align p 0 (fexp prec emax (Zpos (digits2_pos p) + 0)) = (mz0, ez0)
            /\ ez0 <= 0 /\ Zpos mz0 = Zpos p * 2 ^ (- ez0)).
  { unfold shl_align.
    destruct (fexp prec emax (Zpos (digits2_pos p) + 0) - 0) as [|d|d] eqn:Ed.
    - exists p, 0; cbn; repeat split; lia.
    - exists p, 0; cbn; repeat split; lia.
    - eexists _, _; split; [reflexivity|].
      replace (fexp prec emax (Zpos (digits2_pos p) + 0)) with (Zneg d) by lia.
      split; [lia|]. rewrite iter_xO_pow. reflexivity. }
  destruct Halign as (mz0 & ez0 & -> & Hez0 & Hmz0).
  set (M := Zpos mz0) in *.
  destruct (binary_round_aux_exact_spec false M ez0 ltac:(subst M; lia))
    as (n1 & mr & n2 & Hn1 & Hmr & Hexact & Hn2 & ->).
  assert (Hp0 : 0 < 2 ^ (- ez0)) by (apply Z.pow_pos_nonneg; lia).
  assert (Hdig : Zdigits2 M + ez0 <= 53).
  { assert (Zdigits2 M <= 53 - ez0); [|lia].
    apply Zdigits2_le; [subst M; lia | lia |].
    replace (53 - ez0) with (53 + - ez0) by lia. rewrite Z.pow_add_r by lia. nia. }
  assert (Hn1b : 0 <= n1 <= - ez0).
  { subst n1; unfold fexp, SpecFloat.emin, prec, emax in *. lia. }
  set (e1 := ez0 + n1) in *.
  assert (Hpn1 : 0 < 2 ^ n1) by (apply Z.pow_pos_nonneg; lia).
  assert (Hpe1 : 0 < 2 ^ (- e1)) by (apply Z.pow_pos_nonneg; subst e1; lia).
  assert (Hsplit : 2 ^ (- ez0) = 2 ^ (- e1) * 2 ^ n1).
  { rewrite <- Z.pow_add_r by (subst e1; lia). f_equal; subst e1; lia. }
  assert (HM1 : M = Zpos p * 2 ^ (- e1) * 2 ^ n1) by (rewrite Hmz0, Hsplit; lia).
  assert (Hmr_eq : mr = Zpos p * 2 ^ (- e1)).
  { rewrite Hexact; rewrite HM1; [apply Z.div_mul | apply Z.mod_mul]; lia. }
  assert (Hdig2 : Zdigits2 mr + e1 <= 53).
  { assert (Zdigits2 mr <= 53 - e1); [|lia].
    apply Zdigits2_le; [lia | subst e1; lia |].
    replace (53 - e1) with (53 + - e1) by lia.
    rewrite Z.pow_add_r by (subst e1; lia). nia. }
  assert (Hn2b : 0 <= n2 <= - e1).
  { subst n2; fold e1; unfold fexp, SpecFloat.emin, prec, emax in *. lia. }
  set (e2 := e1 + n2) in *.
  assert (Hpn2 : 0 < 2 ^ n2) by (apply Z.pow_pos_nonneg; lia).
  assert (Hpe2 : 0 < 2 ^ (- e2)) by (apply Z.pow_pos_nonneg; subst e2; lia).
  assert (Hsplit2 : 2 ^ (- e1) = 2 ^ (- e2) * 2 ^ n2).
  { rewrite <- Z.pow_add_r by (subst e2; lia). f_equal; subst e2; lia. }
  assert (Hm2 : mr / 2 ^ n2 = Zpos p * 2 ^ (- e2)).
  { rewrite Hmr_eq, Hsplit2, Z.mul_assoc. apply Z.div_mul; lia. }
  rewrite Hm2.
  destruct (Zpos p * 2 ^ (- e2)) as [|m2|m2] eqn:Em; try lia.
  replace (e2 <=? emax - prec) with true
    by (symmetry; apply Z.leb_le; unfold emax, prec; subst e2 e1; lia).
  exists m2, e2; repeat split; subst e2 e1; lia.
Qed.

Lemma float64_of_int_exact : forall s,
  1 <= s < 2 ^ 53 ->
  exists mz ez, Prim2SF (float64_of_int s) = S754_finite false mz ez
                /\ ez <= 0 /\ Zpos mz = s * 2 ^ (- ez).
Proof.
  intros s Hs; unfold float64_of_int.
  destruct (s <? 0) eqn:E; [apply Z.ltb_lt in E; lia|].
  rewrite FloatAxioms.of_uint63_spec, Uint63.of_Z_spec.
  rewrite Z.mod_small; [apply binary_normalize_exact, Hs|].
  change wB with (2 ^ 63). split; [lia|].
  apply Z.lt_trans with (2 ^ 53); [lia | reflexivity].
Qed.

(** A factor between 0 and 1: zero, or a positive number with
    [mf * 2^ef <= 1]. *)
Lemma unit_factor_inv : forall f,
  (0 <=? f)%float = true -> (f <=? 1)%float = true ->
  (exists s, Prim2SF f = S754_zero s) \/
  (exists mf ef, Prim2SF f = S754_finite false mf ef /\ Zpos mf <= 2 ^ (- ef)).
Proof.
  intros f H0 H1.
  rewrite FloatAxioms.leb_spec in H0, H1.
  change (Prim2SF 0) with (S754_zero false) in H0; rewrite Prim2SF_one in H1.
  pose proof (Prim2SF_valid f) as Hv.
  destruct (Prim2SF f) as [s|[]| |[] mf ef]; try discriminate;
    [left; eexists; reflexivity|].
  right; exists mf, ef; split; [reflexivity|].
  apply bounded_inv in Hv as (Hlt & He & _).
  unfold SFleb, SFone, SFcompare in H1.
  destruct (Z.compare_spec ef (-52)) as [Heq | Hlt' | Hgt]; try discriminate.
  - subst ef. change (2 ^ (- -52)) with 4503599627370496.
    destruct (compare_cont_spec mf 4503599627370496) as [Ec | Ec | Ec];
      try discriminate; lia.
  - apply Z.le_trans with (2 ^ 53); [lia|]. apply Z.pow_le_mono_r; lia.
Qed.

(** The float product of a size below [2^53] and a factor in [[0, 1]] is
    finite, and its integer part lies between 0 and the size. *)
Lemma unit_factor_product : forall s f,
  1 <= s < 2 ^ 53 -> (0 <=? f)%float = true -> (f <=? 1)%float = true ->
  exists t, float_floor (float64_of_int s * f) = Some t
            /\ float_trunc (float64_of_int s * f) = Some t /\ 0 <= t <= s.
Proof.
  intros s f Hs H0 H1; unfold float_floor, float_trunc.
  rewrite FloatAxioms.mul_spec.
  destruct (float64_of_int_exact s Hs) as (mz & ez & -> & Hez & Hmz).
  destruct (unit_factor_inv f H0 H1) as [[sf ->] | (mf & ef & -> & Hmf)].
  - exists 0; cbn; repeat split; lia.
  - apply SFmul_unit_factor; try assumption; lia.
Qed.

Lemma unit_factor_fits : forall s f,
  1 <= s < 2 ^ 53 -> (0 <=? f)%float = true -> (f <=? 1)%float = true ->
  step_fits s f = true.
Proof.
  intros s f Hs H0 H1; unfold step_fits.
  destruct (unit_factor_product s f Hs H0 H1) as (t & _ & Htr & Ht).
  set (x := (float64_of_int s * f)%float) in *.
  pose proof (math_Max_one x) as HM; unfold float_trunc in *.
  assert (Hbig : s + s <= max_int64).
  { unfold max_int64. assert (2 ^ 53 + 2 ^ 53 <= 2 ^ 63 - 1) by (vm_compute; discriminate). lia. }
  destruct (Prim2SF x) as [sx|sx| |sx m e] eqn:Ex; try discriminate;
    rewrite HM; destruct (1 <? x)%float;
    rewrite ?Ex, ?Prim2SF_one, ?Htr; cbn [SFtrunc SFone cond_Zopp];
    apply Z.leb_le; cbn; lia.
Qed.

Set Implicit Arguments.

(** ** Basic facts about the record updates *)

Section Facts.

Variable Item : Type.
Context {platform : Platform}.

Abbreviation Batcher := (Batcher Item).
Abbreviation Config := (Config Item).

Lemma len_nonneg : forall A (l : list A), 0 <= len l.
Proof. intros; unfold len; lia. Qed.

Lemma len_app : forall A (l1 l2 : list A), len (l1 ++ l2) = len l1 + len l2.
Proof. intros; unfold len; rewrite length_app; lia. Qed.

Lemma len_nil_iff : forall A (l : list A), len l = 0 <-> l = [].
Proof.
  intros A l; unfold len; split; intro H.
  - destruct l; [reflexivity | discriminate H].
  - subst; reflexivity.
Qed.

Lemma len_tl : forall A (l : list A), l <> [] -> len (tl l) = len l - 1.
Proof. intros A [|x l] H; [congruence | unfold len; cbn [tl length]; lia]. Qed.

Lemma clamp_min_max : forall lo hi x, clamp lo hi x = Z.min hi (Z.max lo x).
Proof.
  intros; unfold clamp.
  destruct (x <? lo) eqn:E1; [apply Z.ltb_lt in E1 | apply Z.ltb_ge in E1];
    match goal with |- context [?a >? ?b] => destruct (a >? b) eqn:E2 end;
    rewrite ?Z.gtb_ltb in E2;
    [apply Z.ltb_lt in E2 | apply Z.ltb_ge in E2
    |apply Z.ltb_lt in E2 | apply Z.ltb_ge in E2]; lia.
Qed.

Lemma clamp_bounds : forall lo hi x, lo <= hi -> lo <= clamp lo hi x <= hi.
Proof. intros; rewrite clamp_min_max; lia. Qed.

Lemma clamp_id : forall lo hi x, lo <= x <= hi -> clamp lo hi x = x.
Proof. intros; rewrite clamp_min_max; lia. Qed.

(** *** What [New] builds *)

Lemma New_Ok_inv : forall (c : Config) b,
  New c = Ok b ->
  exists h,
    HandlerFunc c = Some h /\ 0 < InitialBatchSize c /\
    minOrDefault c <= maxOrDefault c /\
    b = {| batch := [];
           cfg := {| InitialBatchSize := clamp (minOrDefault c) (maxOrDefault c) (InitialBatchSize c);
                     MinBatchSize := minOrDefault c;
                     MaxBatchSize := maxOrDefault c;
                     Timeout := Timeout c;
                     HandlerFunc := Some h;
                     AdjustmentFactor := factorOrDefault c;
                     LoadCheckInterval := intervalOrDefault c |};
           timer := None; closed := false;
           currentBatchSize := clamp (minOrDefault c) (maxOrDefault c) (InitialBatchSize c);
           recentFeedback := []; maxFeedbackLen := 10; adjusting := true |}.
Proof.
  intros c b; unfold New.
  fold (minOrDefault c) (maxOrDefault c) (factorOrDefault c) (intervalOrDefault c).
  destruct (InitialBatchSize c <=? 0) eqn:E0; [discriminate|].
  destruct (minOrDefault c >? maxOrDefault c) eqn:E1; [discriminate|].
  destruct (HandlerFunc c) as [h|]; [|discriminate].
  intro H; injection H as <-.
  apply Z.leb_gt in E0. rewrite Z.gtb_ltb in E1; apply Z.ltb_ge in E1.
  exists h; repeat split; try assumption.
Qed.

Lemma minOrDefault_pos : forall c : Config, 1 <= minOrDefault c.
Proof.
  intro c; unfold minOrDefault.
  destruct (MinBatchSize c <=? 0) eqn:E; [lia | apply Z.leb_gt in E; lia].
Qed.

(** *** Fields that no critical section writes *)

Local Ltac unfold_sections :=
  unfold step, Add_locked, Flush_locked, detachBatchLocked, stopTimerLocked,
    startTimerLocked, recordFeedback, adjustBatchSize; cbn.

Lemma step_cfg : forall (b : Batcher) e, cfg (fst (step b e)) = cfg b.
Proof. intros b []; unfold_sections; split_ifs; reflexivity. Qed.

Lemma step_maxFeedbackLen : forall (b : Batcher) e,
  maxFeedbackLen (fst (step b e)) = maxFeedbackLen b.
Proof. intros b []; unfold_sections; split_ifs; reflexivity. Qed.

Lemma adjustBatchSize_frame : forall b : Batcher,
  batch (adjustBatchSize b) = batch b /\ cfg (adjustBatchSize b) = cfg b /\
  timer (adjustBatchSize b) = timer b /\ closed (adjustBatchSize b) = closed b /\
  recentFeedback (adjustBatchSize b) = recentFeedback b /\
  maxFeedbackLen (adjustBatchSize b) = maxFeedbackLen b.
Proof.
  intro b; unfold adjustBatchSize.
  destruct (len (recentFeedback b) =? 0); repeat split; reflexivity.
Qed.

(** The controller always leaves the size inside the configured bounds. *)
Lemma adjustBatchSize_clamped : forall b : Batcher,
  MinBatchSize (cfg b) <= MaxBatchSize (cfg b) ->
  MinBatchSize (cfg b) <= currentBatchSize b <= MaxBatchSize (cfg b) ->
  MinBatchSize (cfg b) <= currentBatchSize (adjustBatchSize b) <= MaxBatchSize (cfg b).
Proof.
  intros b Hc Hb; unfold adjustBatchSize.
  destruct (len (recentFeedback b) =? 0); [exact Hb|].
  cbn [currentBatchSize set_currentBatchSize].
  match goal with
  | |- _ <= (if ?x >? ?hi then ?hi else ?x) <= _ =>
    match x with
    | (if ?y <? ?lo then ?lo else ?y) => change (lo <= clamp lo hi y <= hi)
    end
  end.
  apply clamp_bounds; exact Hc.
Qed.

Lemma reachable_run : forall (b : Batcher) evs, reachable b -> reachable (run b evs).
Proof.
  intros b evs; revert b; induction evs as [|e evs IH]; intros b Hb; cbn.
  - exact Hb.
  - apply IH, reach_step, Hb.
Qed.

Lemma run_app : forall (b : Batcher) evs1 evs2,
  run b (evs1 ++ evs2) = run (run b evs1) evs2.
Proof.
  intros b evs1; revert b; induction evs1 as [|e evs1 IH]; intros b evs2; cbn.
  - reflexivity.
  - apply IH.
Qed.

(** *** The invariant of the reachable states *)

Lemma Inv_New : forall (c : Config) b, New c = Ok b -> Inv b.
Proof.
  intros c b H; apply New_Ok_inv in H as (h & Hh & Hi & Hmm & ->).
  pose proof (minOrDefault_pos c) as Hmin.
  pose proof (clamp_bounds (InitialBatchSize c) Hmm) as Hcl.
  constructor; cbn; try lia; try reflexivity; discriminate.
Qed.

Lemma Inv_step : forall (b : Batcher) e, Inv b -> Inv (fst (step b e)).
Proof.
  intros b e [Hmin Hlo Hhi Hp Hw Hr Hh].
  assert (Hframe : cfg (fst (step b e)) = cfg b) by apply step_cfg.
  assert (Hwin : maxFeedbackLen (fst (step b e)) = maxFeedbackLen b)
    by apply step_maxFeedbackLen.
  destruct e as [item| | | |fb|].
  - (* Add *)
    revert Hframe Hwin; unfold_sections; rewrite len_app; change (len [item]) with 1.
    split_ifs; intros; constructor; cbn in *; try assumption;
      rewrite ?len_app; change (len [item]) with 1; change (@len Item []) with 0;
      bools; lia.
  - (* Flush *)
    revert Hframe Hwin; unfold_sections.
    split_ifs; intros; constructor; cbn in *; try assumption;
      change (@len Item []) with 0; lia.
  - revert Hframe Hwin; unfold_sections.
    split_ifs; intros; constructor; cbn in *; assumption.
  - revert Hframe Hwin; unfold_sections.
    split_ifs; intros; constructor; cbn in *; assumption.
  - (* recordFeedback *)
    revert Hframe Hwin; unfold_sections; rewrite len_app; change (len [fb]) with 1.
    destruct (len (recentFeedback b) + 1 >? maxFeedbackLen b) eqn:E;
      intros; constructor; cbn in *; try assumption.
    + rewrite len_tl, len_app by (destruct (recentFeedback b); discriminate).
      change (len [fb]) with 1; lia.
    + rewrite len_app; change (len [fb]) with 1.
      rewrite Z.gtb_ltb in E; apply Z.ltb_ge in E; lia.
  - (* adjustBatchSize *)
    cbn [step fst] in *.
    destruct (adjusting b); [|constructor; assumption].
    destruct (adjustBatchSize_frame b) as (Hb & Hc & _ & _ & Hf & Hm).
    destruct (adjustBatchSize_clamped b) as [H1 H2]; [lia | lia |].
    constructor; rewrite ?Hb, ?Hc, ?Hf, ?Hm; assumption.
Qed.

Lemma reachable_Inv : forall b : Batcher, reachable b -> Inv b.
Proof.
  induction 1 as [c b H | b e _ IH].
  - apply Inv_New with c; exact H.
  - apply Inv_step, IH.
Qed.

End Facts.

(** ** Construction *)

Section Construction.

Variable Item : Type.
Context {platform : Platform}.

(** C3.  [New] fails, always with [ErrInvalidConfig], exactly when the initial
    size is not positive, the handler is nil, or the minimum exceeds the
    maximum once the defaults (1 and 1000) are in place.  Otherwise it returns
    a batcher whose configuration has the defaults filled in (factor 0.2,
    interval 5 s) and whose current size is the initial size clamped into
    [[min_size, max_size]]. *)
Theorem New_validates_and_defaults : forall c : Config Item,
  let invalid := InitialBatchSize c <= 0 \/ HandlerFunc c = None \/
                 minOrDefault c > maxOrDefault c in
  (New c = Err ErrInvalidConfig <-> invalid) /\
  (forall e, New c = Err e -> e = ErrInvalidConfig) /\
  (~ invalid ->
   exists b, New c = Ok b /\
     currentBatchSize b
       = Z.max (minOrDefault c) (Z.min (maxOrDefault c) (InitialBatchSize c)) /\
     MinBatchSize (cfg b) = (if MinBatchSize c <=? 0 then 1 else MinBatchSize c) /\
     MaxBatchSize (cfg b) = (if MaxBatchSize c <=? 0 then 1000 else MaxBatchSize c) /\
     AdjustmentFactor (cfg b)
       = (if (AdjustmentFactor c <=? 0)%float then f0_2 else AdjustmentFactor c) /\
     LoadCheckInterval (cfg b)
       = (if LoadCheckInterval c <=? 0 then 5 * second else LoadCheckInterval c) /\
     HandlerFunc (cfg b) = HandlerFunc c /\ Timeout (cfg b) = Timeout c /\
     batch b = [] /\ recentFeedback b = [] /\ closed b = false).
Proof.
  intros c invalid; subst invalid.
  assert (Hcases :
    (InitialBatchSize c <= 0 \/ HandlerFunc c = None \/ minOrDefault c > maxOrDefault c)
      /\ New c = Err ErrInvalidConfig
    \/ ~ (InitialBatchSize c <= 0 \/ HandlerFunc c = None \/ minOrDefault c > maxOrDefault c)
      /\ exists b, New c = Ok b).
  { unfold New; fold (minOrDefault c) (maxOrDefault c).
    destruct (InitialBatchSize c <=? 0) eqn:E0; bools; [left; auto|].
    destruct (minOrDefault c >? maxOrDefault c) eqn:E1; bools; [left; split; auto; lia|].
    destruct (HandlerFunc c) as [h|] eqn:Eh; [|left; auto].
    right; split; [|eexists; reflexivity].
    intros [H | [H | H]]; [lia | discriminate | lia]. }
  destruct Hcases as [[Hbad Herr] | [Hgood [b Hb]]].
  - split; [tauto|]; split; [|tauto].
    intros e He; rewrite Herr in He; congruence.
  - split; [split; [rewrite Hb; discriminate | tauto]|].
    split; [intros e He; rewrite Hb in He; discriminate|].
    intros _; exists b; split; [exact Hb|].
    apply New_Ok_inv in Hb as (h & Hh & Hi & Hmm & ->); cbn.
    rewrite clamp_min_max, Hh.
    repeat split; lia.
Qed.

End Construction.

(** ** Invariants of the running batcher *)

Section Invariants.

Variable Item : Type.
Context {platform : Platform}.

Abbreviation Batcher := (Batcher Item).

(** C7.  In every state reachable from a successful [New], the current size
    lies between the configured minimum and maximum. *)
Theorem currentBatchSize_within_bounds : forall b : Batcher,
  reachable b ->
  MinBatchSize (cfg b) <= currentBatchSize b <= MaxBatchSize (cfg b).
Proof.
  intros b Hreach.
  destruct (reachable_Inv Hreach) as [_ Hlo Hhi _ _ _ _].
  split; assumption.
Qed.

(** C9, as the code has it.  The feedback window is not configurable: it is
    10 for every batcher built by [New].  The ring never holds more records
    than that, and recording into a full ring drops the eldest record and
    appends the new one. *)
Theorem feedback_ring_bounded : forall (b : Batcher) fb,
  reachable b ->
  maxFeedbackLen b = 10 /\
  len (recentFeedback b) <= maxFeedbackLen b /\
  len (recentFeedback (recordFeedback b fb)) <= maxFeedbackLen b /\
  (len (recentFeedback b) < maxFeedbackLen b ->
   recentFeedback (recordFeedback b fb) = recentFeedback b ++ [fb]) /\
  (len (recentFeedback b) = maxFeedbackLen b ->
   recentFeedback (recordFeedback b fb) = tl (recentFeedback b) ++ [fb]).
Proof.
  intros b fb Hreach.
  pose proof (reachable_Inv Hreach) as Hb.
  pose proof (reachable_Inv (reach_step (EvRecord fb) Hreach)) as Hb'.
  destruct Hb as [_ _ _ _ Hw Hr _], Hb' as [_ _ _ _ _ Hr' _].
  cbn [step fst] in Hr'.
  split; [exact Hw|]; split; [exact Hr|]; split.
  - unfold recordFeedback in *; destruct (_ >? _); exact Hr'.
  - unfold recordFeedback; rewrite len_app; change (len [fb]) with 1.
    split; intro H;
      destruct (len (recentFeedback b) + 1 >? maxFeedbackLen b) eqn:E; bools;
      cbn [recentFeedback set_recentFeedback]; try lia.
    + reflexivity.
    + destruct (recentFeedback b) as [|x r]; [|reflexivity].
      change (@len LoadFeedback []) with 0 in H; lia.
Qed.

End Invariants.

(** ** The size trigger *)

Section SizeTrigger.

Variable Item : Type.
Context {platform : Platform}.

(** C1, as the code has it.  The trigger of [Add] fires when the pending
    length has reached the current size, so a batch detached by it is never
    shorter than the current size; it is never longer than the maximum size,
    and it has exactly the current size whenever the buffer was below the
    current size before the append.  An [Add] that does not detach leaves the
    buffer below the current size. *)
Theorem size_trigger_batch_length : forall (b : Batcher Item) item,
  reachable b ->
  len (batch b) < MaxBatchSize (cfg b) /\
  match Add_locked b item with
  | AddDetached bt b' =>
      bt = batch b ++ [item] /\ batch b' = [] /\
      currentBatchSize b <= len bt <= MaxBatchSize (cfg b) /\
      (len (batch b) < currentBatchSize b -> len bt = currentBatchSize b)
  | AddKept b' =>
      batch b' = batch b ++ [item] /\ len (batch b') < currentBatchSize b'
  | AddRejected => closed b = true
  end.
Proof.
  intros b item Hreach.
  destruct (reachable_Inv Hreach) as [Hmin Hlo Hhi Hp _ _ _].
  split; [exact Hp|].
  unfold Add_locked, detachBatchLocked; cbn.
  rewrite len_app; change (len [item]) with 1.
  pose proof (len_nonneg (batch b)) as Hlen.
  destruct (closed b); [reflexivity|].
  destruct (len (batch b) + 1 >=? currentBatchSize b) eqn:Etrig; bools.
  - destruct (len (batch b) + 1 =? 0) eqn:E0; bools; [lia|].
    unfold stopTimerLocked; cbn; rewrite len_app; change (len [item]) with 1.
    destruct (timer b); cbn; repeat split; try reflexivity; lia.
  - split_ifs; unfold startTimerLocked; cbn; rewrite len_app;
      change (len [item]) with 1; split; try reflexivity; lia.
Qed.

End SizeTrigger.

(** ** Shutdown *)

Section Shutdown.

Variable Item : Type.
Context {platform : Platform}.

Lemma processBatch_frame : forall (b : Batcher Item) bt,
  batch (fst (processBatch b bt)) = batch b /\
  closed (fst (processBatch b bt)) = closed b.
Proof.
  intros b bt; unfold processBatch.
  destruct (HandlerFunc (cfg b)) as [h|]; [|split; reflexivity].
  destruct (h bt) as [[f|] e]; cbn; [|split; reflexivity].
  unfold recordFeedback; destruct (_ >? _); split; reflexivity.
Qed.

Lemma Flush_drains : forall b : Batcher Item,
  batch (state (Flush b)) = [] /\ closed (state (Flush b)) = closed b.
Proof.
  intro b; unfold Flush, Flush_locked, detachBatchLocked.
  destruct (len (batch b) =? 0) eqn:E; bools.
  - cbn; split; [apply len_nil_iff, E | reflexivity].
  - cbn [fst snd].
    match goal with
    | |- context [processBatch ?x ?y] =>
      destruct (processBatch_frame x y) as [Hb Hc];
        destruct (processBatch x y) as [b'' e]
    end.
    cbn in *; rewrite Hb, Hc; unfold stopTimerLocked; cbn.
    destruct (timer b); split; reflexivity.
Qed.

Lemma Close_drains : forall b : Batcher Item,
  closed b = false -> drained (state (Close b)).
Proof.
  intros b Hopen; unfold Close; rewrite Hopen.
  destruct (Flush_drains (stop_adjusting (set_closed b))) as [Hb Hc].
  split; [rewrite Hc; reflexivity | exact Hb].
Qed.

Lemma drained_step : forall (b : Batcher Item) e,
  drained b -> drained (fst (step b e)) /\ snd (step b e) = None.
Proof.
  intros b e [Hc Hb]; unfold drained.
  destruct e as [item| | | |fb|]; cbn.
  - unfold Add_locked; rewrite Hc; cbn; auto.
  - unfold Flush_locked; rewrite Hb; cbn; auto.
  - rewrite Hc; auto.
  - rewrite Hc; cbn; auto.
  - unfold recordFeedback; destruct (_ >? _); cbn; auto.
  - destruct (adjusting b); [|auto].
    destruct (adjustBatchSize_frame b) as (Hb' & _ & _ & Hc' & _).
    rewrite Hb', Hc'; auto.
Qed.

Lemma drained_run : forall evs (b : Batcher Item), drained b -> drained (run b evs).
Proof.
  induction evs as [|e evs IH]; intros b Hb; cbn.
  - exact Hb.
  - apply IH, drained_step, Hb.
Qed.

(** C8.  Once the first [Close] has returned, and whatever critical sections
    run afterwards, [Add] returns [ErrClosed], and [Flush] and [Close] return
    nil; none of the three changes the state or hands a batch to the
    handler. *)
Theorem after_Close_rejects : forall (b : Batcher Item) evs item,
  closed b = false ->
  let b' := run (state (Close b)) evs in
  Add b' item = {| state := b'; handled := []; returned := Some ErrClosed |} /\
  Flush b' = {| state := b'; handled := []; returned := None |} /\
  Close b' = {| state := b'; handled := []; returned := None |}.
Proof.
  intros b evs item Hopen b'.
  assert (Hd : drained b') by (apply drained_run, Close_drains, Hopen).
  destruct Hd as [Hc Hb].
  unfold Add, Add_locked, Flush, Flush_locked, Close.
  rewrite Hc, Hb; cbn; auto.
Qed.

(** C10.  [Add] on a closed batcher returns [ErrClosed]; the state it leaves
    is the state it found, and no batch reaches the handler. *)
Theorem Add_on_closed_is_rejected : forall (b : Batcher Item) item,
  closed b = true ->
  Add b item = {| state := b; handled := []; returned := Some ErrClosed |} /\
  step b (EvAdd item) = (b, None).
Proof.
  intros b item Hc.
  unfold Add, step, Add_locked; rewrite Hc; split; reflexivity.
Qed.

End Shutdown.

(** ** The controller *)

Lemma Prim2SF_f0_25 : Prim2SF f0_25 = S754_finite false 4503599627370496 (-54).
Proof. vm_compute. reflexivity. Qed.
Lemma Prim2SF_f0_55 : Prim2SF f0_55 = S754_finite false 4953959590107546 (-53).
Proof. vm_compute. reflexivity. Qed.

Lemma band_exclusive : forall x, (x <? f0_25)%float = true -> (f0_55 <? x)%float = false.
Proof.
  intros x; rewrite !FloatAxioms.ltb_spec, Prim2SF_f0_25, Prim2SF_f0_55.
  unfold SFltb, SFcompare.
  destruct (Prim2SF x) as [s|[]| |[] m e]; try reflexivity; try discriminate.
  destruct (Z.compare_spec e (-54)), (Z.compare_spec (-53) e);
    try reflexivity; try discriminate; try lia.
Qed.

Section Controller.

Variable Item : Type.
Context {platform : Platform}.

(** C4.  One step of the controller.  With [n] the floor of the float product
    [float64(s) * factor] and no overflow of [int] in [s + step] or
    [s - step], where [step = max 1 n]: an empty ring leaves the batcher as it
    is; otherwise the new size is [s + step] below 0.25, [s] from 0.25 to
    0.55, [s - step] above 0.55, clamped into [[min_size, max_size]].  (For a
    size below [2^53] and a factor in [[0, 1]] the floor exists and lies
    between 0 and [s]: [unit_factor_product].) *)
Theorem adjustBatchSize_three_bands : forall (b : Batcher Item) n,
  let s := currentBatchSize b in
  let avg := averageLoad (recentFeedback b) in
  let lo := MinBatchSize (cfg b) in
  let hi := MaxBatchSize (cfg b) in
  let step := Z.max 1 n in
  float_floor (float64_of_int s * AdjustmentFactor (cfg b)) = Some n ->
  n <= max_int64 -> min_int64 <= s - step -> s + step <= max_int64 ->
  (recentFeedback b = [] -> adjustBatchSize b = b) /\
  (recentFeedback b <> [] ->
   ((avg <? f0_25)%float = true ->
    currentBatchSize (adjustBatchSize b) = clamp lo hi (s + step)) /\
   ((f0_25 <=? avg)%float = true -> (avg <=? f0_55)%float = true ->
    currentBatchSize (adjustBatchSize b) = clamp lo hi s) /\
   ((f0_55 <? avg)%float = true ->
    currentBatchSize (adjustBatchSize b) = clamp lo hi (s - step))).
Proof.
  intros b n s avg lo hi step Hfloor Hn Hlo Hhi.
  assert (Hstep : adjustStep s (AdjustmentFactor (cfg b)) = step)
    by (unfold adjustStep; apply int_of_Max_one; assumption).
  split.
  - intro Hr; unfold adjustBatchSize; rewrite Hr; reflexivity.
  - intro Hr.
    assert (Hlen : (len (recentFeedback b) =? 0) = false).
    { apply Z.eqb_neq; intro H0; apply len_nil_iff in H0; contradiction. }
    unfold adjustBatchSize; rewrite Hlen; fold avg s lo hi; rewrite Hstep.
    cbn [currentBatchSize set_currentBatchSize].
    split; [|split].
    + intro Hlow; rewrite Hlow, wrap64_id by lia. reflexivity.
    + intros H1 H2. rewrite (leb_not_ltb _ _ H1), (leb_not_ltb _ _ H2). reflexivity.
    + intro Hhigh.
      destruct (avg <? f0_25)%float eqn:Hlow.
      * apply band_exclusive in Hlow; congruence.
      * rewrite Hhigh, wrap64_id by lia. reflexivity.
Qed.

End Controller.

Lemma Forall_eq_repeat : forall (A : Type) (a : A) l,
  Forall (eq a) l -> l = repeat a (length l).
Proof.
  intros A a l H; induction H as [|x l Hx _ IH]; cbn.
  - reflexivity.
  - subst x; f_equal; exact IH.
Qed.

Lemma ring_cases : forall (a : LoadFeedback) r,
  Forall (eq a) r -> r <> [] -> len r <= 10 ->
  exists n, (n < 10)%nat /\ r = repeat a (S n).
Proof.
  intros a r Hall Hne Hlen.
  rewrite (Forall_eq_repeat Hall) in *.
  unfold len in Hlen; rewrite repeat_length in *.
  destruct (length r) as [|n]; [contradiction Hne; reflexivity|].
  exists n; split; [lia | reflexivity].
Qed.

Lemma averageLoad_hot : forall r,
  Forall (eq hot) r -> r <> [] -> len r <= 10 ->
  (averageLoad r <? f0_25)%float = false /\ (f0_55 <? averageLoad r)%float = false.
Proof.
  intros r Hall Hne Hlen.
  destruct (ring_cases Hall Hne Hlen) as (n & Hn & ->).
  do 10 (destruct n as [|n]; [vm_compute; split; reflexivity|]); lia.
Qed.

Lemma averageLoad_idle : forall r,
  Forall (eq idle) r -> r <> [] -> len r <= 10 ->
  (averageLoad r <? f0_25)%float = true.
Proof.
  intros r Hall Hne Hlen.
  destruct (ring_cases Hall Hne Hlen) as (n & Hn & ->).
  do 10 (destruct n as [|n]; [vm_compute; reflexivity|]); lia.
Qed.

Lemma float_trunc_Max_one : forall x z,
  float_trunc (math_Max x 1) = Some z -> 1 <= z.
Proof.
  intros x z; unfold float_trunc.
  pose proof (math_Max_one x) as HM.
  pose proof (Prim2SF_valid x) as Hv.
  pose proof (FloatAxioms.ltb_spec 1 x) as Hlt; rewrite Prim2SF_one in Hlt.
  assert (H1 : SFtrunc (Prim2SF 1) = Some z -> 1 <= z)
    by (rewrite Prim2SF_one; cbn; intro H; injection H as <-; lia).
  destruct (Prim2SF x) as [s|[]| |s m e] eqn:Ex; rewrite HM;
    try (rewrite Hlt; exact H1); try discriminate.
  destruct (1 <? x)%float; [|exact H1].
  rewrite Ex; symmetry in Hlt.
  apply SFltb_one_finite in Hlt as [-> Hge]; [|exact Hv].
  cbn; intro H; injection H as <-; exact Hge.
Qed.

Section Direction.

Variable Item : Type.
Context {platform : Platform}.

Lemma step_fits_adjustStep : forall s f,
  1 <= s -> step_fits s f = true ->
  1 <= adjustStep s f /\ s + adjustStep s f <= max_int64.
Proof.
  intros s f Hs; unfold step_fits, adjustStep, int_of_float64.
  destruct (float_trunc _) as [z|] eqn:Ez; [|discriminate].
  intro H; apply Z.leb_le in H.
  pose proof (float_trunc_Max_one _ Ez) as Hz.
  replace (in_int64 z) with true; [lia|].
  symmetry; apply in_int64_iff; unfold min_int64; lia.
Qed.

Abbreviation Batcher := (Batcher Item).

Lemma adjust_hot : forall b : Batcher,
  Inv b -> Forall (eq hot) (recentFeedback b) ->
  currentBatchSize (adjustBatchSize b) = currentBatchSize b.
Proof.
  intros b [Hmin Hlo Hhi _ Hw Hr _] Hall; unfold adjustBatchSize.
  destruct (len (recentFeedback b) =? 0) eqn:E; [reflexivity|]; bools.
  assert (Hne : recentFeedback b <> []) by (intro H0; apply E, len_nil_iff, H0).
  destruct (averageLoad_hot Hall Hne) as [-> ->]; [lia|].
  cbn [currentBatchSize set_currentBatchSize].
  change (clamp (MinBatchSize (cfg b)) (MaxBatchSize (cfg b)) (currentBatchSize b)
          = currentBatchSize b).
  apply clamp_id; lia.
Qed.

Lemma adjust_idle : forall b : Batcher,
  Inv b -> recentFeedback b <> [] -> Forall (eq idle) (recentFeedback b) ->
  step_fits (currentBatchSize b) (AdjustmentFactor (cfg b)) = true ->
  Z.min (MaxBatchSize (cfg b)) (currentBatchSize b + 1)
    <= currentBatchSize (adjustBatchSize b) <= MaxBatchSize (cfg b).
Proof.
  intros b [Hmin Hlo Hhi _ Hw Hr _] Hne Hall Hfit; unfold adjustBatchSize.
  assert (E : (len (recentFeedback b) =? 0) = false).
  { apply Z.eqb_neq; intro H0; apply len_nil_iff in H0; contradiction. }
  rewrite E, (averageLoad_idle Hall Hne) by lia.
  apply step_fits_adjustStep in Hfit as [H1 H2]; [|lia].
  rewrite wrap64_id by (unfold min_int64; lia).
  cbn [currentBatchSize set_currentBatchSize].
  match goal with
  | |- _ <= (if ?x >? ?hi then ?hi else ?x) <= _ =>
    match x with
    | (if ?y <? ?lo then ?lo else ?y) => change (if x >? hi then hi else x) with (clamp lo hi y)
    end
  end.
  rewrite clamp_min_max; lia.
Qed.

Lemma ticks_nonneg : forall evs : list (Event Item), 0 <= ticks evs.
Proof. induction evs as [|[] evs IH]; cbn [ticks]; lia. Qed.

Lemma recordFeedback_constant : forall (b : Batcher) fb,
  Forall (eq fb) (recentFeedback b) ->
  Forall (eq fb) (recentFeedback (recordFeedback b fb)).
Proof.
  intros b fb Hall.
  assert (H : Forall (eq fb) (recentFeedback b ++ [fb]))
    by (apply Forall_app; split; [exact Hall | repeat constructor]).
  unfold recordFeedback; destruct (_ >? _); cbn [recentFeedback set_recentFeedback];
    [|exact H].
  destruct (recentFeedback b ++ [fb]) as [|x r]; [constructor|].
  inversion H; assumption.
Qed.

Lemma recordFeedback_nonempty : forall (b : Batcher) fb,
  1 <= maxFeedbackLen b -> recentFeedback (recordFeedback b fb) <> [].
Proof.
  intros b fb Hw; unfold recordFeedback.
  destruct (len (recentFeedback b ++ [fb]) >? maxFeedbackLen b) eqn:E; bools;
    cbn [recentFeedback set_recentFeedback].
  - intro H0. rewrite len_app in E; change (len [fb]) with 1 in E.
    destruct (recentFeedback b) as [|x [|y r]]; cbn in H0; try discriminate.
    change (@len LoadFeedback []) with 0 in E; lia.
  - destruct (recentFeedback b); discriminate.
Qed.

(** With a ring of [hot] records the controller never moves the size. *)
Lemma hot_trace_constant : forall evs (b : Batcher),
  Inv b -> Forall (eq hot) (recentFeedback b) -> controller_trace hot evs ->
  currentBatchSize (run b evs) = currentBatchSize b.
Proof.
  induction evs as [|e evs IH]; intros b HI Hall Htr; [reflexivity|].
  inversion Htr as [|e' evs' [-> | ->] Htr']; subst; cbn [run].
  - rewrite IH; [| apply (Inv_step EvAdjust HI) | | exact Htr'].
    + cbn [step fst]; destruct (adjusting b); [apply adjust_hot; assumption | reflexivity].
    + cbn [step fst]; destruct (adjusting b); [|exact Hall].
      destruct (adjustBatchSize_frame b) as (_ & _ & _ & _ & -> & _); exact Hall.
  - rewrite IH; [| apply (Inv_step (EvRecord hot) HI) | | exact Htr'].
    + cbn [step fst]; unfold recordFeedback; destruct (_ >? _); reflexivity.
    + cbn [step fst]; apply recordFeedback_constant, Hall.
Qed.

Lemma IdleState_step : forall (b : Batcher) e,
  IdleState b -> e = EvAdjust \/ e = EvRecord idle ->
  IdleState (fst (step b e)) /\
  cfg (fst (step b e)) = cfg b /\
  Z.min (MaxBatchSize (cfg b)) (currentBatchSize b + ticks [e])
    <= currentBatchSize (fst (step b e)) <= MaxBatchSize (cfg b).
Proof.
  intros b e [HI Hadj Hne Hall Hfit] He.
  pose proof (Inv_step e HI) as HI'.
  pose proof (step_cfg b e) as Hcfg.
  destruct HI as [Hmin Hlo Hhi Hp Hw Hr Hh] eqn:EI.
  destruct He as [-> | ->]; cbn [step fst ticks] in *.
  - rewrite Hadj in *.
    destruct (adjustBatchSize_frame b) as (_ & Hc & _ & _ & Hf & _).
    split; [|split; [exact Hc|]].
    + constructor; rewrite ?Hc, ?Hf; try assumption.
      unfold adjustBatchSize; destruct (_ =? _); exact Hadj.
    + apply adjust_idle; try assumption. apply Hfit; lia.
  - split; [|split; [exact Hcfg|]].
    + constructor; rewrite ?Hcfg; try assumption.
      * unfold recordFeedback; destruct (_ >? _); exact Hadj.
      * apply recordFeedback_nonempty; lia.
      * apply recordFeedback_constant, Hall.
    + unfold recordFeedback; destruct (_ >? _); cbn; lia.
Qed.

Lemma idle_trace_grows : forall evs (b : Batcher),
  IdleState b -> controller_trace idle evs ->
  IdleState (run b evs) /\ cfg (run b evs) = cfg b /\
  Z.min (MaxBatchSize (cfg b)) (currentBatchSize b + ticks evs)
    <= currentBatchSize (run b evs) <= MaxBatchSize (cfg b).
Proof.
  induction evs as [|e evs IH]; intros b Hb Htr.
  - destruct (idle_inv Hb) as [? ? ? _ _ _ _]; cbn.
    split; [exact Hb|]; split; [reflexivity|]; lia.
  - inversion Htr as [|e' evs' He Htr']; subst.
    destruct (IdleState_step Hb He) as (Hb' & Hcfg & Hstep).
    destruct (IH _ Hb' Htr') as (Hb'' & Hcfg' & Hrun).
    cbn [run]; rewrite Hcfg in *.
    split; [exact Hb''|]; split; [congruence|].
    pose proof (ticks_nonneg evs) as Ht.
    assert (Hte : ticks (e :: evs) = ticks [e] + ticks evs)
      by (destruct e; cbn [ticks]; lia).
    assert (Ht1 : 0 <= ticks [e]) by apply ticks_nonneg.
    rewrite Hte; lia.
Qed.

(** C2, as the code has it.  A record with CPU load 0.9 and nothing else
    scores 0.54, inside the dead band: while the ring holds only such records
    the controller leaves the size where it is.  With CPU load 0.0, a factor
    in [[0, 1]] and a maximum below [2^53], the size never decreases along a
    run of the controller and is at the maximum after at most
    [max_size - size] ticks. *)
Theorem controller_direction : forall (b : Batcher) evs1 evs2,
  reachable b ->
  between f0_25 f0_55 (LoadScore hot) = true /\
  (Forall (eq hot) (recentFeedback b) -> controller_trace hot evs1 ->
   currentBatchSize (run b evs1) = currentBatchSize b) /\
  (adjusting b = true -> recentFeedback b <> [] ->
   Forall (eq idle) (recentFeedback b) ->
   (0 <=? AdjustmentFactor (cfg b))%float = true ->
   (AdjustmentFactor (cfg b) <=? 1)%float = true ->
   MaxBatchSize (cfg b) < 2 ^ 53 ->
   controller_trace idle (evs1 ++ evs2) ->
   currentBatchSize (run b evs1) <= currentBatchSize (run b (evs1 ++ evs2))
     <= MaxBatchSize (cfg b) /\
   (MaxBatchSize (cfg b) - currentBatchSize b <= ticks evs1 ->
    currentBatchSize (run b evs1) = MaxBatchSize (cfg b))).
Proof.
  intros b evs1 evs2 Hreach.
  pose proof (reachable_Inv Hreach) as HI.
  split; [vm_compute; reflexivity|]; split.
  - intros Hall Htr; apply hot_trace_constant; assumption.
  - intros Hadj Hne Hall Hf0 Hf1 Hmax Htr.
    assert (Hfit : forall s, MinBatchSize (cfg b) <= s <= MaxBatchSize (cfg b) ->
                             step_fits s (AdjustmentFactor (cfg b)) = true).
    { intros s Hs; apply unit_factor_fits; try assumption.
      pose proof (inv_min HI); lia. }
    apply Forall_app in Htr as [Htr1 Htr2].
    assert (Hb : IdleState b) by (constructor; assumption).
    destruct (idle_trace_grows Hb Htr1) as (Hb1 & Hcfg1 & Hrun1).
    destruct (idle_trace_grows Hb1 Htr2) as (_ & _ & Hrun2).
    rewrite run_app, Hcfg1 in *.
    pose proof (ticks_nonneg evs2).
    split; [lia|intro Hticks; lia].
Qed.

(** The methods stay within the reachable states. *)
Lemma processBatch_reachable : forall (b : Batcher) bt,
  reachable b -> reachable (fst (processBatch b bt)).
Proof.
  intros b bt Hb; unfold processBatch.
  destruct (HandlerFunc (cfg b)) as [h|]; [|exact Hb].
  destruct (h bt) as [[f|] e]; cbn [fst]; [|exact Hb].
  exact (reach_step (EvRecord f) Hb).
Qed.

Lemma Add_reachable : forall (b : Batcher) item,
  reachable b -> reachable (state (Add b item)).
Proof.
  intros b item Hb; pose proof (reach_step (EvAdd item) Hb) as H.
  unfold Add; cbn [step] in H.
  destruct (Add_locked b item) as [|bt b'|b']; cbn [fst state] in *; try assumption.
  pose proof (processBatch_reachable bt H) as H'.
  destruct (processBatch b' bt); exact H'.
Qed.

Lemma Flush_reachable : forall b : Batcher,
  reachable b -> reachable (state (Flush b)).
Proof.
  intros b Hb; pose proof (reach_step EvFlush Hb) as H.
  unfold Flush; cbn [step] in H.
  destruct (Flush_locked b) as [[bt b']|]; cbn [fst state] in *; try assumption.
  pose proof (processBatch_reachable bt H) as H'.
  destruct (processBatch b' bt); exact H'.
Qed.

Lemma Close_reachable : forall b : Batcher,
  reachable b -> reachable (state (Close b)).
Proof.
  intros b Hb; unfold Close.
  destruct (closed b) eqn:Hc; [exact Hb|].
  apply Flush_reachable.
  pose proof (reach_step EvStop (reach_step EvClose Hb)) as H.
  cbn [step fst] in H; rewrite Hc in H; exact H.
Qed.

Lemma addAll_reachable : forall xs (b : Batcher),
  reachable b -> reachable (addAll b xs).
Proof.
  induction xs as [|x xs IH]; intros b Hb; cbn.
  - exact Hb.
  - apply IH, Add_reachable, Hb.
Qed.

End Direction.

(** ** The scenarios, evaluated *)

Section Scenarios.

#[local] Existing Instance amd64.

(** C1 fails as stated.  After one full batch the ring holds [busy]
    (score 0.765); twelve more items are pending when the controller halves
    the size from 20 to 10; the next [Add] detaches thirteen items. *)
Lemma size_trigger_exceeds_current_size :
  exists b0, New (testConfig busy) = Ok b0 /\
    let b1 := addAll b0 (items 0 20) in
    let b2 := addAll b1 (items 20 12) in
    let b3 := adjustBatchSize b2 in
    recentFeedback b1 = [busy] /\ len (batch b2) = 12 /\
    currentBatchSize b3 = 10 /\
    handled (Add b3 32) = [items 20 12 ++ [32]] /\
    len (items 20 12 ++ [32]) = 13.
Proof.
  eexists; split; [reflexivity|].
  vm_compute; repeat split; reflexivity.
Qed.

(** C2 fails as stated.  With factor 0.5, initial size 20 and minimum 5 the
    claimed bound is 2 ticks; a handler that reports CPU load 0.9 and nothing
    else scores 0.54, and the size is still 20 after 2 ticks and after 100. *)
Lemma hot_feedback_leaves_size_unchanged :
  exists b0, New (testConfig hot) = Ok b0 /\
    let b1 := addAll b0 (items 0 20) in
    recentFeedback b1 = [hot] /\
    (LoadScore hot <? f0_55)%float = true /\
    MinBatchSize (cfg b1) = 5 /\
    currentBatchSize (run b1 [EvAdjust; EvAdjust]) = 20 /\
    currentBatchSize (run b1 (repeat EvAdjust 100)) = 20.
Proof.
  eexists; split; [reflexivity|].
  vm_compute; repeat split; reflexivity.
Qed.

(** The growth under an idle backend is not geometric either: with the
    default factor 0.2 the size goes 6, 7, 8, 9, short of 10 after the 3 ticks
    that the logarithm of 10/6 to base 1.2 allows. *)
Lemma idle_growth_is_slower_than_geometric :
  exists b0,
    New {| InitialBatchSize := 6; MinBatchSize := 1; MaxBatchSize := 10;
           Timeout := 0; HandlerFunc := Some (constantHandler idle);
           AdjustmentFactor := 0; LoadCheckInterval := 0 |} = Ok b0 /\
    AdjustmentFactor (cfg b0) = f0_2 /\
    let b1 := addAll b0 (items 0 6) in
    map (fun n => currentBatchSize (run b1 (repeat EvAdjust n))) [0; 1; 2; 3; 4]%nat
      = [6; 7; 8; 9; 10].
Proof.
  eexists; split; [reflexivity|].
  vm_compute; split; reflexivity.
Qed.

(** C5 fails as stated: a negative CPU load gives a negative score, and so
    does a negative queue depth. *)
Lemma negative_load_gives_negative_score :
  (LoadScore (cpuOnly (-1)) <? 0)%float = true /\
  LoadScore (cpuOnly (-1)) = (- f0_6)%float /\
  (LoadScore {| CPULoad := 0; QueueDepth := -100; ProcessingTime := 0;
                ErrorRate := 0; DBLocks := 0; Custom := [] |} <? 0)%float = true.
Proof. vm_compute; repeat split; reflexivity. Qed.

(** C9 fails as stated: the window is no configuration value.  [Config]
    has no field for it, and whatever configuration [New] accepts, the window
    is 10 and twelve recordings leave exactly ten records in the ring, where
    a window below 10 would leave fewer and a window of 12 or more would
    keep all twelve. *)
Lemma feedback_window_is_not_configurable :
  exists b0, New (testConfig busy) = Ok b0 /\
    maxFeedbackLen b0 = 10 /\
    len (recentFeedback (run b0 (repeat (EvRecord hot) 12))) = 10 /\
    forall (c : Config Z) b, New c = Ok b ->
      maxFeedbackLen b = 10 /\
      len (recentFeedback (run b (repeat (EvRecord hot) 12))) = 10.
Proof.
  eexists; split; [reflexivity|].
  split; [reflexivity|]; split; [vm_compute; reflexivity|].
  intros c b H; apply New_Ok_inv in H as (h & _ & _ & _ & ->).
  split; reflexivity.
Qed.

(** The configuration of the adaptive-sizing test is valid: [New] keeps its
    bounds and starts at the initial size 20. *)
Lemma New_validates_and_defaults_witness :
  exists b, New (testConfig busy) = Ok b /\
    currentBatchSize b = Z.max 5 (Z.min 50 20) /\
    MinBatchSize (cfg b) = 5 /\ MaxBatchSize (cfg b) = 50.
Proof.
  pose proof (@New_validates_and_defaults Z (testConfig busy)) as H.
  destruct H as (_ & _ & H).
  destruct H as (b & Hb & Hsize & Hmin & Hmax & _).
  - intros [H | [H | H]]; vm_compute in H; solve [discriminate H | apply H; reflexivity].
  - exists b; repeat split; assumption.
Defined.

(** The medium-load record of the score test has all inputs non-negative. *)
Lemma LoadScore_bounds_witness :
  (0 <=? LoadScore mediumLoad)%float = true /\
  (LoadScore mediumLoad <=? 1)%float = true.
Proof.
  pose proof (LoadScore_bounds mediumLoad) as H.
  destruct H as [_ H]; apply H; vm_compute; solve [reflexivity | discriminate].
Defined.

Lemma LoadScore_formula_witness : LoadScore highLoad = LoadScore_spec highLoad.
Proof.
  pose proof (LoadScore_formula highLoad) as H.
  destruct H as (_ & H & _); apply H; vm_compute; discriminate.
Defined.

(** A state of the adaptive-sizing test: one full batch handled, its
    feedback recorded, seven items pending. *)
Lemma test_state_reachable : forall fb b0,
  New (testConfig fb) = Ok b0 ->
  reachable (addAll b0 (items 0 27)).
Proof.
  intros fb b0 H; apply addAll_reachable; apply reach_New with (testConfig fb); exact H.
Qed.

Lemma currentBatchSize_within_bounds_witness :
  exists b0, New (testConfig busy) = Ok b0 /\
    let b := fst (step (addAll b0 (items 0 27)) EvAdjust) in
    MinBatchSize (cfg b) <= currentBatchSize b <= MaxBatchSize (cfg b).
Proof.
  eexists; split; [reflexivity|]; cbv zeta.
  pose proof (test_state_reachable (fb := busy) eq_refl) as Hreach.
  exact (@currentBatchSize_within_bounds Z amd64 _ (reach_step EvAdjust Hreach)).
Defined.

Lemma feedback_ring_bounded_witness :
  exists b0, New (testConfig busy) = Ok b0 /\
    let b := addAll b0 (items 0 27) in
    len (recentFeedback (recordFeedback b hot)) <= maxFeedbackLen b.
Proof.
  eexists; split; [reflexivity|]; cbv zeta.
  pose proof (test_state_reachable (fb := busy) eq_refl) as Hreach.
  pose proof (@feedback_ring_bounded Z amd64 _ hot Hreach) as H.
  destruct H as (_ & _ & H & _); exact H.
Defined.

(** With nineteen items pending and the size at 20, the next [Add] detaches
    a batch of exactly 20. *)
Lemma size_trigger_batch_length_witness :
  exists b0, New (testConfig busy) = Ok b0 /\
    let b := addAll b0 (items 0 39) in
    match Add_locked b 39 with
    | AddDetached bt _ => len bt = currentBatchSize b
    | _ => False
    end.
Proof.
  eexists; split; [reflexivity|]; cbv zeta.
  set (b := addAll (Item := Z) _ (items 0 39)).
  assert (Hreach : reachable b)
    by (apply addAll_reachable; apply reach_New with (testConfig busy); reflexivity).
  assert (Hbelow : len (batch b) < currentBatchSize b) by (vm_compute; reflexivity).
  pose proof (@size_trigger_batch_length Z amd64 b 39 Hreach) as H.
  destruct H as [_ H].
  destruct (Add_locked b 39) as [|bt b'|b'] eqn:E.
  - vm_compute in E; discriminate E.
  - destruct H as (_ & _ & _ & H); exact (H Hbelow).
  - vm_compute in E; discriminate E.
Defined.

Lemma after_Close_rejects_witness :
  exists b0, New (testConfig busy) = Ok b0 /\
    let b' := run (state (Close (addAll b0 (items 0 27)))) [EvAdd 28; EvFlush; EvAdjust] in
    Add b' 29 = {| state := b'; handled := []; returned := Some ErrClosed |}.
Proof.
  eexists; split; [reflexivity|]; cbv zeta.
  set (b := addAll (Item := Z) _ (items 0 27)).
  assert (Hopen : closed b = false) by (vm_compute; reflexivity).
  pose proof (@after_Close_rejects Z amd64 b [EvAdd 28; EvFlush; EvAdjust] 29 Hopen) as H.
  destruct H as [H _]; exact H.
Defined.

Lemma Add_on_closed_is_rejected_witness :
  exists b0, New (testConfig busy) = Ok b0 /\
    let b := state (Close (addAll b0 (items 0 27))) in
    Add b 28 = {| state := b; handled := []; returned := Some ErrClosed |}.
Proof.
  eexists; split; [reflexivity|]; cbv zeta.
  set (b := state (Close (addAll (Item := Z) _ (items 0 27)))).
  assert (Hclosed : closed b = true) by (vm_compute; reflexivity).
  pose proof (@Add_on_closed_is_rejected Z amd64 b 28 Hclosed) as H.
  destruct H as [H _]; exact H.
Defined.

(** The controller step of the adaptive-sizing test: the floor of
    [20 * 0.5] is 10 and the average 0.765 is above 0.55, so the size goes
    from 20 to 10. *)
Lemma adjustBatchSize_three_bands_witness :
  exists b0, New (testConfig busy) = Ok b0 /\
    let b := addAll b0 (items 0 27) in
    currentBatchSize (adjustBatchSize b)
      = clamp (MinBatchSize (cfg b)) (MaxBatchSize (cfg b))
              (currentBatchSize b - Z.max 1 10).
Proof.
  eexists; split; [reflexivity|]; cbv zeta.
  set (b := addAll (Item := Z) _ (items 0 27)).
  assert (Hfloor : float_floor (float64_of_int (currentBatchSize b)
                                * AdjustmentFactor (cfg b)) = Some 10)
    by (vm_compute; reflexivity).
  assert (Hn : 10 <= max_int64) by (unfold max_int64; lia).
  assert (Hlo : min_int64 <= currentBatchSize b - Z.max 1 10)
    by (vm_compute; discriminate).
  assert (Hhi : currentBatchSize b + Z.max 1 10 <= max_int64)
    by (vm_compute; discriminate).
  assert (Hring : recentFeedback b <> []) by (vm_compute; discriminate).
  assert (Havg : (f0_55 <? averageLoad (recentFeedback b))%float = true)
    by (vm_compute; reflexivity).
  pose proof (@adjustBatchSize_three_bands Z amd64 b 10 Hfloor Hn Hlo Hhi) as H.
  destruct H as [_ H]; destruct (H Hring) as (_ & _ & H3); exact (H3 Havg).
Defined.

(** The adaptive-sizing configuration under an idle handler: from 20 to the
    maximum 50 within thirty ticks. *)
Lemma controller_direction_witness :
  exists b0, New (testConfig idle) = Ok b0 /\
    let b := addAll b0 (items 0 20) in
    currentBatchSize (run b (repeat EvAdjust 30)) = MaxBatchSize (cfg b).
Proof.
  eexists; split; [reflexivity|]; cbv zeta.
  set (b := addAll (Item := Z) _ (items 0 20)).
  assert (Hreach : reachable b)
    by (apply addAll_reachable; apply reach_New with (testConfig idle); reflexivity).
  assert (Hadj : adjusting b = true) by (vm_compute; reflexivity).
  assert (Hne : recentFeedback b <> []) by (vm_compute; discriminate).
  assert (Hall : Forall (eq idle) (recentFeedback b)) by (vm_compute; repeat constructor).
  assert (Hf0 : (0 <=? AdjustmentFactor (cfg b))%float = true) by (vm_compute; reflexivity).
  assert (Hf1 : (AdjustmentFactor (cfg b) <=? 1)%float = true) by (vm_compute; reflexivity).
  assert (Hmax : MaxBatchSize (cfg b) < 2 ^ 53) by (vm_compute; reflexivity).
  assert (Htr : controller_trace (Item := Z) idle (repeat EvAdjust 30 ++ []))
    by (repeat constructor).
  assert (Hticks : MaxBatchSize (cfg b) - currentBatchSize b
                   <= ticks (Item := Z) (repeat EvAdjust 30))
    by (vm_compute; discriminate).
  pose proof (@controller_direction Z amd64 b (repeat EvAdjust 30) [] Hreach) as H.
  destruct H as (_ & _ & H).
  destruct (H Hadj Hne Hall Hf0 Hf1 Hmax Htr) as [_ Hreached]; exact (Hreached Hticks).
Defined.

End Scenarios.

(** ** Delivery of the items *)

Section Delivery.

Variable Item : Type.
Context {platform : Platform}.

Local Ltac case_ifs :=
  repeat match goal with
         | |- context [if ?c then _ else _] => destruct c eqn:?
         end.

(** One critical section moves items from the buffer into a detached batch,
    or from an [Add] into the buffer, and does nothing else to them. *)
Lemma step_conserves : forall (b : Batcher Item) e,
  match snd (step b e) with Some bt => bt | None => [] end
    ++ batch (fst (step b e))
  = batch b ++ match e with
               | EvAdd item => if closed b then [] else [item]
               | _ => []
               end.
Proof.
  intros b e; destruct e as [item| | | |fb|]; cbn [step].
  - unfold Add_locked, detachBatchLocked, stopTimerLocked, startTimerLocked.
    destruct (closed b); [cbn; rewrite app_nil_r; reflexivity|].
    cbn; case_ifs; try destruct (timer b); cbn; rewrite ?app_nil_r; reflexivity.
  - unfold Flush_locked, detachBatchLocked, stopTimerLocked.
    case_ifs; try destruct (timer b); cbn; rewrite ?app_nil_r; reflexivity.
  - destruct (closed b); cbn; rewrite app_nil_r; reflexivity.
  - destruct (closed b); cbn; rewrite app_nil_r; reflexivity.
  - unfold recordFeedback; case_ifs; cbn; rewrite app_nil_r; reflexivity.
  - destruct (adjusting b); cbn [fst snd app];
      rewrite ?(proj1 (adjustBatchSize_frame b)), app_nil_r; reflexivity.
Qed.

(** X1.  Along any sequence of critical sections, from any state, the
    detached batches followed by the buffer are the buffer at the start
    followed by the admitted items: no item is lost, duplicated or
    reordered. *)
Theorem items_are_conserved : forall evs (b : Batcher Item),
  concat (detached b evs) ++ batch (run b evs) = batch b ++ admitted b evs.
Proof.
  induction evs as [|e evs IH]; intro b; cbn [detached admitted run concat].
  - cbn; rewrite app_nil_r; reflexivity.
  - pose proof (step_conserves b e) as Hs.
    rewrite app_assoc, <- Hs, <- app_assoc, <- IH.
    destruct (snd (step b e)) as [bt|]; cbn [concat app]; rewrite ?app_assoc; reflexivity.
Qed.

Lemma step_batch_size : forall (b : Batcher Item) e bt,
  Inv b -> snd (step b e) = Some bt -> 1 <= len bt <= MaxBatchSize (cfg b).
Proof.
  intros b e bt [_ _ _ Hp _ _ _] H.
  pose proof (len_nonneg (batch b)) as Hn.
  destruct e as [item| | | |fb|]; cbn [step] in H.
  - unfold Add_locked, detachBatchLocked, stopTimerLocked, startTimerLocked in H.
    cbn in H; rewrite len_app in H; change (len [item]) with 1 in H.
    revert H; case_ifs; try destruct (timer b); cbn; intro H;
      try discriminate H; bools; try lia;
      injection H as <-; rewrite len_app; change (len [item]) with 1; lia.
  - unfold Flush_locked, detachBatchLocked, stopTimerLocked in H.
    revert H; case_ifs; try destruct (timer b); cbn; intro H;
      try discriminate H; bools; try lia;
      injection H as <-; lia.
  - discriminate H.
  - discriminate H.
  - discriminate H.
  - discriminate H.
Qed.

(** X2.  In a run of a batcher built by [New], every batch detached for the
    handler holds at least one item and at most [MaxBatchSize] items. *)
Theorem detached_batches_sized : forall evs (b : Batcher Item),
  reachable b ->
  Forall (fun bt => 1 <= len bt <= MaxBatchSize (cfg b)) (detached b evs).
Proof.
  induction evs as [|e evs IH]; intros b Hb; cbn [detached].
  - constructor.
  - pose proof (IH _ (reach_step e Hb)) as Hrest.
    rewrite step_cfg in Hrest.
    destruct (snd (step b e)) as [bt|] eqn:E; [|exact Hrest].
    constructor; [|exact Hrest].
    apply step_batch_size with e; [exact (reachable_Inv Hb) | exact E].
Qed.

End Delivery.

(** ** The flush timer *)

Section Timer.

Variable Item : Type.
Context {platform : Platform}.

Lemma timer_New : forall (c : Config Item) b, New c = Ok b -> timer b = timer_of_buffer b.
Proof.
  intros c b H; apply New_Ok_inv in H as (h & _ & _ & _ & ->).
  unfold timer_of_buffer; cbn. destruct (Timeout c >? 0); reflexivity.
Qed.

Lemma timer_step : forall (b : Batcher Item) e,
  timer b = timer_of_buffer b ->
  timer (fst (step b e)) = timer_of_buffer (fst (step b e)).
Proof.
  intros b e; unfold timer_of_buffer.
  pose proof (len_nonneg (batch b)) as Hn.
  destruct e as [item| | | |fb|]; cbn [step].
  - unfold Add_locked, detachBatchLocked, stopTimerLocked, startTimerLocked.
    destruct (closed b); [trivial|].
    cbn; rewrite len_app; change (len [item]) with 1.
    assert (Hne : (len (batch b) + 1 =? 0) = false) by (apply Z.eqb_neq; lia).
    rewrite Hne.
    destruct (len (batch b) + 1 >=? currentBatchSize b).
    + intros _; cbn; destruct (timer b) eqn:Etm; cbn; rewrite ?Etm;
      destruct (Timeout (cfg b) >? 0); reflexivity.
    + destruct (len (batch b) =? 0) eqn:E0, (Timeout (cfg b) >? 0) eqn:Et; cbn;
        intro H; rewrite H; cbn; rewrite ?len_app; change (len [item]) with 1;
        rewrite ?Hne, ?Et; reflexivity.
  - unfold Flush_locked, detachBatchLocked, stopTimerLocked.
    destruct (len (batch b) =? 0) eqn:E0; cbn; [rewrite E0; trivial|].
    intros _; cbn; destruct (timer b) eqn:Etm; cbn; rewrite ?Etm;
      destruct (Timeout (cfg b) >? 0); reflexivity.
  - destruct (closed b); cbn; trivial.
  - destruct (closed b); cbn; trivial.
  - unfold recordFeedback; destruct (len _ >? maxFeedbackLen b); cbn; trivial.
  - destruct (adjusting b); cbn [fst]; [|trivial].
    destruct (adjustBatchSize_frame b) as (-> & -> & -> & _); trivial.
Qed.

Lemma reachable_timer : forall b : Batcher Item, reachable b -> timer b = timer_of_buffer b.
Proof.
  induction 1 as [c b H | b e _ IH].
  - apply timer_New with c; exact H.
  - apply timer_step, IH.
Qed.

(** X3.  In every state of a batcher built by [New], a timer is stored
    exactly when the timeout is positive and items are pending, and it was
    armed with the configured timeout. *)
Theorem timer_armed_iff_pending : forall b : Batcher Item,
  reachable b ->
  timer b = timer_of_buffer b /\
  (batch b = [] -> timer b = None) /\
  (Timeout (cfg b) <= 0 -> timer b = None) /\
  (0 < Timeout (cfg b) -> batch b <> [] -> timer b = Some (Timeout (cfg b))).
Proof.
  intros b Hb; pose proof (reachable_timer Hb) as H.
  split; [exact H|]; rewrite H; unfold timer_of_buffer.
  split; [intros ->; cbn; rewrite andb_false_r; reflexivity|].
  split; intro Ht.
  - replace (Timeout (cfg b) >? 0) with false; [reflexivity|].
    symmetry; rewrite Z.gtb_ltb; apply Z.ltb_ge; lia.
  - intro Hne.
    replace (Timeout (cfg b) >? 0) with true
      by (symmetry; rewrite Z.gtb_ltb; apply Z.ltb_lt; lia).
    replace (len (batch b) =? 0) with false; [reflexivity|].
    symmetry; apply Z.eqb_neq; intro H0; apply Hne, len_nil_iff, H0.
Qed.

End Timer.

(** ** Flushing *)

Section Flushing.

Variable Item : Type.
Context {platform : Platform}.

(** [processBatch] writes the feedback ring and nothing else. *)
Lemma processBatch_keeps : forall (b : Batcher Item) bt,
  let b' := fst (processBatch b bt) in
  batch b' = batch b /\ cfg b' = cfg b /\ timer b' = timer b /\
  closed b' = closed b /\ currentBatchSize b' = currentBatchSize b /\
  maxFeedbackLen b' = maxFeedbackLen b /\ adjusting b' = adjusting b.
Proof.
  intros b bt; unfold processBatch.
  destruct (HandlerFunc (cfg b)) as [h|]; [|cbn; repeat split].
  destruct (h bt) as [[f|] e]; cbn; [|repeat split].
  unfold recordFeedback; destruct (len _ >? maxFeedbackLen b); cbn; repeat split.
Qed.

Lemma Flush_unfold : forall b : Batcher Item,
  Flush b =
  if len (batch b) =? 0 then {| state := b; handled := []; returned := None |}
  else {| state := fst (processBatch (stopTimerLocked (set_batch b [])) (batch b));
          handled := [batch b];
          returned := snd (processBatch (stopTimerLocked (set_batch b [])) (batch b)) |}.
Proof.
  intro b; unfold Flush, Flush_locked, detachBatchLocked.
  destruct (len (batch b) =? 0); [reflexivity|].
  destruct (processBatch _ _); reflexivity.
Qed.

Lemma stopTimerLocked_keeps : forall b : Batcher Item,
  batch (stopTimerLocked b) = batch b /\ cfg (stopTimerLocked b) = cfg b /\
  timer (stopTimerLocked b) = None /\ closed (stopTimerLocked b) = closed b /\
  currentBatchSize (stopTimerLocked b) = currentBatchSize b /\
  recentFeedback (stopTimerLocked b) = recentFeedback b /\
  maxFeedbackLen (stopTimerLocked b) = maxFeedbackLen b /\
  adjusting (stopTimerLocked b) = adjusting b.
Proof.
  intro b; unfold stopTimerLocked; destruct (timer b) eqn:E; cbn; repeat split; exact E.
Qed.

(** X4.  [Flush] with an empty buffer returns nil and touches nothing.
    Otherwise it hands the whole buffer to the handler as one batch and
    returns the handler's error.  Either way the buffer is empty afterwards,
    the size, the configuration and the closed flag are as before, and a
    second [Flush] right after does nothing. *)
Theorem Flush_hands_over_buffer : forall b : Batcher Item,
  (batch b = [] -> Flush b = {| state := b; handled := []; returned := None |}) /\
  (batch b <> [] ->
   handled (Flush b) = [batch b] /\ timer (state (Flush b)) = None /\
   forall h, HandlerFunc (cfg b) = Some h -> returned (Flush b) = snd (h (batch b))) /\
  batch (state (Flush b)) = [] /\
  currentBatchSize (state (Flush b)) = currentBatchSize b /\
  cfg (state (Flush b)) = cfg b /\ closed (state (Flush b)) = closed b /\
  Flush (state (Flush b))
    = {| state := state (Flush b); handled := []; returned := None |}.
Proof.
  intro b.
  assert (Hempty : batch (state (Flush b)) = []).
  { rewrite Flush_unfold; destruct (len (batch b) =? 0) eqn:E; cbn [state].
    - apply len_nil_iff, Z.eqb_eq, E.
    - destruct (processBatch_keeps (stopTimerLocked (set_batch b [])) (batch b))
        as (-> & _).
      destruct (stopTimerLocked_keeps (set_batch b [])) as (-> & _); reflexivity. }
  split; [intros Hb; rewrite Flush_unfold, Hb; reflexivity|].
  split; [|split; [exact Hempty|]].
  - intro Hne; rewrite Flush_unfold.
    replace (len (batch b) =? 0) with false
      by (symmetry; apply Z.eqb_neq; intro H0; apply Hne, len_nil_iff, H0).
    cbn [handled state returned].
    destruct (processBatch_keeps (stopTimerLocked (set_batch b [])) (batch b))
      as (_ & _ & -> & _).
    destruct (stopTimerLocked_keeps (set_batch b [])) as (_ & Hc & -> & _).
    split; [reflexivity|]; split; [reflexivity|].
    intros h Hh; unfold processBatch; rewrite Hc; cbn [cfg set_batch]; rewrite Hh.
    destruct (h (batch b)) as [f e]; reflexivity.
  - repeat split.
    + rewrite Flush_unfold; destruct (len (batch b) =? 0); cbn [state]; [reflexivity|].
      destruct (processBatch_keeps (stopTimerLocked (set_batch b [])) (batch b))
        as (_ & _ & _ & _ & -> & _).
      destruct (stopTimerLocked_keeps (set_batch b [])) as (_ & _ & _ & _ & -> & _).
      reflexivity.
    + rewrite Flush_unfold; destruct (len (batch b) =? 0); cbn [state]; [reflexivity|].
      destruct (processBatch_keeps (stopTimerLocked (set_batch b [])) (batch b))
        as (_ & -> & _).
      destruct (stopTimerLocked_keeps (set_batch b [])) as (_ & -> & _).
      reflexivity.
    + rewrite Flush_unfold; destruct (len (batch b) =? 0); cbn [state]; [reflexivity|].
      destruct (processBatch_keeps (stopTimerLocked (set_batch b [])) (batch b))
        as (_ & _ & _ & -> & _).
      destruct (stopTimerLocked_keeps (set_batch b [])) as (_ & _ & _ & -> & _).
      reflexivity.
    + rewrite (Flush_unfold (state (Flush b))), Hempty; reflexivity.
Qed.

Lemma Add_unfold : forall (b : Batcher Item) item,
  closed b = false ->
  Add b item =
  if len (batch b) + 1 >=? currentBatchSize b then
    let b' := stopTimerLocked (set_batch b []) in
    {| state := fst (processBatch b' (batch b ++ [item]));
       handled := [batch b ++ [item]];
       returned := snd (processBatch b' (batch b ++ [item])) |}
  else
    {| state := if (len (batch b) =? 0) && (Timeout (cfg b) >? 0)
                   && match timer b with None => true | Some _ => false end
                then startTimerLocked (set_batch b (batch b ++ [item]))
                else set_batch b (batch b ++ [item]);
       handled := []; returned := None |}.
Proof.
  intros b item Hopen; unfold Add, Add_locked, detachBatchLocked; rewrite Hopen.
  cbn [batch set_batch currentBatchSize cfg timer].
  rewrite len_app; change (len [item]) with 1.
  pose proof (len_nonneg (batch b)) as Hn.
  replace (len (batch b) + 1 =? 0) with false by (symmetry; apply Z.eqb_neq; lia).
  destruct (len (batch b) + 1 >=? currentBatchSize b).
  - cbv zeta.
    replace (set_batch (set_batch b (batch b ++ [item])) []) with (set_batch b [])
      by reflexivity.
    destruct (processBatch _ _); reflexivity.
  - destruct ((len (batch b) =? 0) && (Timeout (cfg b) >? 0)
              && match timer b with None => true | Some _ => false end);
      reflexivity.
Qed.

(** X6.  An [Add] that returns an error either was refused because the
    batcher is closed, leaving the state as it was and calling no handler, or
    it handed the whole buffer with the new item to the handler; in that case
    the buffer is empty afterwards: a batch whose handler failed is not kept
    for a retry. *)
Theorem failed_batch_is_not_kept : forall (b : Batcher Item) item e,
  returned (Add b item) = Some e ->
  (closed b = true /\ e = ErrClosed /\ state (Add b item) = b /\
   handled (Add b item) = []) \/
  (closed b = false /\ handled (Add b item) = [batch b ++ [item]] /\
   batch (state (Add b item)) = [] /\
   snd (processBatch (stopTimerLocked (set_batch b [])) (batch b ++ [item])) = Some e).
Proof.
  intros b item e H.
  destruct (closed b) eqn:Hc.
  - left; revert H; unfold Add, Add_locked; rewrite Hc; cbn.
    intro H; injection H as <-; auto.
  - right; rewrite Add_unfold in * by exact Hc.
    destruct (len (batch b) + 1 >=? currentBatchSize b); cbn in H |- *; [|discriminate H].
    split; [reflexivity|]; split; [reflexivity|]; split; [|exact H].
    destruct (processBatch_keeps (stopTimerLocked (set_batch b [])) (batch b ++ [item]))
      as (-> & _).
    destruct (stopTimerLocked_keeps (set_batch b [])) as (-> & _); reflexivity.
Qed.

End Flushing.

(** ** Closing, and the controller's loop *)

Section Loop.

Variable Item : Type.
Context {platform : Platform}.

Lemma step_closed : forall (b : Batcher Item) e,
  closed b = true -> closed (fst (step b e)) = true.
Proof.
  intros b e Hc; destruct e as [item| | | |fb|]; cbn [step].
  - unfold Add_locked; rewrite Hc; exact Hc.
  - unfold Flush_locked, detachBatchLocked, stopTimerLocked.
    destruct (len (batch b) =? 0); cbn; [exact Hc|].
    destruct (timer b); exact Hc.
  - rewrite Hc; exact Hc.
  - rewrite Hc; exact Hc.
  - unfold recordFeedback; destruct (len _ >? maxFeedbackLen b); exact Hc.
  - destruct (adjusting b); cbn [fst]; [|exact Hc].
    destruct (adjustBatchSize_frame b) as (_ & _ & _ & -> & _); exact Hc.
Qed.

Lemma step_stopped : forall (b : Batcher Item) e,
  adjusting b = false ->
  adjusting (fst (step b e)) = false /\
  currentBatchSize (fst (step b e)) = currentBatchSize b.
Proof.
  intros b e Ha; destruct e as [item| | | |fb|]; cbn [step].
  - unfold Add_locked, detachBatchLocked, stopTimerLocked, startTimerLocked.
    destruct (closed b); [auto|]; cbn.
    repeat match goal with
           | |- context [if ?c then _ else _] => destruct c
           end; cbn; try destruct (timer b); cbn; auto.
  - unfold Flush_locked, detachBatchLocked, stopTimerLocked.
    destruct (len (batch b) =? 0); cbn; [auto|].
    destruct (timer b); cbn; auto.
  - destruct (closed b); cbn; auto.
  - destruct (closed b); cbn; auto.
  - unfold recordFeedback; destruct (len _ >? maxFeedbackLen b); cbn; auto.
  - rewrite Ha; cbn; auto.
Qed.

Lemma run_stopped : forall evs (b : Batcher Item),
  adjusting b = false ->
  adjusting (run b evs) = false /\ currentBatchSize (run b evs) = currentBatchSize b.
Proof.
  induction evs as [|e evs IH]; intros b Ha; cbn [run]; [auto|].
  destruct (step_stopped b e Ha) as [Ha' Hs].
  destruct (IH _ Ha') as [Ha'' Hs']; rewrite Hs', Hs; auto.
Qed.

Lemma run_closed : forall evs (b : Batcher Item),
  closed b = true -> closed (run b evs) = true.
Proof.
  induction evs as [|e evs IH]; intros b Hc; cbn [run]; [exact Hc|].
  apply IH, step_closed, Hc.
Qed.

Lemma run_cfg : forall evs (b : Batcher Item), cfg (run b evs) = cfg b.
Proof.
  induction evs as [|e evs IH]; intro b; cbn [run]; [reflexivity|].
  rewrite IH; apply step_cfg.
Qed.

Lemma step_no_adjust : forall (b : Batcher Item) e,
  is_adjust e = false -> currentBatchSize (fst (step b e)) = currentBatchSize b.
Proof.
  intros b e He; destruct e as [item| | | |fb|]; cbn [step]; try discriminate He.
  - unfold Add_locked, detachBatchLocked, stopTimerLocked, startTimerLocked.
    destruct (closed b); [auto|]; cbn.
    repeat match goal with
           | |- context [if ?c then _ else _] => destruct c
           end; cbn; try destruct (timer b); cbn; auto.
  - unfold Flush_locked, detachBatchLocked, stopTimerLocked.
    destruct (len (batch b) =? 0); cbn; [auto|].
    destruct (timer b); cbn; auto.
  - destruct (closed b); cbn; auto.
  - destruct (closed b); cbn; auto.
  - unfold recordFeedback; destruct (len _ >? maxFeedbackLen b); cbn; auto.
Qed.

Lemma run_no_adjust : forall evs (b : Batcher Item),
  forallb (fun e => negb (is_adjust e)) evs = true ->
  currentBatchSize (run b evs) = currentBatchSize b.
Proof.
  induction evs as [|e evs IH]; intros b Hev; cbn [run]; [reflexivity|].
  cbn in Hev; apply andb_true_iff in Hev as [He Hev].
  apply negb_true_iff in He.
  rewrite (IH _ Hev); apply step_no_adjust, He.
Qed.

(** A closed batcher admits nothing: what its critical sections detach and
    what stays pending is what was pending. *)
Lemma closed_run_conserves : forall evs (b : Batcher Item),
  closed b = true ->
  concat (detached b evs) ++ batch (run b evs) = batch b.
Proof.
  induction evs as [|e evs IH]; intros b Hc; cbn [detached run concat].
  - reflexivity.
  - pose proof (step_conserves b e) as Hs.
    pose proof (IH _ (step_closed b e Hc)) as Hrest.
    replace (batch b ++ match e with
                        | EvAdd item => if closed b then [] else [item]
                        | _ => []
                        end) with (batch b) in Hs
      by (rewrite Hc; destruct e; rewrite app_nil_r; reflexivity).
    rewrite <- Hs.
    destruct (snd (step b e)) as [bt|]; cbn [concat app];
      rewrite <- ?app_assoc, Hrest; reflexivity.
Qed.

(** A flush right after the controller has left its loop is the flush of
    the state the controller left. *)
Lemma Flush_stopped : forall x : Batcher Item,
  let o := Flush (stop_adjusting x) in
  handled o = handled (Flush x) /\ returned o = returned (Flush x) /\
  recentFeedback (state o) = recentFeedback (state (Flush x)) /\
  batch (state o) = [] /\ closed (state o) = closed x /\
  adjusting (state o) = false /\
  currentBatchSize (state o) = currentBatchSize x /\ cfg (state o) = cfg x.
Proof.
  intro x; cbv zeta; rewrite !Flush_unfold.
  cbn [batch stop_adjusting].
  destruct (len (batch x) =? 0) eqn:E; cbn [state handled returned].
  - cbn; repeat split. apply len_nil_iff, Z.eqb_eq, E.
  - unfold processBatch, stopTimerLocked; cbn.
    destruct (timer x); cbn;
      (destruct (HandlerFunc (cfg x)) as [h|]; cbn; [|repeat split; reflexivity]);
      (destruct (h (batch x)) as [[f|] e]; cbn; [|repeat split; reflexivity]);
      unfold recordFeedback; cbn;
      destruct (len (recentFeedback x ++ [f]) >? maxFeedbackLen x); cbn;
      repeat split; reflexivity.
Qed.

Lemma Flush_handled : forall x : Batcher Item, concat (handled (Flush x)) = batch x.
Proof.
  intro x; rewrite Flush_unfold.
  destruct (len (batch x) =? 0) eqn:E; cbn [handled concat].
  - symmetry; apply len_nil_iff, Z.eqb_eq, E.
  - apply app_nil_r.
Qed.

(** What [CloseWith] returns with, in terms of the state [b1] that the
    critical sections inside it have left. *)
Lemma CloseWith_open : forall (b : Batcher Item) inside,
  closed b = false ->
  let b1 := run (set_closed b) inside in
  let o := CloseWith inside b in
  o = Flush (stop_adjusting b1) /\
  closed b1 = true /\ cfg b1 = cfg b /\
  (forallb (fun e => negb (is_adjust e)) inside = true ->
   currentBatchSize b1 = currentBatchSize b).
Proof.
  intros b inside Hopen b1 o; subst b1 o; unfold CloseWith; rewrite Hopen.
  split; [reflexivity|].
  split; [apply run_closed; reflexivity|].
  split; [rewrite run_cfg; reflexivity|].
  intro Hev; rewrite (run_no_adjust _ _ Hev); reflexivity.
Qed.

(** X5.  The first [Close] of an open batcher, with whatever critical
    sections other goroutines run inside it: its final flush hands over and
    returns what a [Flush] of the state they left would, so that every item
    pending at the call reaches the handler once and in order, through a
    flush that ran inside or through the final one.  It leaves the batcher
    closed, the controller stopped, the buffer empty and the configuration
    unchanged.  The size it returns with is the size the controller left:
    the size from before the call when no tick ran inside.  With nothing
    inside it is [Close]. *)
Theorem Close_flushes_pending : forall (b : Batcher Item) inside,
  closed b = false ->
  let b1 := run (set_closed b) inside in
  let o := CloseWith inside b in
  handled o = handled (Flush b1) /\
  returned o = returned (Flush b1) /\
  recentFeedback (state o) = recentFeedback (state (Flush b1)) /\
  concat (detached (set_closed b) inside) ++ concat (handled o) = batch b /\
  batch (state o) = [] /\ closed (state o) = true /\
  adjusting (state o) = false /\ cfg (state o) = cfg b /\
  currentBatchSize (state o) = currentBatchSize b1 /\
  (forallb (fun e => negb (is_adjust e)) inside = true ->
   currentBatchSize (state o) = currentBatchSize b) /\
  (inside = [] -> o = Close b).
Proof.
  intros b inside Hopen b1 o.
  destruct (CloseWith_open b inside Hopen) as (Ho & Hc1 & Hcfg1 & Hsize1).
  fold b1 o in Ho, Hc1, Hcfg1, Hsize1.
  destruct (Flush_stopped b1) as (Hh & Hr & Hf & Hb & Hc & Ha & Hs & Hcfg).
  cbv zeta in *; rewrite <- Ho in *.
  split; [exact Hh|]; split; [exact Hr|]; split; [exact Hf|].
  split.
  { rewrite Hh, Flush_handled.
    apply (closed_run_conserves inside (set_closed b)); reflexivity. }
  split; [exact Hb|]; split; [rewrite Hc; exact Hc1|]; split; [exact Ha|].
  split; [rewrite Hcfg; exact Hcfg1|]; split; [exact Hs|].
  split; [intro Hev; rewrite Hs; exact (Hsize1 Hev)|].
  intros ->; subst o; unfold CloseWith, Close; rewrite Hopen; reflexivity.
Qed.

(** X7.  Once [Close] has returned the controller's goroutine is gone:
    whatever critical sections run afterwards, [GetCurrentBatchSize] keeps
    reporting the size [Close] returned with, and the batcher stays closed
    with the same configuration.  That size is the one the controller left
    when it exited: ticks may still run inside [Close], and it is the size
    from before the call when none did. *)
Theorem size_frozen_after_Close : forall (b : Batcher Item) inside evs,
  closed b = false ->
  let b1 := state (CloseWith inside b) in
  let b' := run b1 evs in
  GetCurrentBatchSize b' = GetCurrentBatchSize b1 /\
  closed b' = true /\ adjusting b' = false /\ cfg b' = cfg b /\
  GetCurrentBatchSize b1 = GetCurrentBatchSize (run (set_closed b) inside) /\
  (forallb (fun e => negb (is_adjust e)) inside = true ->
   GetCurrentBatchSize b' = GetCurrentBatchSize b).
Proof.
  intros b inside evs Hopen b1 b'; subst b1 b'; unfold GetCurrentBatchSize.
  destruct (CloseWith_open b inside Hopen) as (Ho & Hc1 & Hcfg1 & Hsize1).
  cbv zeta in *; rewrite Ho.
  destruct (Flush_stopped (run (set_closed b) inside))
    as (_ & _ & _ & _ & Hc & Ha & Hs & Hcfg).
  cbv zeta in *.
  destruct (run_stopped evs _ Ha) as [Ha' Hs'].
  rewrite Hs', Hs, run_cfg, Hcfg, Hcfg1.
  split; [reflexivity|].
  split; [apply run_closed; rewrite Hc; exact Hc1|].
  split; [exact Ha'|]; split; [reflexivity|]; split; [reflexivity|].
  exact Hsize1.
Qed.

Lemma step_no_feedback : forall (b : Batcher Item) e,
  recentFeedback b = [] -> is_record e = false ->
  recentFeedback (fst (step b e)) = [] /\
  currentBatchSize (fst (step b e)) = currentBatchSize b.
Proof.
  intros b e Hr He; destruct e as [item| | | |fb|]; cbn [step]; try discriminate He.
  - unfold Add_locked, detachBatchLocked, stopTimerLocked, startTimerLocked.
    destruct (closed b); [auto|]; cbn.
    repeat match goal with
           | |- context [if ?c then _ else _] => destruct c
           end; cbn; try destruct (timer b); cbn; auto.
  - unfold Flush_locked, detachBatchLocked, stopTimerLocked.
    destruct (len (batch b) =? 0); cbn; [auto|].
    destruct (timer b); cbn; auto.
  - destruct (closed b); cbn; auto.
  - destruct (closed b); cbn; auto.
  - destruct (adjusting b); cbn [fst]; [|auto].
    unfold adjustBatchSize; rewrite Hr; cbn; auto.
Qed.

(** X8.  While no feedback has been recorded the controller leaves the size
    alone: from a state with an empty ring, any critical sections other than
    the recording of feedback keep the size and the ring as they are. *)
Theorem no_feedback_no_adjustment : forall evs (b : Batcher Item),
  recentFeedback b = [] ->
  forallb (fun e => negb (is_record e)) evs = true ->
  currentBatchSize (run b evs) = currentBatchSize b /\
  recentFeedback (run b evs) = [].
Proof.
  induction evs as [|e evs IH]; intros b Hr Hev; cbn [run]; [auto|].
  cbn in Hev; apply andb_true_iff in Hev as [He Hev].
  apply negb_true_iff in He.
  destruct (step_no_feedback b e Hr He) as [Hr' Hs].
  destruct (IH _ Hr' Hev) as [Hs' Hr'']; rewrite Hs', Hs; auto.
Qed.

End Loop.

(** ** The feedback ring as a sliding window *)

Section Window.

Variable Item : Type.
Context {platform : Platform}.

Lemma lastn_all : forall A n (l : list A), (length l <= n)%nat -> lastn n l = l.
Proof.
  intros A n l H; unfold lastn.
  replace (length l - n)%nat with 0%nat by lia; reflexivity.
Qed.

Lemma lastn_app_lastn : forall A n (l m : list A),
  lastn n (lastn n l ++ m) = lastn n (l ++ m).
Proof.
  intros A n l m.
  destruct (Nat.le_gt_cases (length l) n) as [Hle | Hgt].
  - rewrite (lastn_all l Hle); reflexivity.
  - unfold lastn. rewrite !length_app, length_skipn.
    replace (length l - (length l - n) + length m - n)%nat with (length m) by lia.
    replace (length l + length m - n)%nat with (length m + (length l - n))%nat by lia.
    rewrite <- (skipn_skipn (length m) (length l - n) (l ++ m)).
    rewrite (skipn_app (length l - n) l m).
    replace (length l - n - length l)%nat with 0%nat by lia.
    reflexivity.
Qed.

(** Recording into a ring of window 10 keeps the last 10 records. *)
Lemma recordFeedback_lastn : forall (b : Batcher Item) fb,
  maxFeedbackLen b = 10 -> len (recentFeedback b) <= 10 ->
  recentFeedback (recordFeedback b fb) = lastn 10 (recentFeedback b ++ [fb]).
Proof.
  intros b fb Hw Hr; unfold recordFeedback, lastn.
  rewrite len_app, Hw; change (len [fb]) with 1.
  rewrite length_app; cbn [length].
  unfold len in *.
  destruct (Z.of_nat (length (recentFeedback b)) + 1 >? 10) eqn:E; bools;
    cbn [recentFeedback set_recentFeedback].
  - replace (length (recentFeedback b) + 1 - 10)%nat with 1%nat by lia.
    destruct (recentFeedback b); reflexivity.
  - replace (length (recentFeedback b) + 1 - 10)%nat with 0%nat by lia.
    reflexivity.
Qed.

Lemma step_ring : forall (b : Batcher Item) e,
  recentFeedback (fst (step b e))
  = match e with
    | EvRecord fb => recentFeedback (recordFeedback b fb)
    | _ => recentFeedback b
    end.
Proof.
  intros b e; destruct e as [item| | | |fb|]; cbn [step].
  - unfold Add_locked, detachBatchLocked, stopTimerLocked, startTimerLocked.
    destruct (closed b); [reflexivity|]; cbn.
    repeat match goal with
           | |- context [if ?c then _ else _] => destruct c
           end; cbn; try destruct (timer b); reflexivity.
  - unfold Flush_locked, detachBatchLocked, stopTimerLocked.
    destruct (len (batch b) =? 0); cbn; [reflexivity|].
    destruct (timer b); reflexivity.
  - destruct (closed b); reflexivity.
  - destruct (closed b); reflexivity.
  - reflexivity.
  - destruct (adjusting b); cbn [fst]; [|reflexivity].
    apply adjustBatchSize_frame.
Qed.

(** X9.  The feedback ring is a sliding window over the recorded feedback:
    after any run of a batcher built by [New] it holds the last ten of the
    records it held before followed by those recorded during the run, in
    order of recording. *)
Theorem ring_is_sliding_window : forall evs (b : Batcher Item),
  reachable b ->
  recentFeedback (run b evs) = lastn 10 (recentFeedback b ++ recorded evs).
Proof.
  induction evs as [|e evs IH]; intros b Hb; cbn [run].
  - destruct (reachable_Inv Hb) as [_ _ _ _ Hw Hr _].
    cbn [recorded]; rewrite app_nil_r, lastn_all; [reflexivity|].
    unfold len in Hr; lia.
  - rewrite (IH _ (reach_step e Hb)), step_ring.
    destruct (reachable_Inv Hb) as [_ _ _ _ Hw Hr _].
    destruct e as [item| | | |fb|]; cbn [recorded]; try reflexivity.
    rewrite recordFeedback_lastn by lia.
    rewrite lastn_app_lastn, <- app_assoc; reflexivity.
Qed.

End Window.

(** ** The statistics *)

Section Statistics.

Variable Item : Type.
Context {platform : Platform}.

Lemma sum_scores_pos : forall r acc,
  fpos acc -> Forall nonneg_metrics r ->
  fpos (fold_left (fun acc f => (acc + LoadScore f)%float) r acc).
Proof.
  induction r as [|lf r IH]; intros acc Hacc Hall; cbn [fold_left]; [exact Hacc|].
  inversion Hall as [|? ? (Hc & He & Hq & Hl) Hall']; subst.
  apply IH; [|exact Hall'].
  apply fadd_pos; [exact Hacc|].
  left; apply LoadScore_sum_pos; auto using leb_zero_nonneg.
Qed.

(** The average over a ring of at most [2^53] records with non-negative
    metrics is not negative. *)
Lemma averageLoad_pos : forall r,
  1 <= len r < 2 ^ 53 -> Forall nonneg_metrics r -> fpos (averageLoad r).
Proof.
  intros r Hlen Hall; unfold averageLoad.
  destruct (float64_of_int_exact (len r) Hlen) as (mz & ez & Hn & _).
  eapply fdiv_const_pos; [exact Hn|].
  apply sum_scores_pos; [reflexivity | exact Hall].
Qed.

(** X10.  What [GetStats] reports of a batcher built by [New]: the size that
    [GetCurrentBatchSize] reports, inside the configured bounds; a pending
    count below the maximum size; a feedback count of at most 10; an average
    of exactly 0 while no feedback is stored, and a non-negative average when
    every stored record has non-negative metrics. *)
Theorem GetStats_within_bounds : forall b : Batcher Item,
  reachable b ->
  let s := GetStats b in
  CurrentBatchSize s = GetCurrentBatchSize b /\
  MinBatchSize (cfg b) <= CurrentBatchSize s <= MaxBatchSize (cfg b) /\
  0 <= PendingItems s < MaxBatchSize (cfg b) /\
  0 <= RecentFeedbackSize s <= 10 /\
  (recentFeedback b = [] -> AverageLoadScore s = 0%float) /\
  (Forall nonneg_metrics (recentFeedback b) ->
   (0 <=? AverageLoadScore s)%float = true).
Proof.
  intros b Hb s; subst s.
  destruct (reachable_Inv Hb) as [_ Hlo Hhi Hp Hw Hr _].
  pose proof (len_nonneg (batch b)) as Hn.
  pose proof (len_nonneg (recentFeedback b)) as Hn'.
  unfold GetStats, GetCurrentBatchSize; cbn.
  repeat split; try lia.
  - intros ->; reflexivity.
  - intro Hall.
    destruct (len (recentFeedback b) >? 0) eqn:E; bools; [|reflexivity].
    apply fpos_leb_zero, averageLoad_pos; [|exact Hall].
    split; [lia|]. apply Z.le_lt_trans with 10; [lia | reflexivity].
Qed.

End Statistics.

(** ** The normal form of a configuration *)

Section NormalForm.

Variable Item : Type.
Context {platform : Platform}.

(** X11.  The configuration kept by a batcher is a fixed point of the
    validation and the defaults of [New]: building a batcher from it succeeds
    and gives the same configuration and the same starting state. *)
Theorem New_is_idempotent : forall (c : Config Item) b,
  New c = Ok b -> New (cfg b) = Ok b.
Proof.
  intros c b H; apply New_Ok_inv in H as (h & Hh & Hi & Hmm & ->).
  pose proof (minOrDefault_pos c) as Hmin.
  pose proof (clamp_bounds (InitialBatchSize c) Hmm) as Hcl.
  set (i := clamp (minOrDefault c) (maxOrDefault c) (InitialBatchSize c)) in *.
  unfold New; cbn [InitialBatchSize MinBatchSize MaxBatchSize HandlerFunc
                   AdjustmentFactor LoadCheckInterval Timeout cfg].
  replace (i <=? 0) with false by (symmetry; apply Z.leb_gt; lia).
  replace (minOrDefault c <=? 0) with false by (symmetry; apply Z.leb_gt; lia).
  replace (maxOrDefault c <=? 0) with false by (symmetry; apply Z.leb_gt; lia).
  replace (minOrDefault c >? maxOrDefault c) with false
    by (symmetry; rewrite Z.gtb_ltb; apply Z.ltb_ge; lia).
  replace (i <? minOrDefault c) with false by (symmetry; apply Z.ltb_ge; lia).
  replace (i >? maxOrDefault c) with false
    by (symmetry; rewrite Z.gtb_ltb; apply Z.ltb_ge; lia).
  assert (Hf : (factorOrDefault c <=? 0)%float = false).
  { unfold factorOrDefault.
    destruct (AdjustmentFactor c <=? 0)%float eqn:E; [reflexivity | exact E]. }
  assert (Ht : (intervalOrDefault c <=? 0) = false).
  { unfold intervalOrDefault, second.
    destruct (LoadCheckInterval c <=? 0) eqn:E; [reflexivity | exact E]. }
  rewrite Hf, Ht; reflexivity.
Qed.

End NormalForm.

(** ** Batches of a burst *)

Section Burst.

Variable Item : Type.
Context {platform : Platform}.

(** One [Add] below the size: either the buffer fills up and goes to the
    handler, or the item is kept. *)
Lemma Add_below_size : forall (b : Batcher Item) x,
  closed b = false -> len (batch b) < currentBatchSize b ->
  closed (state (Add b x)) = false /\
  currentBatchSize (state (Add b x)) = currentBatchSize b /\
  ((len (batch b) + 1 = currentBatchSize b /\
    handled (Add b x) = [batch b ++ [x]] /\ batch (state (Add b x)) = []) \/
   (len (batch b) + 1 < currentBatchSize b /\
    handled (Add b x) = [] /\ batch (state (Add b x)) = batch b ++ [x])).
Proof.
  intros b x Hopen Hlt.
  unfold Add, Add_locked, detachBatchLocked; rewrite Hopen.
  cbn [batch set_batch currentBatchSize cfg timer].
  rewrite len_app; change (len [x]) with 1.
  pose proof (len_nonneg (batch b)) as Hn.
  replace (len (batch b) + 1 =? 0) with false by (symmetry; apply Z.eqb_neq; lia).
  destruct (len (batch b) + 1 >=? currentBatchSize b) eqn:E; bools.
  - match goal with
    | |- context [processBatch ?s ?t] =>
      destruct (processBatch_keeps s t) as (Hb & _ & _ & Hc & Hs & _);
        destruct (processBatch s t) as [b'' e]
    end.
    cbn [fst state handled] in *; rewrite Hb, Hc, Hs.
    unfold stopTimerLocked; cbn; destruct (timer b); cbn;
      (split; [exact Hopen|]; split; [reflexivity|]; left; repeat split; lia).
  - unfold startTimerLocked.
    destruct ((len (batch b) =? 0) && (Timeout (cfg b) >? 0)
              && match timer b with None => true | Some _ => false end); cbn;
      (split; [exact Hopen|]; split; [reflexivity|]; right; repeat split; lia).
Qed.

Lemma addAll_fills : forall xs (b : Batcher Item),
  closed b = false -> len (batch b) < currentBatchSize b ->
  Forall (fun bt => len bt = currentBatchSize b) (handledAll b xs) /\
  concat (handledAll b xs) ++ batch (addAll b xs) = batch b ++ xs /\
  len (batch (addAll b xs)) < currentBatchSize b.
Proof.
  induction xs as [|x xs IH]; intros b Hopen Hlt; cbn [handledAll addAll fold_left].
  - cbn; rewrite app_nil_r; auto.
  - destruct (Add_below_size b x Hopen Hlt) as (Hopen' & Hs & Hcase).
    pose proof (len_nonneg (batch b)) as Hn.
    fold (addAll (state (Add b x)) xs).
    destruct Hcase as [(Hfull & Hh & Hb) | (Hbelow & Hh & Hb)].
    + destruct (IH (state (Add b x))) as (Hall & Hcat & Hrest);
        [exact Hopen' | rewrite Hb, Hs; change (@len Item []) with 0; lia |].
      rewrite Hs, Hb in *; rewrite Hh; cbn [app concat].
      split; [|split; [|exact Hrest]].
      * constructor; [rewrite len_app; change (len [x]) with 1; exact Hfull | exact Hall].
      * rewrite <- !app_assoc, Hcat; reflexivity.
    + destruct (IH (state (Add b x))) as (Hall & Hcat & Hrest);
        [exact Hopen' | rewrite Hb, Hs, len_app; change (len [x]) with 1; lia |].
      rewrite Hs, Hb in *; rewrite Hh; cbn [app].
      split; [exact Hall|]; split; [|exact Hrest].
      rewrite Hcat, <- app_assoc; reflexivity.
Qed.

Lemma len_concat_uniform : forall (l : list (list Item)) s,
  Forall (fun bt => len bt = s) l -> len (concat l) = s * len l.
Proof.
  induction 1 as [|bt l Hbt _ IH]; [cbn; lia|].
  cbn [concat]; rewrite len_app, IH, Hbt.
  unfold len; cbn [length]; lia.
Qed.

(** X12.  A burst of [Add] calls into an open batcher with an empty buffer,
    with no controller tick in between: the handler receives consecutive
    batches of exactly the current size, as many as the size goes into the
    number of items, and the remainder stays pending, in order. *)
Theorem burst_is_cut_into_batches : forall xs (b : Batcher Item),
  closed b = false -> batch b = [] -> 1 <= currentBatchSize b ->
  Forall (fun bt => len bt = currentBatchSize b) (handledAll b xs) /\
  concat (handledAll b xs) ++ batch (addAll b xs) = xs /\
  len (handledAll b xs) = len xs / currentBatchSize b /\
  len (batch (addAll b xs)) = len xs mod currentBatchSize b.
Proof.
  intros xs b Hopen Hb Hs.
  destruct (@addAll_fills xs b Hopen) as (Hall & Hcat & Hrest);
    [rewrite Hb; change (@len Item []) with 0; lia|].
  rewrite Hb in Hcat; cbn [app] in Hcat.
  split; [exact Hall|]; split; [exact Hcat|].
  pose proof (len_concat_uniform Hall) as Hlen.
  pose proof (f_equal (@len Item) Hcat) as Htot; rewrite len_app, Hlen in Htot.
  pose proof (len_nonneg (batch (addAll b xs))) as Hn.
  pose proof (len_nonneg (handledAll b xs)) as Hn'.
  symmetry in Htot.
  split.
  - apply Z.div_unique with (len (batch (addAll b xs))); [lia | exact Htot].
  - apply Z.mod_unique with (len (handledAll b xs)); [lia | exact Htot].
Qed.

End Burst.

(** ** The backend simulator *)

Section SimulatorFacts.

Variable Item : Type.
Context {platform : Platform}.

(** *** The simulator's [Min] against [math.Min] *)

Lemma SFcompare_defined : forall x y,
  x <> S754_nan -> y <> S754_nan -> exists c, SFcompare x y = Some c.
Proof.
  intros x y Hx Hy; destruct x, y; try congruence; cbn; eexists; reflexivity.
Qed.

(** Of two numbers, the one is below the other or the other is at most the
    one. *)
Lemma ltb_false_leb : forall x y,
  Prim2SF x <> S754_nan -> Prim2SF y <> S754_nan ->
  (x <? y)%float = false -> (y <=? x)%float = true.
Proof.
  intros x y Hx Hy; rewrite FloatAxioms.ltb_spec, FloatAxioms.leb_spec.
  unfold SFltb, SFleb; rewrite (SFcompare_swap (Prim2SF x) (Prim2SF y)).
  destruct (SFcompare_defined Hx Hy) as [c ->].
  destruct c; cbn; congruence.
Qed.

Lemma Prim2SF_neg_infinity : Prim2SF neg_infinity = S754_infinity true.
Proof. vm_compute. reflexivity. Qed.

(** X13.  The simulator's own [Min] returns one of its arguments, and the
    second one when either argument is NaN; [math.Min] returns NaN for a NaN
    first argument unless the second is minus infinity.  On arguments that
    are not NaN the two agree up to the sign of a zero result. *)
Theorem Min_against_math_Min : forall a b,
  (Simulator.Math.Min a b = a \/ Simulator.Math.Min a b = b) /\
  (Prim2SF a = S754_nan -> Simulator.Math.Min a b = b) /\
  (Prim2SF b = S754_nan -> Simulator.Math.Min a b = b) /\
  (Prim2SF a = S754_nan -> Prim2SF b <> S754_infinity true ->
   Prim2SF (math_Min a b) = S754_nan) /\
  (Prim2SF a <> S754_nan -> Prim2SF b <> S754_nan ->
   same_number (Simulator.Math.Min a b) (math_Min a b)).
Proof.
  intros a b; unfold Simulator.Math.Min.
  split; [destruct (a <? b)%float; auto|].
  split; [|split; [|split]].
  - intro Ha; rewrite FloatAxioms.ltb_spec, Ha; reflexivity.
  - intro Hb; rewrite FloatAxioms.ltb_spec, Hb.
    destruct (Prim2SF a); reflexivity.
  - intros Ha Hb; unfold math_Min; rewrite Ha.
    destruct (Prim2SF b) as [sb|[]| |sb mb eb]; try congruence;
      vm_compute; reflexivity.
  - intros Ha Hb; unfold math_Min.
    pose proof (FloatAxioms.ltb_spec a b) as Hlt.
    pose proof (@Prim2SF_inj a neg_infinity) as Hia.
    pose proof (@Prim2SF_inj b neg_infinity) as Hib.
    rewrite Prim2SF_neg_infinity in Hia, Hib.
    destruct (Prim2SF a) as [sa|[]| |sa ma ea] eqn:Ea;
      destruct (Prim2SF b) as [sb|[]| |sb mb eb] eqn:Eb;
      try congruence; cbn in Hlt;
      try (left; reflexivity);
      try (rewrite Hlt; left; auto; fail).
    rewrite Hlt; destruct sa; [right; split; eexists; eassumption | left; reflexivity].
Qed.

(** *** [updateLoad] *)

(** What [updateLoad] leaves alone, and where its draws come from. *)
Lemma updateLoad_frame : forall now b r,
  Simulator.same_queue b (fst (Simulator.updateLoad now b r)) /\
  Simulator.int_at (snd (Simulator.updateLoad now b r)) = Simulator.int_at r /\
  Simulator.float_at (snd (Simulator.updateLoad now b r)) = Simulator.float_at r /\
  exists i,
    Simulator.dbLocks (fst (Simulator.updateLoad now b r))
    = if Simulator.queueDepth b >? 100
      then wrap64 (20 + Simulator.int_at r i 30)
      else Simulator.int_at r i 10.
Proof.
  intros now b r; unfold Simulator.updateLoad.
  match goal with
  | |- context [match ?X with pair _ _ => _ end] => set (P := X)
  end.
  assert (HP : Simulator.same_queue b (fst P) /\
               Simulator.int_at (snd P) = Simulator.int_at r /\
               Simulator.float_at (snd P) = Simulator.float_at r).
  { subst P; unfold Simulator.same_queue, Simulator.Float64, Simulator.Intn.
    repeat match goal with
           | |- context [if ?c then _ else _] => destruct c
           end; cbn [fst snd]; repeat split. }
  destruct P as [b1 r1]; cbn [fst snd] in HP.
  destruct HP as ((Hq & Hp & Hm & Htp & Htb & Hte) & Hi & Hf).
  rewrite Hq; unfold Simulator.Intn, Simulator.same_queue.
  destruct (Simulator.queueDepth b >? 100); cbn [fst snd];
    (split; [repeat split; assumption|]); (split; [exact Hi|]);
    (split; [exact Hf|]); exists (Simulator.cursor r1); rewrite Hi; reflexivity.
Qed.

(** X14.  After [updateLoad], whatever the pattern, the lock count depends
    on the queue depth only: from 20 to 49 above a depth of 100, from 0 to 9
    otherwise.  The count drawn by the spike pattern (30 to 69) is always
    overwritten.  The queue depth, the pattern and the counters are not
    touched. *)
Theorem updateLoad_lock_count : forall now b r,
  Simulator.fair r ->
  let b' := fst (Simulator.updateLoad now b r) in
  (if Simulator.queueDepth b >? 100
   then 20 <= Simulator.dbLocks b' < 50
   else 0 <= Simulator.dbLocks b' < 10) /\
  Simulator.queueDepth b' = Simulator.queueDepth b /\
  Simulator.loadPattern b' = Simulator.loadPattern b /\
  Simulator.totalProcessed b' = Simulator.totalProcessed b /\
  Simulator.totalBatches b' = Simulator.totalBatches b /\
  Simulator.totalErrors b' = Simulator.totalErrors b.
Proof.
  intros now b r [_ Hint] b'; subst b'.
  destruct (updateLoad_frame now b r)
    as ((Hq & Hp & _ & Htp & Htb & Hte) & _ & _ & i & Hk).
  split; [|repeat split; assumption].
  rewrite Hk; destruct (Simulator.queueDepth b >? 100).
  - pose proof (Hint i 30 ltac:(lia)) as H.
    rewrite wrap64_id by (unfold min_int64, max_int64; lia). lia.
  - exact (Hint i 10 ltac:(lia)).
Qed.

Lemma Min_le_r : forall a c,
  (c <=? c)%float = true -> (Simulator.Math.Min a c <=? c)%float = true.
Proof.
  intros a c Hc; unfold Simulator.Math.Min.
  destruct (a <? c)%float eqn:E; [|exact Hc].
  rewrite FloatAxioms.leb_spec; rewrite FloatAxioms.ltb_spec in E.
  apply SFltb_leb, E.
Qed.

Lemma Min_pos : forall a c, fpos a -> fpos c -> fpos (Simulator.Math.Min a c).
Proof.
  intros a c Ha Hc; unfold Simulator.Math.Min; destruct (a <? c)%float; assumption.
Qed.

Lemma updateLoad_gradual : forall now b r,
  Simulator.loadPattern b = Simulator.PatternGradual ->
  let increase := (float64_of_int (Simulator.totalBatches b) * Simulator.f0_001)%float in
  Simulator.cpuLoad (fst (Simulator.updateLoad now b r))
    = Simulator.Math.Min (f0_2 + increase)%float Simulator.f0_95 /\
  Simulator.errorRate (fst (Simulator.updateLoad now b r))
    = Simulator.Math.Min (Simulator.f0_01 + increase * f0_05)%float f0_2.
Proof.
  intros now b r Hp; unfold Simulator.updateLoad; rewrite Hp.
  change (Simulator.PatternGradual =? Simulator.PatternConstant) with false.
  change (Simulator.PatternGradual =? Simulator.PatternSineWave) with false.
  change (Simulator.PatternGradual =? Simulator.PatternSpikes) with false.
  change (Simulator.PatternGradual =? Simulator.PatternGradual) with true.
  cbv iota; unfold Simulator.Intn.
  destruct (Simulator.queueDepth _ >? 100); split; reflexivity.
Qed.

(** X15.  Under the gradual pattern [updateLoad] caps the CPU load at 0.95
    and the error rate at 0.2, however many batches have been counted; while
    the batch counter is not negative, neither of the two is negative. *)
Theorem gradual_load_is_capped : forall now b r,
  Simulator.loadPattern b = Simulator.PatternGradual ->
  let b' := fst (Simulator.updateLoad now b r) in
  (Simulator.cpuLoad b' <=? Simulator.f0_95)%float = true /\
  (Simulator.errorRate b' <=? f0_2)%float = true /\
  (0 <= Simulator.totalBatches b ->
   (0 <=? Simulator.cpuLoad b')%float = true /\
   (0 <=? Simulator.errorRate b')%float = true).
Proof.
  intros now b r Hp b'; subst b'.
  destruct (updateLoad_gradual now b r Hp) as [-> ->].
  split; [apply Min_le_r; vm_compute; reflexivity|].
  split; [apply Min_le_r; vm_compute; reflexivity|].
  intro Htb.
  assert (Hinc : fpos (float64_of_int (Simulator.totalBatches b) * Simulator.f0_001)).
  { eapply fmul_const_pos; [vm_compute; reflexivity|].
    apply float64_of_int_pos, Htb. }
  split; apply fpos_leb_zero, Min_pos; try (vm_compute; reflexivity).
  - apply fadd_pos; [vm_compute; reflexivity | left; exact Hinc].
  - apply fadd_pos; [vm_compute; reflexivity|].
    left; eapply fmul_const_pos; [vm_compute; reflexivity | exact Hinc].
Qed.

(** *** [ProcessBatch] *)

Lemma countErrors_frame : forall n errors b r,
  let res := Simulator.countErrors n errors b r in
  Simulator.cpuLoad (snd (fst res)) = Simulator.cpuLoad b /\
  Simulator.queueDepth (snd (fst res)) = Simulator.queueDepth b /\
  Simulator.dbLocks (snd (fst res)) = Simulator.dbLocks b /\
  Simulator.errorRate (snd (fst res)) = Simulator.errorRate b /\
  Simulator.loadPattern (snd (fst res)) = Simulator.loadPattern b /\
  Simulator.totalBatches (snd (fst res)) = Simulator.totalBatches b /\
  Simulator.cursor (snd res) = (Simulator.cursor r + n)%nat.
Proof.
  induction n as [|n IH]; intros errors b r; cbn [Simulator.countErrors].
  - cbn; repeat split; lia.
  - unfold Simulator.Float64.
    destruct (Simulator.float_at r (Simulator.cursor r) <? Simulator.errorRate b)%float;
      match goal with
      | |- context [Simulator.countErrors n ?e ?b' ?r'] =>
        destruct (IH e b' r') as (H1 & H2 & H3 & H4 & H5 & H6 & H7)
      end; cbv zeta; rewrite H1, H2, H3, H4, H5, H6, H7; cbn; repeat split; lia.
Qed.

(** Each iteration of the loop counts its item once. *)
Lemma countErrors_counts : forall n errors b r,
  0 <= errors -> 0 <= Simulator.totalProcessed b -> 0 <= Simulator.totalErrors b ->
  errors + Z.of_nat n <= max_int64 ->
  Simulator.totalProcessed b + Simulator.totalErrors b + Z.of_nat n <= max_int64 ->
  let res := Simulator.countErrors n errors b r in
  errors <= fst (fst res) <= errors + Z.of_nat n /\
  Simulator.totalErrors (snd (fst res)) - Simulator.totalErrors b
    = fst (fst res) - errors /\
  Simulator.totalProcessed (snd (fst res)) - Simulator.totalProcessed b
    = Z.of_nat n - (fst (fst res) - errors).
Proof.
  induction n as [|n IH]; intros errors b r He Hp Hte Hen Htot;
    cbn [Simulator.countErrors].
  - cbn; lia.
  - unfold Simulator.Float64.
    destruct (Simulator.float_at r (Simulator.cursor r) <? Simulator.errorRate b)%float.
    + rewrite !wrap64_id by (unfold min_int64, max_int64 in *; lia).
      match goal with
      | |- context [Simulator.countErrors n ?e ?b' ?r'] =>
        pose proof (IH e b' r') as IH'
      end.
      cbn in IH'; unfold max_int64 in *.
      destruct IH' as (H1 & H2 & H3); try lia; cbv zeta; lia.
    + rewrite !wrap64_id by (unfold min_int64, max_int64 in *; lia).
      match goal with
      | |- context [Simulator.countErrors n ?e ?b' ?r'] =>
        pose proof (IH e b' r') as IH'
      end.
      cbn in IH'; unfold max_int64 in *.
      destruct IH' as (H1 & H2 & H3); try lia; cbv zeta; lia.
Qed.

(** X16.  The second half of [ProcessBatch] never fails.  It counts every
    item of the batch once, as processed or as an error, and the batch once;
    the queue depth it reports is the backend's and is not negative, and the
    error rate it reports is not negative. *)
Theorem ProcessBatch_counts_every_item : forall elapsed (batch : list Item) b r,
  0 <= Simulator.totalProcessed b -> 0 <= Simulator.totalErrors b ->
  Simulator.totalProcessed b + Simulator.totalErrors b + len batch <= max_int64 ->
  exists fb b' r',
    Simulator.ProcessBatch_leave elapsed batch b r = ((Some fb, None), b', r') /\
    Simulator.totalProcessed b' + Simulator.totalErrors b'
      = Simulator.totalProcessed b + Simulator.totalErrors b + len batch /\
    Simulator.totalProcessed b <= Simulator.totalProcessed b' /\
    Simulator.totalErrors b <= Simulator.totalErrors b' /\
    Simulator.totalBatches b' = wrap64 (Simulator.totalBatches b + 1) /\
    0 <= QueueDepth fb /\ QueueDepth fb = Simulator.queueDepth b' /\
    CPULoad fb = Simulator.cpuLoad b /\ DBLocks fb = Simulator.dbLocks b /\
    ProcessingTime fb = elapsed /\
    (len batch < 2 ^ 53 -> (0 <=? ErrorRate fb)%float = true) /\
    Simulator.cursor r' = (Simulator.cursor r + length batch)%nat.
Proof.
  intros elapsed batch b r Hp He Htot; unfold Simulator.ProcessBatch_leave.
  set (q := wrap64 (Simulator.queueDepth b - len batch)).
  set (b1 := Simulator.set_totals _ _ _ _).
  pose proof (len_nonneg batch) as Hn.
  pose proof (countErrors_frame (length batch) 0 b1 r) as Hframe.
  pose proof (@countErrors_counts (length batch) 0 b1 r) as Hcount.
  cbv zeta in Hframe, Hcount.
  destruct (Simulator.countErrors (length batch) 0 b1 r) as [[errors b2] r2].
  cbn [fst snd] in Hframe, Hcount.
  destruct Hframe as (H1 & H2 & H3 & H4 & H5 & H6 & H7).
  destruct Hcount as (Hc1 & Hc2 & Hc3);
    try (subst b1; cbn; unfold len in *; unfold max_int64 in *; lia).
  subst b1; cbn in *.
  eexists _, b2, r2; split; [reflexivity|]; cbn.
  unfold len in *.
  repeat split; try lia; try assumption.
  - rewrite H2; destruct (q <? 0) eqn:E; bools; lia.
  - intro Hsmall.
    destruct (Z.of_nat (length batch) >? 0) eqn:E; bools; [|reflexivity].
    apply fpos_leb_zero.
    destruct (float64_of_int_exact (Z.of_nat (length batch))) as (mz & ez & Hz & _);
      [lia|].
    eapply fdiv_const_pos; [exact Hz|].
    apply float64_of_int_pos; lia.
Qed.


(** X17.  A [ProcessBatch] call that no other call interleaves with returns
    feedback and no error, and leaves the queue depth where it found it: the
    depth reported to the batcher is the depth before the call. *)
Theorem ProcessBatch_restores_queue : forall now elapsed (batch : list Item) b r,
  0 <= Simulator.queueDepth b ->
  Simulator.queueDepth b + len batch <= max_int64 ->
  exists fb b' r',
    Simulator.ProcessBatch now elapsed batch b r = ((Some fb, None), b', r') /\
    Simulator.queueDepth b' = Simulator.queueDepth b /\
    QueueDepth fb = Simulator.queueDepth b /\
    Simulator.loadPattern b' = Simulator.loadPattern b /\
    Simulator.totalBatches b' = wrap64 (Simulator.totalBatches b + 1).
Proof.
  intros now elapsed batch b r Hq Hfit.
  pose proof (len_nonneg batch) as Hn.
  unfold Simulator.ProcessBatch, Simulator.ProcessBatch_enter.
  set (b0 := Simulator.set_queueDepth b _).
  destruct (updateLoad_frame now b0 r) as ((Hq1 & Hp1 & _ & _ & Htb1 & _) & _).
  destruct (Simulator.updateLoad now b0 r) as [b1 r1]; cbn [fst snd] in *.
  destruct (Simulator.calculateProcessingTime (len batch) b1 r1) as [pt r2].
  unfold Simulator.ProcessBatch_leave.
  set (b2 := Simulator.set_totals _ _ _ _).
  pose proof (countErrors_frame (length batch) 0 b2 r2) as Hframe.
  cbv zeta in Hframe.
  destruct (Simulator.countErrors (length batch) 0 b2 r2) as [[errors b3] r3].
  cbn [fst snd] in Hframe.
  destruct Hframe as (_ & H2 & _ & _ & H5 & H6 & _).
  eexists _, b3, r3; split; [reflexivity|]; cbn [QueueDepth].
  rewrite H2, H5, H6; subst b2 b0; cbn in *.
  rewrite Hq1, Hp1, Htb1.
  rewrite (wrap64_id (Simulator.queueDepth b + len batch))
    by (unfold min_int64, max_int64 in *; lia).
  replace (Simulator.queueDepth b + len batch - len batch)
    with (Simulator.queueDepth b) by lia.
  rewrite wrap64_id by (unfold min_int64, max_int64 in *; lia).
  replace (Simulator.queueDepth b <? 0) with false by (symmetry; apply Z.ltb_ge; lia).
  repeat split; reflexivity.
Qed.

End SimulatorFacts.

(** ** The demos *)

Section DemoFacts.

Variable Item : Type.
Context {platform : Platform}.

(** X18.  Parsing the name of a pattern gives the pattern back, for the four
    patterns; the name of any other value parses as the spike pattern. *)
Theorem parseLoadPattern_String : forall lp : Simulator.LoadPattern,
  Demo.parseLoadPattern (Simulator.String lp)
  = if (0 <=? lp) && (lp <=? 3) then lp else Simulator.PatternSpikes.
Proof.
  intro lp; unfold Simulator.String.
  destruct (lp =? Simulator.PatternConstant) eqn:E0; bools; [subst; reflexivity|].
  destruct (lp =? Simulator.PatternSineWave) eqn:E1; bools; [subst; reflexivity|].
  destruct (lp =? Simulator.PatternSpikes) eqn:E2; bools; [subst; reflexivity|].
  destruct (lp =? Simulator.PatternGradual) eqn:E3; bools; [subst; reflexivity|].
  unfold Simulator.PatternConstant, Simulator.PatternSineWave,
    Simulator.PatternSpikes, Simulator.PatternGradual in *.
  replace ((0 <=? lp) && (lp <=? 3)) with false; [reflexivity|].
  symmetry; apply andb_false_iff.
  destruct (0 <=? lp) eqn:Ea; [right; apply Z.leb_gt; bools; lia | left; reflexivity].
Qed.

Lemma string_length_append : forall s t,
  String.length (String.append s t) = (String.length s + String.length t)%nat.
Proof.
  induction s as [|c s IH]; intro t; cbn; [reflexivity | rewrite IH; reflexivity].
Qed.

(** X19.  [repeat s n] is [n] copies of [s]: it is as long as [n] times the
    length of [s], it is empty when [n] is not positive, and one more round
    appends one more copy. *)
Theorem repeat_copies : forall s n,
  String.length (Demo.repeat s n) = (Z.to_nat n * String.length s)%nat /\
  (n <= 0 -> Demo.repeat s n = String.EmptyString) /\
  (0 <= n -> Demo.repeat s (n + 1) = String.append (Demo.repeat s n) s).
Proof.
  intros s n; unfold Demo.repeat; split; [|split].
  - induction (Z.to_nat n) as [|k IH]; [reflexivity|].
    rewrite Nat.iter_succ, string_length_append, IH; lia.
  - intro Hn; replace (Z.to_nat n) with 0%nat by lia; reflexivity.
  - intro Hn; replace (Z.to_nat (n + 1)) with (S (Z.to_nat n)) by lia; reflexivity.
Qed.

Lemma fnonneg_leb_zero : forall x, fnonneg x -> (0 <=? x)%float = true.
Proof.
  intros x [H | H]; [apply fpos_leb_zero, H|].
  rewrite FloatAxioms.leb_spec, H; reflexivity.
Qed.


(** Above 1 is not below 0. *)
Lemma above_one_not_below_zero : forall x,
  (1 <? x)%float = true -> (x <? 0)%float = false.
Proof.
  intros x; rewrite !FloatAxioms.ltb_spec, Prim2SF_one.
  change (Prim2SF 0) with (S754_zero false).
  unfold SFone; destruct (Prim2SF x) as [s|[]| |[] m e]; cbn; congruence.
Qed.

(** X20.  [SetLoad] maps a load below 0 to 0 and a load above 1 to 1, and
    stores a load between 0 and 1 as it is, so that the stored load is
    between 0 and 1 whenever the argument is a number.  A NaN is stored as it
    is.  No other field changes. *)
Theorem SetLoad_clamps : forall sd x,
  let l := WebDemo.currentLoad (WebDemo.SetLoad sd x) in
  ((x <? 0)%float = true -> l = 0%float) /\
  ((1 <? x)%float = true -> l = 1%float) /\
  ((0 <=? x)%float = true -> (x <=? 1)%float = true -> l = x) /\
  (Prim2SF x = S754_nan -> l = x) /\
  (Prim2SF x <> S754_nan -> (0 <=? l)%float = true /\ (l <=? 1)%float = true) /\
  WebDemo.itemsProcessed (WebDemo.SetLoad sd x) = WebDemo.itemsProcessed sd /\
  WebDemo.batchSize (WebDemo.SetLoad sd x) = WebDemo.batchSize sd /\
  WebDemo.running (WebDemo.SetLoad sd x) = WebDemo.running sd.
Proof.
  intros sd x l; subst l; unfold WebDemo.SetLoad; cbn.
  assert (H10 : (1 <? 0)%float = false) by (vm_compute; reflexivity).
  assert (H01 : (0 <=? 1)%float = true) by (vm_compute; reflexivity).
  assert (H00 : (0 <=? 0)%float = true) by (vm_compute; reflexivity).
  assert (H11 : (1 <=? 1)%float = true) by (vm_compute; reflexivity).
  assert (Hn0 : Prim2SF 0 <> S754_nan) by (vm_compute; discriminate).
  assert (Hn1 : Prim2SF 1 <> S754_nan) by (vm_compute; discriminate).
  split; [|split; [|split; [|split; [|split; [|repeat split]]]]].
  - intro Hx; rewrite Hx, H10; reflexivity.
  - intro Hx; rewrite (above_one_not_below_zero Hx), Hx; reflexivity.
  - intros Hx0 Hx1.
    rewrite (leb_not_ltb _ _ Hx0), (leb_not_ltb _ _ Hx1); reflexivity.
  - intro Hx.
    replace (x <? 0)%float with false
      by (symmetry; rewrite FloatAxioms.ltb_spec, Hx; reflexivity).
    replace (1 <? x)%float with false
      by (symmetry; rewrite FloatAxioms.ltb_spec, Hx; reflexivity).
    reflexivity.
  - intro Hx.
    destruct (x <? 0)%float eqn:E0; [rewrite H10; auto|].
    destruct (1 <? x)%float eqn:E1; [auto|].
    split; apply ltb_false_leb; assumption.
Qed.

Lemma int_of_unit_product : forall s c x,
  1 <= s < 2 ^ 53 -> float64_of_int s = c ->
  (0 <=? x)%float = true -> (x <=? 1)%float = true ->
  0 <= int_of_float64 (x * c) <= s.
Proof.
  intros s c x Hs <- H0 H1.
  destruct (unit_factor_product s x Hs H0 H1) as (t & _ & Htr & Ht).
  rewrite fmul_comm; unfold int_of_float64; rewrite Htr.
  replace (in_int64 t) with true; [exact Ht|].
  symmetry; apply in_int64_iff.
  unfold min_int64, max_int64.
  assert (2 ^ 53 <= 2 ^ 63 - 1) by (vm_compute; discriminate). lia.
Qed.

(** A record with non-negative metrics scores between 0 and 1. *)
Lemma LoadScore_unit : forall lf,
  nonneg_metrics lf ->
  (0 <=? LoadScore lf)%float = true /\ (LoadScore lf <=? 1)%float = true.
Proof.
  intros lf (Hc & He & Hq & Hl).
  assert (Hpos : fpos (LoadScore lf))
    by (apply LoadScore_sum_pos; auto using leb_zero_nonneg).
  split; [apply fpos_leb_zero, Hpos|].
  unfold LoadScore in *.
  match goal with
  | |- (math_Min ?s 1 <=? 1)%float = true =>
    destruct (math_Min_one_le s) as [Hnan | Hle]; [|exact Hle]
  end.
  unfold fpos in Hpos; rewrite Hnan in Hpos; contradiction.
Qed.

(** X21.  With a load between 0 and 1, as [SetLoad] leaves it, [handleBatch]
    returns no error and feedback in range: the load as CPU load, a queue
    depth from 0 to 50, a lock count from 0 to 30, a non-negative error rate,
    and hence a load score between 0 and 1.  It counts the items of the
    batch and keeps the load. *)
Theorem handleBatch_feedback_in_range : forall sd (batch : list Item),
  (0 <=? WebDemo.currentLoad sd)%float = true ->
  (WebDemo.currentLoad sd <=? 1)%float = true ->
  exists fb,
    snd (WebDemo.handleBatch sd batch) = (Some fb, None) /\
    CPULoad fb = WebDemo.currentLoad sd /\
    0 <= QueueDepth fb <= 50 /\ 0 <= DBLocks fb <= 30 /\
    nonneg_metrics fb /\
    (0 <=? LoadScore fb)%float = true /\ (LoadScore fb <=? 1)%float = true /\
    WebDemo.currentLoad (fst (WebDemo.handleBatch sd batch)) = WebDemo.currentLoad sd /\
    WebDemo.itemsProcessed (fst (WebDemo.handleBatch sd batch))
      = wrap64 (WebDemo.itemsProcessed sd + len batch).
Proof.
  intros sd batch H0 H1; unfold WebDemo.handleBatch; cbv zeta.
  eexists; split; [reflexivity|]; cbn [fst snd CPULoad QueueDepth DBLocks
    WebDemo.currentLoad WebDemo.itemsProcessed].
  assert (Hq : 0 <= int_of_float64 (WebDemo.currentLoad sd * f50) <= 50)
    by (apply int_of_unit_product; [lia | vm_compute; reflexivity | assumption..]).
  assert (Hl : 0 <= int_of_float64 (WebDemo.currentLoad sd * WebDemo.f30) <= 30)
    by (apply int_of_unit_product; [lia | vm_compute; reflexivity | assumption..]).
  assert (Hm : nonneg_metrics
                 {| CPULoad := WebDemo.currentLoad sd;
                    QueueDepth := int_of_float64 (WebDemo.currentLoad sd * f50);
                    ProcessingTime :=
                      int_of_float64
                        (float64_of_int (len batch) * (1 + WebDemo.currentLoad sd * WebDemo.f3)
                         * float64_of_int Simulator.Millisecond);
                    ErrorRate := (WebDemo.currentLoad sd * f0_2)%float;
                    DBLocks := int_of_float64 (WebDemo.currentLoad sd * WebDemo.f30);
                    Custom := [] |}).
  { unfold nonneg_metrics; cbn [CPULoad ErrorRate QueueDepth DBLocks].
    repeat split; try lia; try assumption.
    apply fnonneg_leb_zero.
    eapply fmul_const_nonneg; [vm_compute; reflexivity | apply leb_zero_nonneg, H0]. }
  split; [reflexivity|]; split; [exact Hq|]; split; [exact Hl|].
  split; [exact Hm|].
  destruct (LoadScore_unit Hm) as [Hs0 Hs1].
  repeat split; assumption.
Qed.

End DemoFacts.

(** ** Feedback that is not a number *)

Section NotANumber.

Variable Item : Type.
Context {platform : Platform}.

Lemma fadd_nan_l : forall x y, Prim2SF x = S754_nan -> Prim2SF (x + y) = S754_nan.
Proof. intros x y H; rewrite FloatAxioms.add_spec, H; reflexivity. Qed.

Lemma fadd_nan_r : forall x y, Prim2SF y = S754_nan -> Prim2SF (x + y) = S754_nan.
Proof.
  intros x y H; rewrite FloatAxioms.add_spec, H; destruct (Prim2SF x); reflexivity.
Qed.

Lemma fmul_nan_l : forall x y, Prim2SF x = S754_nan -> Prim2SF (x * y) = S754_nan.
Proof. intros x y H; rewrite FloatAxioms.mul_spec, H; reflexivity. Qed.

Lemma fdiv_nan_l : forall x y, Prim2SF x = S754_nan -> Prim2SF (x / y) = S754_nan.
Proof. intros x y H; rewrite FloatAxioms.div_spec, H; reflexivity. Qed.

Lemma math_Min_one_nan : forall x,
  Prim2SF x = S754_nan -> Prim2SF (math_Min x 1) = S754_nan.
Proof.
  intros x H; pose proof (math_Min_one x) as Hm; rewrite H in Hm; rewrite Hm.
  vm_compute; reflexivity.
Qed.

(** A NaN CPU load or error rate makes the score NaN. *)
Lemma LoadScore_nan : forall lf,
  Prim2SF (CPULoad lf) = S754_nan \/ Prim2SF (ErrorRate lf) = S754_nan ->
  Prim2SF (LoadScore lf) = S754_nan.
Proof.
  intros lf [H | H]; unfold LoadScore; apply math_Min_one_nan.
  - do 3 apply fadd_nan_l. apply fadd_nan_r, fmul_nan_l, H.
  - apply fadd_nan_l, fadd_nan_r, fmul_nan_l, H.
Qed.

Lemma sum_nan_acc : forall r acc,
  Prim2SF acc = S754_nan ->
  Prim2SF (fold_left (fun acc f => (acc + LoadScore f)%float) r acc) = S754_nan.
Proof.
  induction r as [|lf r IH]; intros acc H; cbn [fold_left]; [exact H|].
  apply IH, fadd_nan_l, H.
Qed.

Lemma sum_nan : forall r acc,
  Exists (fun lf => Prim2SF (LoadScore lf) = S754_nan) r ->
  Prim2SF (fold_left (fun acc f => (acc + LoadScore f)%float) r acc) = S754_nan.
Proof.
  induction r as [|lf r IH]; intros acc H; inversion H as [? ? Hlf | ? ? Hr]; subst;
    cbn [fold_left].
  - apply sum_nan_acc, fadd_nan_r, Hlf.
  - apply IH, Hr.
Qed.

Lemma averageLoad_nan : forall r,
  Exists (fun lf => Prim2SF (LoadScore lf) = S754_nan) r ->
  Prim2SF (averageLoad r) = S754_nan.
Proof. intros r H; unfold averageLoad; apply fdiv_nan_l, sum_nan, H. Qed.

(** X22.  A record whose score is NaN (a NaN CPU load or error rate gives
    one) makes the average NaN for as long as it is in the ring: [GetStats]
    reports NaN, and the controller, whose two comparisons both fail, leaves
    the size as it is. *)
Theorem nan_feedback_holds_size : forall b : Batcher Item,
  reachable b ->
  Exists (fun lf => Prim2SF (LoadScore lf) = S754_nan) (recentFeedback b) ->
  Prim2SF (AverageLoadScore (GetStats b)) = S754_nan /\
  currentBatchSize (adjustBatchSize b) = currentBatchSize b /\
  forall lf, Prim2SF (CPULoad lf) = S754_nan \/ Prim2SF (ErrorRate lf) = S754_nan ->
             Prim2SF (LoadScore lf) = S754_nan.
Proof.
  intros b Hb Hex.
  pose proof (averageLoad_nan Hex) as Havg.
  destruct (reachable_Inv Hb) as [_ Hlo Hhi _ _ _ _].
  assert (Hne : (len (recentFeedback b) =? 0) = false).
  { apply Z.eqb_neq; intro H0; apply len_nil_iff in H0.
    rewrite H0 in Hex; inversion Hex. }
  split; [|split; [|exact LoadScore_nan]].
  - unfold GetStats; cbn [AverageLoadScore].
    replace (len (recentFeedback b) >? 0) with true; [exact Havg|].
    symmetry; rewrite Z.gtb_ltb; apply Z.ltb_lt.
    pose proof (len_nonneg (recentFeedback b)); bools; lia.
  - unfold adjustBatchSize; rewrite Hne.
    replace (averageLoad (recentFeedback b) <? f0_25)%float with false
      by (symmetry; rewrite FloatAxioms.ltb_spec, Havg; reflexivity).
    replace (f0_55 <? averageLoad (recentFeedback b))%float with false
      by (symmetry; rewrite FloatAxioms.ltb_spec, Havg, Prim2SF_f0_55; reflexivity).
    cbn [currentBatchSize set_currentBatchSize].
    replace (currentBatchSize b <? MinBatchSize (cfg b)) with false
      by (symmetry; apply Z.ltb_ge; lia).
    replace (currentBatchSize b >? MaxBatchSize (cfg b)) with false
      by (symmetry; rewrite Z.gtb_ltb; apply Z.ltb_ge; lia).
    reflexivity.
Qed.

End NotANumber.

(** ** Further scenarios, evaluated *)

Section MoreScenarios.

#[local] Existing Instance amd64.

(** A state of the adaptive-sizing test with seven items pending. *)
Lemma busy_state_reachable : forall b0,
  New (testConfig busy) = Ok b0 -> reachable (addAll b0 (items 0 27)).
Proof.
  intros b0 H; apply addAll_reachable; apply reach_New with (testConfig busy); exact H.
Qed.

(** From that state, three more items and a flush: the flush detaches a
    batch of ten. *)
Lemma detached_batches_sized_witness :
  exists b0, New (testConfig busy) = Ok b0 /\
    let b := addAll b0 (items 0 27) in
    Forall (fun bt => 1 <= len bt <= MaxBatchSize (cfg b))
           (detached b [EvAdd 27; EvAdd 28; EvAdd 29; EvFlush]).
Proof.
  eexists; split; [reflexivity|]; cbv zeta.
  set (b := addAll (Item := Z) _ (items 0 27)).
  pose proof (busy_state_reachable (b0 := _) eq_refl) as Hreach.
  exact (@detached_batches_sized Z amd64 [EvAdd 27; EvAdd 28; EvAdd 29; EvFlush] b Hreach).
Defined.

(** The timeout test: five items pending under a 50 ms timeout. *)
Lemma timer_armed_iff_pending_witness :
  exists b0, New timeoutConfig = Ok b0 /\
    let b := addAll b0 (items 0 5) in
    timer b = Some 50000000.
Proof.
  eexists; split; [reflexivity|]; cbv zeta.
  set (b := addAll (Item := Z) _ (items 0 5)).
  assert (Hreach : reachable b)
    by (apply addAll_reachable; apply reach_New with timeoutConfig; reflexivity).
  assert (Ht : 0 < Timeout (cfg b)) by (vm_compute; reflexivity).
  assert (Hne : batch b <> []) by (vm_compute; discriminate).
  pose proof (@timer_armed_iff_pending Z amd64 b Hreach) as H.
  destruct H as (_ & _ & _ & H); exact (H Ht Hne).
Defined.

(** A [Close] with one controller tick inside: the tick halves the size,
    and the seven pending items still reach the handler. *)
Lemma Close_flushes_pending_witness :
  exists b0, New (testConfig busy) = Ok b0 /\
    let b := addAll b0 (items 0 27) in
    let o := CloseWith [EvAdjust] b in
    concat (detached (set_closed b) [EvAdjust]) ++ concat (handled o) = batch b /\
    batch (state o) = [] /\
    currentBatchSize (state o) = currentBatchSize (run (set_closed b) [EvAdjust]) /\
    currentBatchSize b = 20 /\ currentBatchSize (state o) = 10.
Proof.
  eexists; split; [reflexivity|]; cbv zeta.
  set (b := addAll (Item := Z) _ (items 0 27)).
  assert (Hopen : closed b = false) by (vm_compute; reflexivity).
  pose proof (@Close_flushes_pending Z amd64 b [EvAdjust] Hopen) as H.
  destruct H as (_ & _ & _ & H1 & H2 & _ & _ & _ & H3 & _).
  split; [exact H1|]; split; [exact H2|]; split; [exact H3|].
  split; vm_compute; reflexivity.
Defined.

(** The twentieth item fills a batch whose handler fails. *)
Lemma failed_batch_is_not_kept_witness :
  exists b0, New failingConfig = Ok b0 /\
    let b := addAll b0 (items 0 19) in
    returned (Add b 19) = Some (HandlerError 7) /\
    handled (Add b 19) = [batch b ++ [19]] /\ batch (state (Add b 19)) = [].
Proof.
  eexists; split; [reflexivity|]; cbv zeta.
  set (b := addAll (Item := Z) _ (items 0 19)).
  assert (Hret : returned (Add b 19) = Some (HandlerError 7)) by (vm_compute; reflexivity).
  assert (Hopen : closed b = false) by (vm_compute; reflexivity).
  pose proof (@failed_batch_is_not_kept Z b 19 (HandlerError 7) Hret) as H.
  destruct H as [(Hc & _) | (_ & Hh & Hb & _)].
  - rewrite Hopen in Hc; discriminate Hc.
  - split; [exact Hret|]; split; [exact Hh | exact Hb].
Defined.

Lemma size_frozen_after_Close_witness :
  exists b0, New (testConfig busy) = Ok b0 /\
    let b := addAll b0 (items 0 27) in
    let b1 := state (CloseWith [EvAdjust] b) in
    GetCurrentBatchSize (run b1 [EvAdjust; EvRecord idle; EvAdjust; EvAdd 28])
    = GetCurrentBatchSize b1 /\
    GetCurrentBatchSize
      (run (state (CloseWith [EvFlush] b)) [EvAdjust; EvRecord idle; EvAdjust])
    = GetCurrentBatchSize b.
Proof.
  eexists; split; [reflexivity|]; cbv zeta.
  set (b := addAll (Item := Z) _ (items 0 27)).
  assert (Hopen : closed b = false) by (vm_compute; reflexivity).
  assert (Hev : forallb (fun e => negb (is_adjust e)) [@EvFlush Z] = true)
    by reflexivity.
  pose proof (@size_frozen_after_Close Z amd64 b [EvAdjust]
                [EvAdjust; EvRecord idle; EvAdjust; EvAdd 28] Hopen) as H.
  pose proof (@size_frozen_after_Close Z amd64 b [EvFlush]
                [EvAdjust; EvRecord idle; EvAdjust] Hopen) as H'.
  destruct H as [H _]; destruct H' as (_ & _ & _ & _ & _ & H').
  split; [exact H | exact (H' Hev)].
Defined.

Lemma no_feedback_no_adjustment_witness :
  exists b0, New (testConfig busy) = Ok b0 /\
    currentBatchSize (run b0 [EvAdd 1; EvAdjust; EvFlush; EvAdjust])
    = currentBatchSize b0.
Proof.
  eexists; split; [reflexivity|].
  match goal with |- currentBatchSize (run ?x _) = _ => set (b := x) end.
  assert (Hr : recentFeedback b = []) by reflexivity.
  assert (Hev : forallb (fun e => negb (is_record e))
                        [EvAdd 1; EvAdjust; EvFlush; @EvAdjust Z] = true)
    by reflexivity.
  pose proof (@no_feedback_no_adjustment Z amd64
                [EvAdd 1; EvAdjust; EvFlush; EvAdjust] b Hr Hev) as H.
  destruct H as [H _]; exact H.
Defined.

(** Twelve recordings into a ring that holds one record: the ring keeps the
    last ten. *)
Lemma ring_is_sliding_window_witness :
  exists b0, New (testConfig busy) = Ok b0 /\
    let b := addAll b0 (items 0 27) in
    recentFeedback (run b (repeat (EvRecord hot) 12))
    = lastn 10 (recentFeedback b ++ recorded (Item := Z) (repeat (EvRecord hot) 12)).
Proof.
  eexists; split; [reflexivity|]; cbv zeta.
  set (b := addAll (Item := Z) _ (items 0 27)).
  pose proof (busy_state_reachable (b0 := _) eq_refl) as Hreach.
  exact (@ring_is_sliding_window Z amd64 (repeat (EvRecord hot) 12) b Hreach).
Defined.

Lemma GetStats_within_bounds_witness :
  exists b0, New (testConfig busy) = Ok b0 /\
    let b := addAll b0 (items 0 27) in
    0 <= PendingItems (GetStats b) < MaxBatchSize (cfg b) /\
    (0 <=? AverageLoadScore (GetStats b))%float = true.
Proof.
  eexists; split; [reflexivity|]; cbv zeta.
  set (b := addAll (Item := Z) _ (items 0 27)).
  pose proof (busy_state_reachable (b0 := _) eq_refl) as Hreach.
  assert (Hall : Forall nonneg_metrics (recentFeedback b)).
  { vm_compute; repeat constructor; discriminate. }
  pose proof (@GetStats_within_bounds Z amd64 b Hreach) as H.
  destruct H as (_ & _ & Hp & _ & _ & Havg); split; [exact Hp | exact (Havg Hall)].
Defined.

Lemma New_is_idempotent_witness :
  exists b0, New (testConfig busy) = Ok b0 /\ New (cfg b0) = Ok b0.
Proof.
  eexists; split; [reflexivity|].
  exact (@New_is_idempotent Z (testConfig busy) _ eq_refl).
Defined.

(** Forty-five items at size 20: two batches, five items left. *)
Lemma burst_is_cut_into_batches_witness :
  exists b0, New (testConfig busy) = Ok b0 /\
    len (handledAll b0 (items 0 45)) = 45 / 20 /\
    len (batch (addAll b0 (items 0 45))) = 45 mod 20.
Proof.
  eexists; split; [reflexivity|].
  match goal with |- len (handledAll ?x _) = _ /\ _ => set (b := x) end.
  assert (Hopen : closed b = false) by reflexivity.
  assert (Hb : batch b = []) by reflexivity.
  assert (Hs : 1 <= currentBatchSize b) by (vm_compute; discriminate).
  pose proof (@burst_is_cut_into_batches Z (items 0 45) b Hopen Hb Hs) as H.
  destruct H as (_ & _ & H1 & H2); split; [exact H1 | exact H2].
Defined.

Lemma steadyRand_fair : Simulator.fair steadyRand.
Proof.
  split.
  - intro i; split; vm_compute; reflexivity.
  - intros i n Hn; cbn; lia.
Qed.

(** A backend with 150 items queued. *)
Lemma updateLoad_lock_count_witness :
  20 <= Simulator.dbLocks
          (fst (Simulator.updateLoad 0
                  (Simulator.set_queueDepth
                     (Simulator.NewBackend Simulator.PatternSpikes) 150)
                  steadyRand)) < 50.
Proof.
  pose proof (@updateLoad_lock_count amd64 0
                (Simulator.set_queueDepth (Simulator.NewBackend Simulator.PatternSpikes) 150)
                steadyRand steadyRand_fair) as H.
  destruct H as [H _]; exact H.
Defined.

Lemma gradual_load_is_capped_witness :
  (Simulator.cpuLoad
     (fst (Simulator.updateLoad 0 (Simulator.NewBackend Simulator.PatternGradual)
             steadyRand))
   <=? Simulator.f0_95)%float = true.
Proof.
  pose proof (@gradual_load_is_capped amd64 0
                (Simulator.NewBackend Simulator.PatternGradual) steadyRand eq_refl) as H.
  destruct H as [H _]; exact H.
Defined.

(** The batch of ten of the simulator's own test. *)
Lemma ProcessBatch_counts_every_item_witness :
  exists fb b' r',
    Simulator.ProcessBatch_leave 1000 (items 0 10)
      (Simulator.NewBackend Simulator.PatternConstant) steadyRand
    = ((Some fb, None), b', r') /\
    Simulator.totalProcessed b' + Simulator.totalErrors b' = 0 + 0 + 10.
Proof.
  assert (H0 : 0 <= 0) by lia.
  assert (Hfit : 0 + 0 + len (items 0 10) <= max_int64) by (vm_compute; discriminate).
  pose proof (@ProcessBatch_counts_every_item Z 1000 (items 0 10)
                (Simulator.NewBackend Simulator.PatternConstant) steadyRand
                H0 H0 Hfit) as H.
  destruct H as (fb & b' & r' & Heq & Hsum & _).
  exists fb, b', r'; split; [exact Heq | exact Hsum].
Defined.

Lemma ProcessBatch_restores_queue_witness :
  exists fb b' r',
    Simulator.ProcessBatch 0 1000 (items 0 10)
      (Simulator.NewBackend Simulator.PatternConstant) steadyRand
    = ((Some fb, None), b', r') /\
    Simulator.queueDepth b' = 0 /\ QueueDepth fb = 0.
Proof.
  assert (H0 : 0 <= 0) by lia.
  assert (Hfit : 0 + len (items 0 10) <= max_int64) by (vm_compute; discriminate).
  pose proof (@ProcessBatch_restores_queue Z amd64 0 1000 (items 0 10)
                (Simulator.NewBackend Simulator.PatternConstant) steadyRand
                H0 Hfit) as H.
  destruct H as (fb & b' & r' & Heq & Hq & Hf & _).
  exists fb, b', r'; split; [exact Heq|]; split; [exact Hq | exact Hf].
Defined.

(** The demo at its initial load of 0.3. *)
Lemma handleBatch_feedback_in_range_witness :
  exists fb,
    snd (WebDemo.handleBatch WebDemo.NewSimpleDemo (items 0 20)) = (Some fb, None) /\
    0 <= QueueDepth fb <= 50 /\ (LoadScore fb <=? 1)%float = true.
Proof.
  assert (H0 : (0 <=? WebDemo.currentLoad WebDemo.NewSimpleDemo)%float = true)
    by (vm_compute; reflexivity).
  assert (H1 : (WebDemo.currentLoad WebDemo.NewSimpleDemo <=? 1)%float = true)
    by (vm_compute; reflexivity).
  pose proof (@handleBatch_feedback_in_range Z amd64 WebDemo.NewSimpleDemo
                (items 0 20) H0 H1) as H.
  destruct H as (fb & Heq & _ & Hq & _ & _ & _ & Hs & _).
  exists fb; split; [exact Heq|]; split; [exact Hq | exact Hs].
Defined.

(** A handler that reports a NaN CPU load once. *)
Lemma nan_feedback_holds_size_witness :
  exists b0, New (testConfig busy) = Ok b0 /\
    let b := run (addAll b0 (items 0 27)) [EvRecord (cpuOnly nan)] in
    currentBatchSize (adjustBatchSize b) = currentBatchSize b.
Proof.
  eexists; split; [reflexivity|]; cbv zeta.
  set (b := run (addAll (Item := Z) _ (items 0 27)) [EvRecord (cpuOnly nan)]).
  assert (Hreach : reachable b)
    by (apply reachable_run, (busy_state_reachable (b0 := _) eq_refl)).
  assert (Hex : Exists (fun lf => Prim2SF (LoadScore lf) = S754_nan) (recentFeedback b)).
  { assert (Hring : recentFeedback b = [busy; cpuOnly nan]) by (vm_compute; reflexivity).
    rewrite Hring; right; left; vm_compute; reflexivity. }
  pose proof (@nan_feedback_holds_size Z amd64 b Hreach Hex) as H.
  destruct H as (_ & H & _); exact H.
Defined.

End MoreScenarios.
